(** * x402 HTTP resource server: route matching, request processing,
      settlement and startup validation

    A shallow embedding of [x402HTTPResourceServer] (the HTTP layer of the
    x402 resource server) and of the JavaScript built-ins it relies on
    ([String.prototype.split/replace/includes/toUpperCase],
    [decodeURIComponent], the [RegExp] fragment that [parseRoutePattern]
    produces), followed by the properties of the specification. *)

From Stdlib Require Import NArith List Bool String Ascii Lia.
From stdpp Require Import gmap list.
Import ListNotations.

Set Implicit Arguments.

(** ** JavaScript strings

    A JavaScript string is a sequence of UTF-16 code units; a code unit is
    an [N]. *)

Module JS.

Definition jsstring : Type := list N.

(** The code units of an ASCII literal. *)
Definition js (s : string) : jsstring :=
  map N_of_ascii (list_ascii_of_string s).

Definition PERCENT   : N := 37.  (* % *)
Definition HASH      : N := 35.  (* # *)
Definition QUESTION  : N := 63.  (* ? *)
Definition SLASH     : N := 47.  (* / *)
Definition BACKSLASH : N := 92.
Definition STAR      : N := 42.  (* * *)
Definition DOT       : N := 46.  (* . *)
Definition LBRACKET  : N := 91.  (* [ *)
Definition RBRACKET  : N := 93.  (* ] *)
Definition CARET     : N := 94.  (* ^ *)
Definition DOLLAR    : N := 36.  (* $ *)
Definition PLUS      : N := 43.  (* + *)
Definition SPACE     : N := 32.

(** Strict equality [===] on strings. *)
Fixpoint str_eqb (a b : jsstring) : bool :=
  match a, b with
  | [], [] => true
  | x :: a', y :: b' => N.eqb x y && str_eqb a' b'
  | _, _ => false
  end.

(** A string is falsy exactly when it is empty. *)
Definition truthy (s : jsstring) : bool :=
  match s with [] => false | _ :: _ => true end.

(** [a || b] on optional strings ([undefined] and the empty string are falsy). *)
Definition or_else (a : option jsstring) (b : jsstring) : jsstring :=
  match a with
  | Some s => if truthy s then s else b
  | None => b
  end.

(** [String.prototype.toUpperCase], for ASCII text.  The mapping is the one
    of the ASCII letters, which is what the code computes on a string of
    code units below 128.  On other text the code applies the Unicode case
    tables (one letter may become another, two letters, or an ASCII
    letter); they are not part of this development, which leaves code units
    from 128 on as they are.  A statement that depends on the upper case of
    a text is therefore made for ASCII text, or holds of the code whatever
    the tables are. *)
Definition upper_unit (c : N) : N :=
  if (97 <=? c)%N && (c <=? 122)%N then (c - 32)%N else c.

Definition toUpperCase (s : jsstring) : jsstring := map upper_unit s.

(** [s.startsWith(p)] *)
Fixpoint startsWith (s p : jsstring) : bool :=
  match p, s with
  | [], _ => true
  | x :: p', y :: s' => N.eqb x y && startsWith s' p'
  | _ :: _, [] => false
  end.

(** [s.includes(p)] *)
Fixpoint includes (s p : jsstring) : bool :=
  startsWith s p ||
  match s with
  | [] => false
  | _ :: s' => includes s' p
  end.

(** ECMAScript LineTerminator: LF, CR, LS, PS.  The regular-expression dot
    matches every code unit but these. *)
Definition isLineTerminator (c : N) : bool :=
  N.eqb c 10 || N.eqb c 13 || N.eqb c 8232 || N.eqb c 8233.

(** ECMAScript WhiteSpace and LineTerminator, the class [\s]. *)
Definition isWhiteSpace (c : N) : bool :=
  isLineTerminator c ||
  N.eqb c 9 || N.eqb c 11 || N.eqb c 12 || N.eqb c 32 || N.eqb c 160 ||
  N.eqb c 5760 || ((8192 <=? c)%N && (c <=? 8202)%N) ||
  N.eqb c 8239 || N.eqb c 8287 || N.eqb c 12288 || N.eqb c 65279.

(** *** decodeURIComponent

    ECMAScript [Decode] with an empty preserved set, in two passes: the
    escapes [%XX] become octets, then the octets are read as UTF-8 and
    written as UTF-16.  [None] is a thrown [URIError]; the algorithm of the
    standard raises it at the first offending escape, this one wherever an
    offending escape exists, which is the same set of inputs. *)

Inductive Item : Type :=
| Lit (c : N)      (* a code unit copied as it is *)
| Oct (b : N).     (* the octet of an escape *)

Definition hexVal (c : N) : option N :=
  if (48 <=? c)%N && (c <=? 57)%N then Some (c - 48)%N
  else if (65 <=? c)%N && (c <=? 70)%N then Some (c - 55)%N
  else if (97 <=? c)%N && (c <=? 102)%N then Some (c - 87)%N
  else None.

Fixpoint percentUnescape (s : jsstring) : option (list Item) :=
  match s with
  | [] => Some []
  | c :: rest =>
      if N.eqb c PERCENT then
        match rest with
        | h1 :: h2 :: rest' =>
            match hexVal h1, hexVal h2 with
            | Some a, Some b =>
                option_map (cons (Oct (16 * a + b)%N)) (percentUnescape rest')
            | _, _ => None
            end
        | _ => None
        end
      else option_map (cons (Lit c)) (percentUnescape rest)
  end.

(** A continuation octet is 10xxxxxx. *)
Definition isCont (b : N) : bool := (128 <=? b)%N && (b <? 192)%N.

(** UTF16EncodeCodePoint *)
Definition utf16 (cp : N) : jsstring :=
  if (cp <? 65536)%N then [cp]
  else [(55296 + (cp - 65536) / 1024)%N; (56320 + (cp - 65536) mod 1024)%N].

(** A code point read from [n] octets is accepted when it is not an
    overlong form, not a surrogate and at most U+10FFFF. *)
Definition validScalar (lo cp : N) : bool :=
  (lo <=? cp)%N && (cp <=? 1114111)%N &&
  negb ((55296 <=? cp)%N && (cp <=? 57343)%N).

Fixpoint utf8Decode (l : list Item) : option jsstring :=
  match l with
  | [] => Some []
  | Lit c :: l' => option_map (cons c) (utf8Decode l')
  | Oct b :: l' =>
      if (b <? 128)%N then option_map (cons b) (utf8Decode l')
      else if (b <? 192)%N then None
      else if (b <? 224)%N then
        match l' with
        | Oct b2 :: l2 =>
            let cp := ((b - 192) * 64 + (b2 - 128))%N in
            if isCont b2 && validScalar 128 cp
            then option_map (app (utf16 cp)) (utf8Decode l2)
            else None
        | _ => None
        end
      else if (b <? 240)%N then
        match l' with
        | Oct b2 :: Oct b3 :: l3 =>
            let cp := ((b - 224) * 4096 + (b2 - 128) * 64 + (b3 - 128))%N in
            if isCont b2 && isCont b3 && validScalar 2048 cp
            then option_map (app (utf16 cp)) (utf8Decode l3)
            else None
        | _ => None
        end
      else if (b <? 248)%N then
        match l' with
        | Oct b2 :: Oct b3 :: Oct b4 :: l4 =>
            let cp := ((b - 240) * 262144 + (b2 - 128) * 4096
                       + (b3 - 128) * 64 + (b4 - 128))%N in
            if isCont b2 && isCont b3 && isCont b4 && validScalar 65536 cp
            then option_map (app (utf16 cp)) (utf8Decode l4)
            else None
        | _ => None
        end
      else None
  end.

Definition decodeURIComponent (s : jsstring) : option jsstring :=
  match percentUnescape s with
  | Some items => utf8Decode items
  | None => None
  end.

End JS.
Export JS.

(** ** Path normalization ([normalizePath]) *)

Module Path.

(** [path.split(/[?#]/)[0]]: the part before the first [?] or [#]. *)
Fixpoint beforeQuery (path : jsstring) : jsstring :=
  match path with
  | [] => []
  | c :: rest =>
      if N.eqb c QUESTION || N.eqb c HASH then [] else c :: beforeQuery rest
  end.

(** [.replace(/\\/g, "/")] *)
Definition backslashToSlash (s : jsstring) : jsstring :=
  map (fun c => if N.eqb c BACKSLASH then SLASH else c) s.

(** [.replace(/\/+/g, "/")]: every maximal run of slashes becomes one
    slash, so a slash followed by a slash is dropped. *)
Fixpoint collapseSlashes (s : jsstring) : jsstring :=
  match s with
  | [] => []
  | c :: rest =>
      if N.eqb c SLASH then
        match rest with
        | c' :: _ => if N.eqb c' SLASH then collapseSlashes rest
                     else c :: collapseSlashes rest
        | [] => [c]
        end
      else c :: collapseSlashes rest
  end.

(** [s] is a non-empty run of slashes: [\/+$] matches all of it. *)
Fixpoint slashesToEnd (s : jsstring) : bool :=
  match s with
  | [] => false
  | c :: rest =>
      N.eqb c SLASH && match rest with [] => true | _ => slashesToEnd rest end
  end.

(** A match of [(.+?)\/+$] that starts at the head of [s]: the group takes
    the fewest code units (at least one, none a line terminator) after
    which only slashes remain.  The result is the group [$1]. *)
Fixpoint lazyGroupAt (s : jsstring) : option jsstring :=
  match s with
  | [] => None
  | c :: rest =>
      if isLineTerminator c then None
      else if slashesToEnd rest then Some [c]
      else option_map (cons c) (lazyGroupAt rest)
  end.

(** [.replace(/(.+?)\/+$/, "$1")]: the leftmost match is replaced by its
    group; without a match the string is unchanged. *)
Fixpoint stripTrailingSlashes (s : jsstring) : jsstring :=
  match lazyGroupAt s with
  | Some g => g
  | None =>
      match s with
      | [] => []
      | c :: rest => c :: stripTrailingSlashes rest
      end
  end.

(** [normalizePath]: the [catch] branch returns the path as it came. *)
Definition normalizePath (path : jsstring) : jsstring :=
  let pathWithoutQuery := beforeQuery path in
  match decodeURIComponent pathWithoutQuery with
  | Some decodedPath =>
      stripTrailingSlashes (collapseSlashes (backslashToSlash decodedPath))
  | None => path
  end.

End Path.
Export Path.


(** ** Regular expressions

    The fragment of ECMAScript [RegExp] (flag [i], no [g], [m], [s], [u])
    that the sources built by [parseRoutePattern] fall in: pattern
    characters, identity escapes of punctuation, the dot, character classes
    without ranges, the quantifiers star, plus and question mark (greedy or
    lazy), and the two anchors. *)

Module RegExp.

Inductive Quant : Type := Once | Star | Plus | Opt.

Inductive Atom : Type :=
| AChar (c : N)
| AAny
| AClass (negated : bool) (members : list N).

Inductive Term : Type :=
| TStart                         (* ^ *)
| TEnd                           (* $ *)
| TAtom (a : Atom) (q : Quant).

Definition Regex : Type := list Term.

Inductive Token : Type :=
| TkCaret
| TkDollar
| TkAtom (a : Atom)
| TkQuant (q : Quant) (isQuestion : bool).

(** SyntaxCharacter and the slash: the characters whose escape [\c] is read
    as the character itself. *)
Definition isSyntaxChar (c : N) : bool :=
  existsb (N.eqb c) [94; 36; 92; 46; 42; 43; 63; 40; 41; 91; 93; 123; 125; 124; 47]%N.

(** Reading a source into tokens.  [cls] is [Some (negated, members)] while
    a character class is open.  [None]: the source is a syntax error or
    leaves the fragment (an escape of a letter or digit, a range in a class,
    a group, an alternative, a brace). *)
Fixpoint lex (cls : option (bool * list N)) (src : jsstring) : option (list Token) :=
  match src with
  | [] => match cls with None => Some [] | Some _ => None end
  | c :: rest =>
      match cls with
      | Some (neg, ms) =>
          if N.eqb c RBRACKET then
            option_map (cons (TkAtom (AClass neg ms))) (lex None rest)
          else if N.eqb c BACKSLASH then
            match rest with
            | e :: rest' =>
                if isSyntaxChar e then lex (Some (neg, ms ++ [e])) rest' else None
            | [] => None
            end
          else if N.eqb c 45 then None
          else lex (Some (neg, ms ++ [c])) rest
      | None =>
          if N.eqb c CARET then option_map (cons TkCaret) (lex None rest)
          else if N.eqb c DOLLAR then option_map (cons TkDollar) (lex None rest)
          else if N.eqb c DOT then option_map (cons (TkAtom AAny)) (lex None rest)
          else if N.eqb c STAR then option_map (cons (TkQuant Star false)) (lex None rest)
          else if N.eqb c PLUS then option_map (cons (TkQuant Plus false)) (lex None rest)
          else if N.eqb c QUESTION then option_map (cons (TkQuant Opt true)) (lex None rest)
          else if N.eqb c BACKSLASH then
            match rest with
            | e :: rest' =>
                if isSyntaxChar e
                then option_map (cons (TkAtom (AChar e))) (lex None rest')
                else None
            | [] => None
            end
          else if N.eqb c LBRACKET then
            match rest with
            | c' :: rest' =>
                if N.eqb c' CARET then lex (Some (true, [])) rest'
                else lex (Some (false, [])) rest
            | [] => None
            end
          else if existsb (N.eqb c) [40; 41; 124; 123; 125]%N then None
          else option_map (cons (TkAtom (AChar c))) (lex None rest)
      end
  end.

(** Tokens to terms: an atom takes the quantifier that follows it, and a
    question mark after a quantifier makes it lazy.  A quantifier with
    nothing to repeat is a syntax error. *)
Fixpoint terms (ts : list Token) : option Regex :=
  match ts with
  | [] => Some []
  | TkCaret :: r => option_map (cons TStart) (terms r)
  | TkDollar :: r => option_map (cons TEnd) (terms r)
  | TkQuant _ _ :: _ => None
  | TkAtom a :: r =>
      match r with
      | TkQuant q _ :: r1 =>
          match r1 with
          | TkQuant _ true :: r2 => option_map (cons (TAtom a q)) (terms r2)
          | _ => option_map (cons (TAtom a q)) (terms r1)
          end
      | _ => option_map (cons (TAtom a Once)) (terms r)
      end
  end.

(** [new RegExp(source, "i")] *)
Definition compile (source : jsstring) : option Regex :=
  match lex None source with
  | Some ts => terms ts
  | None => None
  end.

(** Canonicalize of flag [i], without flag [u]: code units are compared by
    their upper case.  Below 128 this is the mapping of the ASCII letters.
    From 128 on the code maps a code unit through the Unicode tables, and
    never to a code unit below 128; here such a code unit is left as it is.
    So the matcher is the one of the code when the literals of the pattern
    are ASCII, whatever the text matched; for a literal from 128 on it
    tells nothing about the other case of that letter. *)
Definition canon (c : N) : N := upper_unit c.

Definition atomMatches (a : Atom) (c : N) : bool :=
  match a with
  | AChar x => N.eqb (canon x) (canon c)
  | AAny => negb (isLineTerminator c)
  | AClass neg ms => xorb neg (existsb (fun m => N.eqb (canon m) (canon c)) ms)
  end.

(** Does [r] match a prefix of [s]?  [atStart] tells whether [s] is the
    whole input.  A test only asks whether some match exists, so greedy and
    lazy quantifiers are the same here. *)
Fixpoint matchHere (r : Regex) (atStart : bool) (s : jsstring) : bool :=
  match r with
  | [] => true
  | TStart :: r' => atStart && matchHere r' atStart s
  | TEnd :: r' => match s with [] => matchHere r' atStart s | _ :: _ => false end
  | TAtom a q :: r' =>
      let star :=
        fix star (atStart : bool) (s : jsstring) : bool :=
          matchHere r' atStart s ||
          match s with
          | [] => false
          | c :: s' => atomMatches a c && star false s'
          end in
      match q with
      | Once =>
          match s with
          | [] => false
          | c :: s' => atomMatches a c && matchHere r' false s'
          end
      | Opt =>
          matchHere r' atStart s ||
          match s with
          | [] => false
          | c :: s' => atomMatches a c && matchHere r' false s'
          end
      | Star => star atStart s
      | Plus =>
          match s with
          | [] => false
          | c :: s' => atomMatches a c && star false s'
          end
      end
  end.

Fixpoint testFrom (r : Regex) (atStart : bool) (s : jsstring) : bool :=
  matchHere r atStart s ||
  match s with
  | [] => false
  | _ :: s' => testFrom r false s'
  end.

(** [regex.test(s)] *)
Definition test (r : Regex) (s : jsstring) : bool := testFrom r true s.

End RegExp.

(** ** Route patterns ([parseRoutePattern]) *)

Module Pattern.

Fixpoint takeUntilSpace (s : jsstring) : jsstring :=
  match s with
  | [] => []
  | c :: rest => if isWhiteSpace c then [] else c :: takeUntilSpace rest
  end.

Fixpoint dropUntilSpace (s : jsstring) : jsstring :=
  match s with
  | [] => []
  | c :: rest => if isWhiteSpace c then s else dropUntilSpace rest
  end.

Fixpoint dropSpaces (s : jsstring) : jsstring :=
  match s with
  | [] => []
  | c :: rest => if isWhiteSpace c then dropSpaces rest else s
  end.

(** [const [verb, path] = pattern.split(/\s+/)]: the first two fields. A
    pattern with a space has at least two of them. *)
Definition splitVerbPath (pattern : jsstring) : jsstring * jsstring :=
  (takeUntilSpace pattern,
   takeUntilSpace (dropSpaces (dropUntilSpace pattern))).

(** [.replace(/[$()+.?^{|}]/g, "\\$&")] *)
Definition isEscaped (c : N) : bool :=
  existsb (N.eqb c) [36; 40; 41; 43; 46; 63; 94; 123; 124; 125]%N.

Definition escapeSpecials (s : jsstring) : jsstring :=
  flat_map (fun c => if isEscaped c then [BACKSLASH; c] else [c]) s.

(** [.replace(/\*/g, ".*?")] *)
Definition wildcards (s : jsstring) : jsstring :=
  flat_map (fun c => if N.eqb c STAR then js ".*?" else [c]) s.

(** [.replace(/\[([^\]]+)\]/g, "[^/]+")].  [pending] is [Some buf] after an
    opening bracket followed by [buf], which holds no closing bracket: the
    closing bracket completes a match when [buf] is not empty. *)
Fixpoint parameters (pending : option jsstring) (s : jsstring) : jsstring :=
  match s with
  | [] => match pending with Some buf => LBRACKET :: buf | None => [] end
  | c :: rest =>
      match pending with
      | None =>
          if N.eqb c LBRACKET then parameters (Some []) rest
          else c :: parameters None rest
      | Some buf =>
          if N.eqb c RBRACKET then
            match buf with
            | [] => LBRACKET :: RBRACKET :: parameters None rest
            | _ :: _ => js "[^/]+" ++ parameters None rest
            end
          else parameters (Some (buf ++ [c])) rest
      end
  end.

(** [.replace(/\//g, "\\/")] *)
Definition escapeSlashes (s : jsstring) : jsstring :=
  flat_map (fun c => if N.eqb c SLASH then [BACKSLASH; SLASH] else [c]) s.

Definition regexSource (path : jsstring) : jsstring :=
  js "^" ++ escapeSlashes (parameters None (wildcards (escapeSpecials path)))
         ++ js "$".

(** The verb and the path that a pattern declares: the two fields around
    its first run of white space, or any verb and the whole pattern when it
    has no space. *)
Definition declaredVerb (pattern : jsstring) : jsstring :=
  if includes pattern (js " ") then fst (splitVerbPath pattern) else js "*".

Definition declaredPath (pattern : jsstring) : jsstring :=
  if includes pattern (js " ") then snd (splitVerbPath pattern) else pattern.

(** [parseRoutePattern]; [None] when [new RegExp] throws or the source is
    outside the fragment of [RegExp.compile]. *)
Definition parseRoutePattern (pattern : jsstring)
  : option (jsstring * RegExp.Regex) :=
  let '(verb, path) :=
    if includes pattern (js " ") then splitVerbPath pattern
    else (js "*", pattern) in
  match RegExp.compile (regexSource path) with
  | Some regex => Some (toUpperCase verb, regex)
  | None => None
  end.

End Pattern.
Export Pattern.


(** ** Results, exceptions and the request monad *)

Definition Network : Type := jsstring.

(** [RouteValidationError] *)
Inductive ValidationReason : Type := missing_scheme | missing_facilitator.

Record RouteValidationError : Type := {
  routePattern : jsstring;
  err_scheme : jsstring;
  err_network : Network;
  reason : ValidationReason;
  message : jsstring
}.

(** What a [throw] carries, as far as the [catch] clauses of the server tell
    thrown values apart ([instanceof Error], [instanceof SettleError]). *)
Inductive Exn : Type :=
| ErrorExn (msg : jsstring)
| SettleErrorExn (msg : jsstring) (errorReason : option jsstring)
                 (payer : option jsstring) (network : Network)
                 (transaction : jsstring)
| RouteConfigurationError (msg : jsstring) (errors : list RouteValidationError)
| NotAnError.

(** [error instanceof Error ? error.message : fallback] *)
Definition messageOr (e : Exn) (fallback : jsstring) : jsstring :=
  match e with
  | ErrorExn m => m
  | SettleErrorExn m _ _ _ _ => m
  | RouteConfigurationError m _ => m
  | NotAnError => fallback
  end.

Inductive Outcome (A : Type) : Type :=
| Returned (a : A)
| Thrown (e : Exn).
Arguments Returned {A} a.
Arguments Thrown {A} e.

(** The calls that leave the HTTP layer: the operations of the resource
    server, the callbacks of a route and the paywall provider. *)
Inductive Call : Type :=
| CallInitialize
| CallBuildRequirements
| CallEnrichExtensions
| CallCreatePaymentRequired (reason : option jsstring)
| CallFindMatching
| CallVerify
| CallSettle
| CallUnpaidResponseBody
| CallGenerateHtml.

Section Monad.
Variable World : Type.

(** The state a request runs in: the world of the collaborators, and the
    calls made so far (kept to state which calls a request makes). *)
Record Store : Type := { world : World; trace : list Call }.

Definition M (A : Type) : Type := Store -> Outcome A * Store.

Definition ret {A} (a : A) : M A := fun st => (Returned a, st).

Definition throw {A} (e : Exn) : M A := fun st => (Thrown e, st).

Definition bind {A B} (m : M A) (k : A -> M B) : M B :=
  fun st =>
    match m st with
    | (Returned a, st') => k a st'
    | (Thrown e, st') => (Thrown e, st')
    end.

(** [try { body } catch (error) { handler }] *)
Definition try_catch {A} (body : M A) (handler : Exn -> M A) : M A :=
  fun st =>
    match body st with
    | (Returned a, st') => (Returned a, st')
    | (Thrown e, st') => handler e st'
    end.

(** A call of a collaborator: it runs on the world and is recorded. *)
Definition call {A} (c : Call) (op : World -> Outcome A * World) : M A :=
  fun st =>
    let (r, w) := op (world st) in
    (r, {| world := w; trace := trace st ++ [c] |}).
End Monad.

Arguments ret {World A} a.
Arguments throw {World A} e.
Arguments bind {World A B} m k.
Arguments try_catch {World A} body handler.
Arguments call {World A} c op.

Notation "'let!' x ':=' m 'in' k" := (bind m (fun x => k))
  (at level 10, x name, m at level 100, k at level 200).

(** [PaywallConfig] *)
Record PaywallConfig : Type := {
  appName : option jsstring;
  appLogo : option jsstring;
  sessionTokenEndpoint : option jsstring;
  currentUrl : option jsstring;
  testnet : option bool
}.

(** ** The collaborators

    Types and functions of this repository that the HTTP layer imports and
    whose declarations are outside the files at hand, taken as parameters:
    the protocol types of [../types], the header codec of the sibling
    module, the optional [@x402/paywall] package and the protocol version. *)

Class Externals : Type := {
  World : Type;
  PaymentPayload : Type;
  PaymentRequirements : Type;
  requirements_network : PaymentRequirements -> Network;
  PaymentRequired : Type;
  paymentRequired_accepts : PaymentRequired -> list PaymentRequirements;
  SettleResponse : Type;
  settle_success : SettleResponse -> bool;
  settle_errorReason : SettleResponse -> option jsstring;
  Price : Type;
  SupportedKind : Type;
  (* [Record<string, unknown>] and [unknown] *)
  Extensions : Type;
  Unknown : Type;
  x402Version : N;
  (* the codec: decoding may throw *)
  decodePaymentSignatureHeader : jsstring -> Outcome PaymentPayload;
  encodePaymentRequiredHeader : PaymentRequired -> jsstring;
  (* applied to [{ ...settleResponse, requirements }] *)
  encodePaymentResponseHeader : SettleResponse -> PaymentRequirements -> jsstring;
  (* the [@x402/paywall] package when it is installed: the call
     [paywall.getPaywallHtml] with the arguments that [generatePaywallHTML]
     computes from its own *)
  optionalPaywall :
    option (PaymentRequired -> option PaywallConfig -> Outcome jsstring);
  (* the inline page of [generatePaywallHTML]; the amount it prints goes
     through [parseFloat] and [toFixed], which are not modelled *)
  basicPaywall : PaymentRequired -> option PaywallConfig -> jsstring
}.

Section Server.
Context `{Externals}.

Local Abbreviation Prog := (M World).

(** [HTTPAdapter], with the accessors the server uses. *)
Record HTTPAdapter : Type := {
  getHeader : jsstring -> option jsstring;
  getMethod : jsstring;
  getPath : jsstring;
  getUrl : jsstring;
  getAcceptHeader : jsstring;
  getUserAgent : jsstring
}.

(** [HTTPRequestContext] *)
Record HTTPRequestContext : Type := {
  adapter : HTTPAdapter;
  path : jsstring;
  method : jsstring;
  paymentHeader : option jsstring
}.

(** A field that is a value or a function of the request context. *)
Inductive Dynamic (A : Type) : Type :=
| Static (a : A)
| Resolved (f : HTTPRequestContext -> World -> Outcome A * World).

(** [PaymentOption] *)
Record PaymentOption : Type := {
  scheme : jsstring;
  payTo : Dynamic jsstring;
  price : Dynamic Price;
  network : Network;
  maxTimeoutSeconds : option N;
  extra : option Extensions
}.

(** [UnpaidResponseResult] *)
Record UnpaidResponseResult : Type := {
  contentType : jsstring;
  unpaid_body : Unknown
}.

(** [accepts: PaymentOption | PaymentOption[]] *)
Inductive Accepts : Type :=
| One (option : PaymentOption)
| Many (options : list PaymentOption).

(** [RouteConfig] *)
Record RouteConfig : Type := {
  accepts : Accepts;
  resource : option jsstring;
  description : option jsstring;
  mimeType : option jsstring;
  customPaywallHtml : option jsstring;
  unpaidResponseBody :
    option (HTTPRequestContext -> World -> Outcome UnpaidResponseResult * World);
  extensions : option Extensions
}.

(** [RoutesConfig = Record<string, RouteConfig> | RouteConfig].  The server
    tells the two apart by [!("accepts" in routes)]; a table is given by
    its entries in the order [Object.entries] lists them. *)
Inductive RoutesConfig : Type :=
| SingleRoute (config : RouteConfig)
| RouteTable (entries : list (jsstring * RouteConfig)).

(** [CompiledRoute] *)
Record CompiledRoute : Type := {
  verb : jsstring;
  regex : RegExp.Regex;
  config : RouteConfig
}.

(** The resource information built for a request. *)
Record ResourceInfo : Type := {
  url : jsstring;
  info_description : jsstring;
  info_mimeType : jsstring
}.

(** The result of [verifyPayment]. *)
Record VerifyResponse : Type := {
  isValid : bool;
  invalidReason : option jsstring
}.

(** [x402ResourceServer], the Resource Authority. *)
Record x402ResourceServer : Type := {
  rs_initialize : World -> Outcome unit * World;
  hasRegisteredScheme : World -> Network -> jsstring -> bool;
  getSupportedKind : World -> N -> Network -> jsstring -> option SupportedKind;
  buildPaymentRequirementsFromOptions :
    list PaymentOption -> HTTPRequestContext ->
    World -> Outcome (list PaymentRequirements) * World;
  enrichExtensions :
    Extensions -> HTTPRequestContext -> World -> Outcome Extensions * World;
  createPaymentRequiredResponse :
    list PaymentRequirements -> ResourceInfo -> option jsstring ->
    option Extensions -> World -> Outcome PaymentRequired * World;
  findMatchingRequirements :
    list PaymentRequirements -> PaymentPayload ->
    World -> Outcome (option PaymentRequirements) * World;
  verifyPayment :
    PaymentPayload -> PaymentRequirements ->
    World -> Outcome VerifyResponse * World;
  settlePayment :
    PaymentPayload -> PaymentRequirements ->
    World -> Outcome SettleResponse * World
}.

(** [PaywallProvider] *)
Record PaywallProvider : Type := {
  generateHtml :
    PaymentRequired -> option PaywallConfig -> World -> Outcome jsstring * World
}.

(** The body of a response: the paywall page, the body of the route's
    unpaid-response callback, or the empty object. *)
Inductive Body : Type :=
| HtmlBody (html : jsstring)
| UnpaidBody (body : Unknown)
| EmptyObject.

(** [HTTPResponseInstructions] *)
Record HTTPResponseInstructions : Type := {
  status : N;
  headers : gmap jsstring jsstring;
  body : option Body;
  isHtml : option bool
}.

(** [HTTPProcessResult] *)
Inductive HTTPProcessResult : Type :=
| NoPaymentRequired
| PaymentVerified (paymentPayload : PaymentPayload)
                  (paymentRequirements : PaymentRequirements)
| PaymentError (response : HTTPResponseInstructions).

(** [ProcessSettleResultResponse]: the three object literals that
    [processSettlement] returns. *)
Inductive ProcessSettleResultResponse : Type :=
(* [{ ...settleResponse, success: true, headers, requirements }] *)
| SettleSuccess (settleResponse : SettleResponse)
                (headers : gmap jsstring jsstring)
                (requirements : PaymentRequirements)
(* [{ ...settleResponse, success: false, errorReason }] *)
| SettleFailure (settleResponse : SettleResponse) (errorReason : jsstring)
(* [{ success: false, errorReason, payer, network, transaction }] *)
| SettleThrown (errorReason : jsstring) (payer : option jsstring)
               (network : Network) (transaction : jsstring).

(** The fields of the server object. *)
Record x402HTTPResourceServer : Type := {
  ResourceServer : x402ResourceServer;
  compiledRoutes : list CompiledRoute;
  routesConfig : RoutesConfig;
  paywallProvider : option PaywallProvider
}.


(** *** Construction *)

(** The two shapes of a route table, as entries. *)
Definition normalizedRoutes (routes : RoutesConfig)
  : list (jsstring * RouteConfig) :=
  match routes with
  | RouteTable entries => entries
  | SingleRoute config => [(js "*", config)]
  end.

(** The loop of the constructor: one compiled route is pushed per entry,
    in order. *)
Fixpoint compileRoutes (entries : list (jsstring * RouteConfig))
  : option (list CompiledRoute) :=
  match entries with
  | [] => Some []
  | (pattern, config) :: rest =>
      match parseRoutePattern pattern with
      | Some (verb, regex) =>
          option_map (cons {| verb := verb; regex := regex; config := config |})
                     (compileRoutes rest)
      | None => None
      end
  end.

(** [new x402HTTPResourceServer(ResourceServer, routes)]; [None] when a
    pattern does not compile. *)
Definition new_x402HTTPResourceServer
    (rs : x402ResourceServer) (routes : RoutesConfig)
  : option x402HTTPResourceServer :=
  option_map
    (fun compiled =>
       {| ResourceServer := rs; compiledRoutes := compiled;
          routesConfig := routes; paywallProvider := None |})
    (compileRoutes (normalizedRoutes routes)).

Definition registerPaywallProvider
    (srv : x402HTTPResourceServer) (provider : PaywallProvider)
  : x402HTTPResourceServer :=
  {| ResourceServer := ResourceServer srv;
     compiledRoutes := compiledRoutes srv;
     routesConfig := routesConfig srv;
     paywallProvider := Some provider |}.

(** *** Route lookup *)

(** The predicate of [compiledRoutes.find] in [getRouteConfig]. *)
Definition routeAccepts (normalizedPath upperMethod : jsstring)
    (route : CompiledRoute) : bool :=
  RegExp.test (regex route) normalizedPath &&
  (str_eqb (verb route) (js "*") || str_eqb (verb route) upperMethod).

Definition getRouteConfig (srv : x402HTTPResourceServer)
    (path method : jsstring) : option RouteConfig :=
  let normalizedPath := normalizePath path in
  let upperMethod := toUpperCase method in
  option_map config
    (List.find (routeAccepts normalizedPath upperMethod) (compiledRoutes srv)).

Definition requiresPayment (srv : x402HTTPResourceServer)
    (context : HTTPRequestContext) : bool :=
  match getRouteConfig srv (path context) (method context) with
  | Some _ => true
  | None => false
  end.

(** *** Payment options and startup validation *)

Definition normalizePaymentOptions (routeConfig : RouteConfig)
  : list PaymentOption :=
  match accepts routeConfig with
  | Many options => options
  | One option => [option]
  end.

Definition QUOTE : N := 34.
Definition quoted (s : jsstring) : jsstring := QUOTE :: s ++ [QUOTE].

Definition missingSchemeError (pattern : jsstring) (option : PaymentOption)
  : RouteValidationError :=
  {| routePattern := pattern;
     err_scheme := scheme option;
     err_network := network option;
     reason := missing_scheme;
     message :=
       js "Route " ++ quoted pattern
       ++ js ": No scheme implementation registered for "
       ++ quoted (scheme option) ++ js " on network "
       ++ quoted (network option) |}.

Definition missingFacilitatorError (pattern : jsstring) (option : PaymentOption)
  : RouteValidationError :=
  {| routePattern := pattern;
     err_scheme := scheme option;
     err_network := network option;
     reason := missing_facilitator;
     message :=
       js "Route " ++ quoted pattern
       ++ js ": Facilitator does not support scheme "
       ++ quoted (scheme option) ++ js " on network "
       ++ quoted (network option) |}.

(** The body of the inner loop of [validateRouteConfiguration]: the errors
    pushed for one option.  The facilitator is asked only when the scheme
    is registered ([continue]). *)
Definition validateOption (rs : x402ResourceServer) (w : World)
    (pattern : jsstring) (option : PaymentOption)
  : list RouteValidationError :=
  if negb (hasRegisteredScheme rs w (network option) (scheme option))
  then [missingSchemeError pattern option]
  else
    match getSupportedKind rs w x402Version (network option) (scheme option) with
    | None => [missingFacilitatorError pattern option]
    | Some _ => []
    end.

Definition validateRouteConfiguration (srv : x402HTTPResourceServer)
    (w : World) : list RouteValidationError :=
  flat_map
    (fun entry : jsstring * RouteConfig =>
       flat_map (validateOption (ResourceServer srv) w (fst entry))
                (normalizePaymentOptions (snd entry)))
    (normalizedRoutes (routesConfig srv)).

(** [errors.map(e => `  - ${e.message}`).join("\n")] *)
Fixpoint joinLines (lines : list jsstring) : jsstring :=
  match lines with
  | [] => []
  | [l] => l
  | l :: rest => l ++ 10%N :: joinLines rest
  end.

(** [new RouteConfigurationError(errors)] *)
Definition newRouteConfigurationError (errors : list RouteValidationError)
  : Exn :=
  RouteConfigurationError
    (js "x402 Route Configuration Errors:" ++ 10%N ::
     joinLines (map (fun e => js "  - " ++ message e) errors))
    errors.

Definition initialize (srv : x402HTTPResourceServer) : Prog unit :=
  let! _ := call CallInitialize (rs_initialize (ResourceServer srv)) in
  fun st =>
    let errors := validateRouteConfiguration srv (world st) in
    if (0 <? length errors)%nat
    then throw (newRouteConfigurationError errors) st
    else ret tt st.


(** *** Proof extraction and response composition *)

(** [a || b] on two optional strings. *)
Definition or_opt (a b : option jsstring) : option jsstring :=
  match a with
  | Some s => if truthy s then a else b
  | None => b
  end.

(** [extractPayment]: a header that does not decode is logged and the
    result is [null]. *)
Definition extractPayment (adapter : HTTPAdapter) : option PaymentPayload :=
  let header := or_opt (getHeader adapter (js "payment-signature"))
                       (getHeader adapter (js "PAYMENT-SIGNATURE")) in
  match header with
  | Some h =>
      if truthy h then
        match decodePaymentSignatureHeader h with
        | Returned payload => Some payload
        | Thrown _ => None
        end
      else None
  | None => None
  end.

Definition isWebBrowser (adapter : HTTPAdapter) : bool :=
  let accept := getAcceptHeader adapter in
  let userAgent := getUserAgent adapter in
  includes accept (js "text/html") && includes userAgent (js "Mozilla").

Definition generatePaywallHTML (srv : x402HTTPResourceServer)
    (paymentRequired : PaymentRequired) (paywallConfig : option PaywallConfig)
    (customHtml : option jsstring) : Prog jsstring :=
  let fromProviders : Prog jsstring :=
    match paywallProvider srv with
    | Some provider =>
        call CallGenerateHtml (generateHtml provider paymentRequired paywallConfig)
    | None =>
        match optionalPaywall with
        | Some getPaywallHtml =>
            match getPaywallHtml paymentRequired paywallConfig with
            | Returned html => ret html
            | Thrown _ => ret (basicPaywall paymentRequired paywallConfig)
            end
        | None => ret (basicPaywall paymentRequired paywallConfig)
        end
    end in
  match customHtml with
  | Some html => if truthy html then ret html else fromProviders
  | None => fromProviders
  end.

Definition createHTTPPaymentRequiredResponse (paymentRequired : PaymentRequired)
  : gmap jsstring jsstring :=
  {[ js "PAYMENT-REQUIRED" := encodePaymentRequiredHeader paymentRequired ]}.

Definition createSettlementHeaders (settleResponse : SettleResponse)
    (requirements : PaymentRequirements) : gmap jsstring jsstring :=
  {[ js "PAYMENT-RESPONSE" :=
       encodePaymentResponseHeader settleResponse requirements ]}.

Definition createHTTPResponse (srv : x402HTTPResourceServer)
    (paymentRequired : PaymentRequired) (isWebBrowser : bool)
    (paywallConfig : option PaywallConfig) (customHtml : option jsstring)
    (unpaidResponse : option UnpaidResponseResult)
  : Prog HTTPResponseInstructions :=
  if isWebBrowser then
    let! html := generatePaywallHTML srv paymentRequired paywallConfig customHtml in
    ret {| status := 402;
           headers := {[ js "Content-Type" := js "text/html" ]};
           body := Some (HtmlBody html);
           isHtml := Some true |}
  else
    let response := createHTTPPaymentRequiredResponse paymentRequired in
    let contentType :=
      match unpaidResponse with
      | Some u => contentType u
      | None => js "application/json"
      end in
    let body :=
      match unpaidResponse with
      | Some u => UnpaidBody (unpaid_body u)
      | None => EmptyObject
      end in
    (* the spread of [response.headers] comes last and wins on a clash *)
    ret {| status := 402;
           headers := response ∪ {[ js "Content-Type" := contentType ]};
           body := Some body;
           isHtml := None |}.

(** *** Request processing *)

(** The [try] block of [processHTTPRequest]. *)
Definition verifyBlock (srv : x402HTTPResourceServer)
    (routeConfig : RouteConfig) (paywallConfig : option PaywallConfig)
    (requirements : list PaymentRequirements) (resourceInfo : ResourceInfo)
    (paymentRequired : PaymentRequired) (paymentPayload : PaymentPayload)
  : Prog HTTPProcessResult :=
  let rs := ResourceServer srv in
  let! matchingRequirements :=
    call CallFindMatching
         (findMatchingRequirements rs (paymentRequired_accepts paymentRequired)
                                   paymentPayload) in
  match matchingRequirements with
  | None =>
      let why := Some (js "No matching payment requirements") in
      let! errorResponse :=
        call (CallCreatePaymentRequired why)
             (createPaymentRequiredResponse rs requirements resourceInfo why
                                            (extensions routeConfig)) in
      let! response :=
        createHTTPResponse srv errorResponse false paywallConfig None None in
      ret (PaymentError response)
  | Some matching =>
      let! verifyResult :=
        call CallVerify (verifyPayment rs paymentPayload matching) in
      if negb (isValid verifyResult) then
        let why := invalidReason verifyResult in
        let! errorResponse :=
          call (CallCreatePaymentRequired why)
               (createPaymentRequiredResponse rs requirements resourceInfo why
                                              (extensions routeConfig)) in
        let! response :=
          createHTTPResponse srv errorResponse false paywallConfig None None in
        ret (PaymentError response)
      else ret (PaymentVerified paymentPayload matching)
  end.

(** The [catch] block of [processHTTPRequest]. *)
Definition verifyHandler (srv : x402HTTPResourceServer)
    (routeConfig : RouteConfig) (paywallConfig : option PaywallConfig)
    (requirements : list PaymentRequirements) (resourceInfo : ResourceInfo)
    (error : Exn) : Prog HTTPProcessResult :=
  let why := Some (messageOr error (js "Payment verification failed")) in
  let! errorResponse :=
    call (CallCreatePaymentRequired why)
         (createPaymentRequiredResponse (ResourceServer srv) requirements
                                        resourceInfo why (extensions routeConfig)) in
  let! response :=
    createHTTPResponse srv errorResponse false paywallConfig None None in
  ret (PaymentError response).

(** The resource information of a request: the overrides of the route,
    else the URL of the request and empty strings. *)
Definition resourceInfoOf (routeConfig : RouteConfig)
    (context : HTTPRequestContext) : ResourceInfo :=
  {| url := or_else (resource routeConfig) (getUrl (adapter context));
     info_description := or_else (description routeConfig) [];
     info_mimeType := or_else (mimeType routeConfig) [] |}.

(** The steps of [processHTTPRequest] that come before the test on the
    proof: the requirements are built from the options, the extensions
    are enriched when the route has some, and the descriptor is created,
    with the reason [Payment required] when there is no proof. *)
Definition prepareRequirements (srv : x402HTTPResourceServer)
    (routeConfig : RouteConfig) (context : HTTPRequestContext)
    (paymentPayload : option PaymentPayload)
  : Prog (list PaymentRequirements * PaymentRequired) :=
  let rs := ResourceServer srv in
  let paymentOptions := normalizePaymentOptions routeConfig in
  let resourceInfo := resourceInfoOf routeConfig context in
  let! requirements :=
    call CallBuildRequirements
         (buildPaymentRequirementsFromOptions rs paymentOptions context) in
  let! extensions :=
    match extensions routeConfig with
    | Some ext =>
        let! enriched := call CallEnrichExtensions (enrichExtensions rs ext context) in
        ret (Some enriched)
    | None => ret None
    end in
  let why :=
    match paymentPayload with
    | None => Some (js "Payment required")
    | Some _ => None
    end in
  let! paymentRequired :=
    call (CallCreatePaymentRequired why)
         (createPaymentRequiredResponse rs requirements resourceInfo why extensions) in
  ret (requirements, paymentRequired).

(** The custom body of an unpaid request, when the route has a generator. *)
Definition resolveUnpaidBody (routeConfig : RouteConfig)
    (context : HTTPRequestContext) : Prog (option UnpaidResponseResult) :=
  match unpaidResponseBody routeConfig with
  | Some generator =>
      let! u := call CallUnpaidResponseBody (generator context) in
      ret (Some u)
  | None => ret None
  end.

(** [processHTTPRequest] from the point where the route is known. *)
Definition processGated (srv : x402HTTPResourceServer)
    (routeConfig : RouteConfig) (context : HTTPRequestContext)
    (paywallConfig : option PaywallConfig) : Prog HTTPProcessResult :=
  let paymentPayload := extractPayment (adapter context) in
  let resourceInfo := resourceInfoOf routeConfig context in
  let! prepared :=
    prepareRequirements srv routeConfig context paymentPayload in
  let requirements := fst prepared in
  let paymentRequired := snd prepared in
  match paymentPayload with
  | None =>
      let! unpaidBody := resolveUnpaidBody routeConfig context in
      let! response :=
        createHTTPResponse srv paymentRequired (isWebBrowser (adapter context))
                           paywallConfig (customPaywallHtml routeConfig)
                           unpaidBody in
      ret (PaymentError response)
  | Some payload =>
      try_catch
        (verifyBlock srv routeConfig paywallConfig requirements resourceInfo
                     paymentRequired payload)
        (verifyHandler srv routeConfig paywallConfig requirements resourceInfo)
  end.

Definition processHTTPRequest (srv : x402HTTPResourceServer)
    (context : HTTPRequestContext) (paywallConfig : option PaywallConfig)
  : Prog HTTPProcessResult :=
  match getRouteConfig srv (path context) (method context) with
  | None => ret NoPaymentRequired
  | Some routeConfig => processGated srv routeConfig context paywallConfig
  end.

(** *** Settlement *)

Definition processSettlement (srv : x402HTTPResourceServer)
    (paymentPayload : PaymentPayload) (requirements : PaymentRequirements)
  : Prog ProcessSettleResultResponse :=
  try_catch
    (let! settleResponse :=
       call CallSettle
            (settlePayment (ResourceServer srv) paymentPayload requirements) in
     if negb (settle_success settleResponse) then
       ret (SettleFailure settleResponse
              (or_else (settle_errorReason settleResponse)
                       (js "Settlement failed")))
     else
       ret (SettleSuccess settleResponse
              (createSettlementHeaders settleResponse requirements)
              requirements))
    (fun error =>
       match error with
       | SettleErrorExn msg errorReason payer network transaction =>
           ret (SettleThrown (or_else errorReason msg) payer network transaction)
       | _ =>
           ret (SettleThrown (messageOr error (js "Settlement failed")) None
                             (requirements_network requirements) [])
       end).

End Server.

(** ** Predicates of the specification *)

(** No suffix of [s] is matched by [(.+?)\/+$]. *)
Fixpoint unmatched (s : jsstring) : Prop :=
  lazyGroupAt s = None /\
  match s with
  | [] => True
  | _ :: rest => unmatched rest
  end.

(** A declared pattern accepts a request when its path compiles to a
    matcher that accepts the normalized path of the request, and its verb is
    the star or equals the method of the request, both taken in upper
    case. *)
Definition accepted (pattern path method : jsstring) : Prop :=
  exists regex,
    RegExp.compile (regexSource (declaredPath pattern)) = Some regex /\
    RegExp.test regex (normalizePath path) = true /\
    (toUpperCase (declaredVerb pattern) = js "*" \/
     toUpperCase (declaredVerb pattern) = toUpperCase method).

Section Predicates.
Context `{Externals}.

(** Running [m] adds to the trace only calls that satisfy [P]. *)
Definition issues (P : Call -> Prop) {A} (m : M World A) : Prop :=
  forall st, exists calls,
    trace (snd (m st)) = trace st ++ calls /\ Forall P calls.

Definition notSettle (c : Call) : Prop := c <> CallSettle.




End Predicates.

(** ** A concrete server

    A small instance of the collaborators, used to run the definitions:
    the world counts the calls made to the authority, a proof header
    decodes when it starts with [proof:], a requirement is a pair of a
    scheme and a network, and the authority follows a script. *)

Module Demo.

Record Descriptor : Type := {
  offered : list (jsstring * Network);
  cause : option jsstring
}.

Record Settlement : Type := {
  succeeded : bool;
  failure : option jsstring
}.

Definition decodeHeader (h : jsstring) : Outcome jsstring :=
  if startsWith h (js "proof:") then Returned h
  else Thrown (ErrorExn (js "Invalid payment header format")).

Definition externals : Externals := {|
  World := nat;
  PaymentPayload := jsstring;
  PaymentRequirements := jsstring * Network;
  requirements_network := snd;
  PaymentRequired := Descriptor;
  paymentRequired_accepts := offered;
  SettleResponse := Settlement;
  settle_success := succeeded;
  settle_errorReason := failure;
  Price := N;
  SupportedKind := unit;
  Extensions := unit;
  Unknown := jsstring;
  x402Version := 2;
  decodePaymentSignatureHeader := decodeHeader;
  encodePaymentRequiredHeader := fun d => js "required:" ++ or_else (cause d) [];
  encodePaymentResponseHeader :=
    fun s r => js "settled:" ++ fst r ++ js "@" ++ snd r;
  optionalPaywall := None;
  basicPaywall := fun _ _ => js "<html>Payment Required</html>"
|}.

#[local] Existing Instance externals.

(** What the authority answers. *)
Record Script : Type := {
  built : Outcome (list (jsstring * Network));
  matched : Outcome (option (jsstring * Network));
  verdict : Outcome VerifyResponse;
  settled : Outcome Settlement
}.

Definition exactOnBase : jsstring * Network := (js "exact", js "eip155:8453").

(** The scheme [exact] is registered; the facilitator supports the
    network [eip155:8453]. *)
Definition authority (s : Script) : x402ResourceServer := {|
  rs_initialize := fun w => (Returned tt, S w);
  hasRegisteredScheme := fun _ _ sch => str_eqb sch (js "exact");
  getSupportedKind :=
    fun _ _ net _ => if str_eqb net (js "eip155:8453") then Some tt else None;
  buildPaymentRequirementsFromOptions := fun _ _ w => (built s, S w);
  enrichExtensions := fun e _ w => (Returned e, S w);
  createPaymentRequiredResponse :=
    fun reqs _ why _ w => (Returned {| offered := reqs; cause := why |}, S w);
  findMatchingRequirements := fun _ _ w => (matched s, S w);
  verifyPayment := fun _ _ w => (verdict s, S w);
  settlePayment := fun _ _ w => (settled s, S w)
|}.

Definition honest : Script := {|
  built := Returned [exactOnBase];
  matched := Returned (Some exactOnBase);
  verdict := Returned {| isValid := true; invalidReason := None |};
  settled := Returned {| succeeded := true; failure := None |}
|}.

Definition payOption (sch : string) (net : string) : PaymentOption := {|
  scheme := js sch;
  payTo := Static (js "0xPayee");
  price := Static 1000%N;
  network := js net;
  maxTimeoutSeconds := None;
  extra := None
|}.

Definition route (name : string) (a : Accepts) : RouteConfig := {|
  accepts := a;
  resource := None;
  description := Some (js name);
  mimeType := None;
  customPaywallHtml := None;
  unpaidResponseBody := None;
  extensions := None
|}.

Definition weather : RouteConfig :=
  route "weather" (One (payOption "exact" "eip155:8453")).

Definition premium : RouteConfig :=
  route "premium" (Many [payOption "exact" "eip155:8453"]).

Definition noOptions : RouteConfig := route "nothing to pay with" (Many []).

(** A request seen through its adapter. *)
Definition request (verb target : string) (proof : option jsstring)
    (accept agent : string) : HTTPRequestContext :=
  let a := {|
    getHeader := fun name =>
      if str_eqb name (js "payment-signature") then proof else None;
    getMethod := js verb;
    getPath := js target;
    getUrl := js "https://example.test" ++ js target;
    getAcceptHeader := js accept;
    getUserAgent := js agent
  |} in
  {| adapter := a; path := js target; method := js verb;
     paymentHeader := proof |}.

Definition start : Store nat := {| world := 0%nat; trace := [] |}.

(** A server over a table, when its patterns compile. *)
Definition server (s : Script) (routes : RoutesConfig)
  : option x402HTTPResourceServer :=
  new_x402HTTPResourceServer (authority s) routes.


(** Two routes that both accept a GET of [/api/7]. *)
Definition table : RoutesConfig :=
  RouteTable [(js "GET /api/*", weather); (js "/api/[id]", premium)].

(** The server of a table over a scripted authority (without routes
    when a pattern of the table does not compile). *)
Definition servingOn (s : Script) (routes : RoutesConfig)
  : x402HTTPResourceServer :=
  match server s routes with
  | Some srv => srv
  | None =>
      {| ResourceServer := authority s; compiledRoutes := [];
         routesConfig := routes; paywallProvider := None |}
  end.

Definition serving (s : Script) : x402HTTPResourceServer := servingOn s table.

(** A route that offers nothing. *)
Definition free : RoutesConfig := RouteTable [(js "/free", noOptions)].

Definition noMatch : Script := {|
  built := Returned [exactOnBase];
  matched := Returned None;
  verdict := Returned {| isValid := true; invalidReason := None |};
  settled := Returned {| succeeded := true; failure := None |}
|}.

Definition invalid : Script := {|
  built := Returned [exactOnBase];
  matched := Returned (Some exactOnBase);
  verdict := Returned {| isValid := false;
                         invalidReason := Some (js "insufficient_funds") |};
  settled := Returned {| succeeded := false; failure := None |}
|}.

(** The facilitator cannot be reached when the proof is matched. *)
Definition unreachable : Script := {|
  built := Returned [exactOnBase];
  matched := Thrown (ErrorExn (js "facilitator unreachable"));
  verdict := Thrown NotAnError;
  settled := Thrown (SettleErrorExn (js "settle failed")
                                    (Some (js "insufficient_funds"))
                                    (Some (js "0xPayer"))
                                    (js "eip155:8453") (js "0xabc"))
|}.

(** A dynamic price that cannot be resolved. *)
Definition broken : Script := {|
  built := Thrown (ErrorExn (js "price oracle down"));
  matched := Returned None;
  verdict := Thrown NotAnError;
  settled := Thrown (ErrorExn (js "connection reset"))
|}.

Definition paying : HTTPRequestContext :=
  request "GET" "/api/7" (Some (js "proof:abc")) "application/json" "curl/8.0".

Definition browsing : HTTPRequestContext :=
  request "get" "/api/7" None "text/html,application/xhtml+xml" "Mozilla/5.0".

Definition garbled : HTTPRequestContext :=
  request "GET" "/api/7" (Some (js "not a proof")) "*/*" "curl/8.0".

(** A table whose options are in turn fine, of an unknown scheme, on an
    unsupported network, and both. *)
Definition mixed : RoutesConfig :=
  RouteTable
    [(js "/ok", route "ok" (One (payOption "exact" "eip155:8453")));
     (js "/bad", route "bad" (Many [payOption "upto" "eip155:8453";
                                    payOption "exact" "solana:devnet";
                                    payOption "upto" "solana:devnet"]))].

(** The state and the descriptor once the requirements of a request are
    prepared. *)
Definition prepared (why : option jsstring) : Store nat :=
  {| world := 2%nat;
     trace := [CallBuildRequirements; CallCreatePaymentRequired why] |}.

Definition descriptor (why : option jsstring) : Descriptor :=
  {| offered := [exactOnBase]; cause := why |}.

End Demo.

(** ** The paths of route patterns, piece by piece

    A route path read as a list of pieces: a code unit that stands for
    itself, a star, or a bracketed parameter.  The pieces give the text of
    the pattern, the term of the regular expression that each piece
    becomes, and the paths that the pattern describes. *)

Inductive Piece : Type :=
| PLit (c : N)
| PWild
| PParam (name : jsstring).

(** The code units that stand for themselves: all but the star, the two
    brackets and the backslash. *)
Definition plainUnit (c : N) : bool :=
  negb (N.eqb c STAR || N.eqb c LBRACKET || N.eqb c RBRACKET || N.eqb c BACKSLASH).

(** The name of a parameter is not empty and holds no closing bracket. *)
Definition goodName (name : jsstring) : bool :=
  truthy name && forallb (fun c => negb (N.eqb c RBRACKET)) name.

Definition wellFormedPiece (p : Piece) : bool :=
  match p with
  | PLit c => plainUnit c
  | PWild => true
  | PParam name => goodName name
  end.

Definition pieceText (p : Piece) : jsstring :=
  match p with
  | PLit c => [c]
  | PWild => [STAR]
  | PParam name => LBRACKET :: name ++ [RBRACKET]
  end.

(** The text of the pattern made of the pieces. *)
Definition piecesText (ps : list Piece) : jsstring := flat_map pieceText ps.

Definition pieceTerm (p : Piece) : RegExp.Term :=
  match p with
  | PLit c => RegExp.TAtom (RegExp.AChar c) RegExp.Once
  | PWild => RegExp.TAtom RegExp.AAny RegExp.Star
  | PParam _ => RegExp.TAtom (RegExp.AClass true [SLASH]) RegExp.Plus
  end.

(** The regular expression of the pieces: anchored at both ends. *)
Definition piecesRegex (ps : list Piece) : RegExp.Regex :=
  RegExp.TStart :: map pieceTerm ps ++ [RegExp.TEnd].

(** The paths that the pieces describe: a literal stands for one code unit
    equal to it up to the case of ASCII letters, a star for any run of code
    units that are not line terminators, a parameter for a run, not empty,
    of code units that are not slashes. *)
Inductive Describes : list Piece -> jsstring -> Prop :=
| describes_nil : Describes [] []
| describes_lit c x ps s :
    upper_unit c = upper_unit x -> Describes ps s ->
    Describes (PLit c :: ps) (x :: s)
| describes_wild run ps s :
    Forall (fun x => isLineTerminator x = false) run -> Describes ps s ->
    Describes (PWild :: ps) (run ++ s)
| describes_param name run ps s :
    run <> [] -> Forall (fun x => x <> SLASH) run -> Describes ps s ->
    Describes (PParam name :: ps) (run ++ s).

(** Text made of ASCII code units, and pieces whose literals are ASCII.
    The upper case of this development is that of the ASCII letters, so a
    statement that compares texts up to case is made for ASCII text: there
    it is the comparison that the code makes.  A code unit from 128 on is
    then equal to no ASCII code unit, in upper case or not, here as in the
    code. *)
Definition ascii (s : jsstring) : bool := forallb (fun c => (c <? 128)%N) s.

Definition asciiPiece (p : Piece) : bool :=
  match p with
  | PLit c => (c <? 128)%N
  | PWild | PParam _ => true
  end.

(** A string without white space. *)
Definition noWhite (s : jsstring) : bool :=
  forallb (fun c => negb (isWhiteSpace c)) s.

(** The pieces of a literal text, and the pieces of [/v1/[id]/*]. *)
Definition literals (s : jsstring) : list Piece := map PLit s.

Definition versioned : list Piece :=
  literals (js "/v1/") ++ [PParam (js "id")] ++ literals (js "/") ++ [PWild].

(** The source and the tokens that a piece compiles to. *)

(** The source that a piece becomes. *)
Definition pieceSource (p : Piece) : jsstring :=
  match p with
  | PLit c => if isEscaped c || N.eqb c SLASH then [BACKSLASH; c] else [c]
  | PWild => js ".*?"
  | PParam _ => js "[^\/]+"
  end.

(** The tokens that a piece becomes. *)
Definition pieceTokens (p : Piece) : list RegExp.Token :=
  match p with
  | PLit c => [RegExp.TkAtom (RegExp.AChar c)]
  | PWild => [RegExp.TkAtom RegExp.AAny; RegExp.TkQuant RegExp.Star false;
              RegExp.TkQuant RegExp.Opt true]
  | PParam _ => [RegExp.TkAtom (RegExp.AClass true [SLASH]);
                 RegExp.TkQuant RegExp.Plus false]
  end.

(** A list of tokens that does not begin with a quantifier. *)
Definition atomFirst (ts : list RegExp.Token) : Prop :=
  match ts with
  | RegExp.TkQuant _ _ :: _ => False
  | _ => True
  end.


(** Two code units, and two strings, that differ at most in the case of
    ASCII letters. *)
Definition sameUnit (c d : N) : Prop := upper_unit c = upper_unit d.

Definition sameUpToCase (s t : jsstring) : Prop := Forall2 sameUnit s t.

Definition sameItem (i j : Item) : Prop :=
  match i, j with
  | Lit c, Lit d => sameUnit c d
  | Oct a, Oct b => a = b
  | _, _ => False
  end.

(** The same relation on results that may be absent. *)
Definition sameResult {A} (R : A -> A -> Prop) (x y : option A) : Prop :=
  match x, y with
  | Some a, Some b => R a b
  | None, None => True
  | _, _ => False
  end.

(** A code unit that is not an ASCII letter. *)
Definition notLetter (k : N) : bool :=
  negb (((65 <=? k)%N && (k <=? 90)%N) || ((97 <=? k)%N && (k <=? 122)%N)).

(** ** Predicates on calls and on responses *)

Section CallPredicates.
Context `{Externals}.

(** The calls that a request with a proof may make: the requirements are
    built, the extensions enriched, descriptors created, the proof matched
    and verified. *)
Definition paidCall (c : Call) : Prop :=
  match c with
  | CallBuildRequirements | CallEnrichExtensions | CallCreatePaymentRequired _
  | CallFindMatching | CallVerify => True
  | _ => False
  end.

(** The calls that a request without a proof may make; its descriptor is
    created with the reason [Payment required]. *)
Definition unpaidCall (c : Call) : Prop :=
  match c with
  | CallBuildRequirements | CallEnrichExtensions | CallUnpaidResponseBody
  | CallGenerateHtml => True
  | CallCreatePaymentRequired why => why = Some (js "Payment required")
  | _ => False
  end.

(** The response that an API client gets when no custom body is given:
    status 402, the descriptor in the [PAYMENT-REQUIRED] header, and the
    empty JSON object as body. *)
Definition jsonRefusal (resp : HTTPResponseInstructions) : Prop :=
  status resp = 402%N /\
  isHtml resp = None /\
  body resp = Some EmptyObject /\
  headers resp !! js "Content-Type" = Some (js "application/json") /\
  exists pr,
    headers resp !! js "PAYMENT-REQUIRED" = Some (encodePaymentRequiredHeader pr).

(** An option passes the validation of [initialize] in a world. *)
Definition optionValid (rs : x402ResourceServer) (w : World)
    (option : PaymentOption) : Prop :=
  hasRegisteredScheme rs w (network option) (scheme option) = true /\
  getSupportedKind rs w x402Version (network option) (scheme option) <> None.

(** The options of all the routes of a server. *)
Definition allOptions (srv : x402HTTPResourceServer) : list PaymentOption :=
  flat_map (fun entry : jsstring * RouteConfig =>
              normalizePaymentOptions (snd entry))
           (normalizedRoutes (routesConfig srv)).

(** *** What the authority and the route answer before a response

    The steps that [processHTTPRequest] takes before it looks at the
    proof, told by the answers of the collaborators rather than by the
    program: the extensions after enrichment, the calls made, and the
    custom body of the route. *)

(** The extensions that go in the descriptor: those of the route after
    [enrichExtensions] answered [enriched] from the world [w1], leaving
    [w2]; none, and no call, when the route has none. *)
Definition enrichment (rs : x402ResourceServer) (routeConfig : RouteConfig)
    (context : HTTPRequestContext) (w1 : World)
    (enriched : option Extensions) (w2 : World) : Prop :=
  match extensions routeConfig, enriched with
  | Some declared, Some answer =>
      enrichExtensions rs declared context w1 = (Returned answer, w2)
  | None, None => w2 = w1
  | _, _ => False
  end.

(** The calls made until the descriptor of a request is created. *)
Definition preparing (routeConfig : RouteConfig) (why : option jsstring)
  : list Call :=
  CallBuildRequirements ::
  match extensions routeConfig with
  | Some _ => [CallEnrichExtensions]
  | None => []
  end ++ [CallCreatePaymentRequired why].

(** The custom body of an unpaid request: what the generator of the
    route answered from the world [w1], leaving [w2]; none, and no call,
    when the route has no generator. *)
Definition generated (routeConfig : RouteConfig) (context : HTTPRequestContext)
    (w1 : World) (unpaid : option UnpaidResponseResult) (w2 : World) : Prop :=
  match unpaidResponseBody routeConfig, unpaid with
  | Some generator, Some answer => generator context w1 = (Returned answer, w2)
  | None, None => w2 = w1
  | _, _ => False
  end.

Definition generating (routeConfig : RouteConfig) : list Call :=
  match unpaidResponseBody routeConfig with
  | Some _ => [CallUnpaidResponseBody]
  | None => []
  end.

End CallPredicates.

(** ** More concrete requests and servers *)

Module Cases.
Import Demo.
#[local] Existing Instance Demo.externals.

(** A browser that sends a proof. *)
Definition browserPaying : HTTPRequestContext :=
  request "GET" "/api/7" (Some (js "proof:abc"))
          "text/html,application/xhtml+xml" "Mozilla/5.0".

(** A request for a path that no route of [table] gates. *)
Definition strolling : HTTPRequestContext :=
  request "GET" "/public/index.html" None "*/*" "curl/8.0".

(** A paywall provider whose template is missing. *)
Definition failingProvider : PaywallProvider :=
  {| generateHtml :=
       fun _ _ w => (Thrown (ErrorExn (js "template missing")), S w) |}.

(** The server of a table over any authority (without routes when a
    pattern of the table does not compile). *)
Definition servingWith (rs : x402ResourceServer) (routes : RoutesConfig)
  : x402HTTPResourceServer :=
  match new_x402HTTPResourceServer rs routes with
  | Some srv => srv
  | None =>
      {| ResourceServer := rs; compiledRoutes := [];
         routesConfig := routes; paywallProvider := None |}
  end.

(** An authority that finds no requirement for a proof and cannot make a
    descriptor that carries a reason. *)
Definition reticent : x402ResourceServer := {|
  rs_initialize := rs_initialize (authority noMatch);
  hasRegisteredScheme := hasRegisteredScheme (authority noMatch);
  getSupportedKind := getSupportedKind (authority noMatch);
  buildPaymentRequirementsFromOptions :=
    buildPaymentRequirementsFromOptions (authority noMatch);
  enrichExtensions := enrichExtensions (authority noMatch);
  createPaymentRequiredResponse :=
    fun reqs _ why _ w =>
      match why with
      | None => (Returned {| offered := reqs; cause := None |}, S w)
      | Some _ => (Thrown (ErrorExn (js "descriptor unavailable")), S w)
      end;
  findMatchingRequirements := findMatchingRequirements (authority noMatch);
  verifyPayment := verifyPayment (authority noMatch);
  settlePayment := settlePayment (authority noMatch)
|}.

(** A route with a custom body for unpaid requests, and an API client
    that asks for it without a proof. *)
Definition preview : UnpaidResponseResult :=
  {| contentType := js "text/plain";
     unpaid_body := js "The first lines are free." |}.

Definition teaser : RouteConfig := {|
  accepts := One (payOption "exact" "eip155:8453");
  resource := None;
  description := Some (js "teaser");
  mimeType := None;
  customPaywallHtml := None;
  unpaidResponseBody := Some (fun _ w => (Returned preview, S w));
  extensions := None
|}.

Definition teasers : RoutesConfig := RouteTable [(js "/teaser", teaser)].

Definition peeking : HTTPRequestContext :=
  request "GET" "/teaser" None "application/json" "curl/8.0".

End Cases.

(** ** The paywall handlers ([@x402/paywall])

    The handlers of the EVM and of the Solana networks, and the page of
    the EVM handler.  [String.prototype.replace] is modelled for a pattern
    that is a string: the first occurrence is replaced, and the
    replacement text is read for its [$] patterns, of which [$$], [$&],
    [$`] and [$'] have a meaning when there is no capture group. *)

Module Paywall.

Definition APOSTROPHE : N := 39.
Definition AMPERSAND  : N := 38.
Definition BACKTICK   : N := 96.
Definition LF  : N := 10.
Definition CR  : N := 13.
Definition TAB : N := 9.

(** [str.replace(/c/g, by)] for a pattern of one code unit and a
    replacement without [$]. *)
Definition replaceUnit (c : N) (by_ : jsstring) (str : jsstring) : jsstring :=
  flat_map (fun x => if N.eqb x c then by_ else [x]) str.

(** [escapeString] *)
Definition escapeString (str : jsstring) : jsstring :=
  replaceUnit TAB [BACKSLASH; 116%N]
    (replaceUnit CR [BACKSLASH; 114%N]
       (replaceUnit LF [BACKSLASH; 110%N]
          (replaceUnit APOSTROPHE [BACKSLASH; APOSTROPHE]
             (replaceUnit QUOTE [BACKSLASH; QUOTE]
                (replaceUnit BACKSLASH [BACKSLASH; BACKSLASH] str))))).

(** ECMAScript [GetSubstitution] without captures. *)
Fixpoint getSubstitution (matched before after template : jsstring) : jsstring :=
  match template with
  | [] => []
  | c :: rest =>
      if N.eqb c DOLLAR then
        match rest with
        | d :: rest' =>
            if N.eqb d DOLLAR then
              DOLLAR :: getSubstitution matched before after rest'
            else if N.eqb d AMPERSAND then
              matched ++ getSubstitution matched before after rest'
            else if N.eqb d BACKTICK then
              before ++ getSubstitution matched before after rest'
            else if N.eqb d APOSTROPHE then
              after ++ getSubstitution matched before after rest'
            else DOLLAR :: getSubstitution matched before after rest
        | [] => [DOLLAR]
        end
      else c :: getSubstitution matched before after rest
  end.

(** The text before and after the first occurrence of [pattern]. *)
Fixpoint splitAtFirst (str pattern : jsstring) : option (jsstring * jsstring) :=
  if startsWith str pattern then Some ([], skipn (length pattern) str)
  else
    match str with
    | [] => None
    | c :: rest =>
        match splitAtFirst rest pattern with
        | Some (before, after) => Some (c :: before, after)
        | None => None
        end
    end.

(** [str.replace(pattern, replacement)] for two strings. *)
Definition replaceFirst (str pattern replacement : jsstring) : jsstring :=
  match splitAtFirst str pattern with
  | Some (before, after) =>
      before ++ getSubstitution pattern before after replacement ++ after
  | None => str
  end.

Section Handlers.
Context `{Externals}.

(** [evmPaywall.supports] and [svmPaywall.supports] *)
Definition evmPaywall_supports (requirement : PaymentRequirements) : bool :=
  startsWith (requirements_network requirement) (js "eip155:").

Definition svmPaywall_supports (requirement : PaymentRequirements) : bool :=
  startsWith (requirements_network requirement) (js "solana:").

(** What the page takes from outside this file: the type of numbers with
    its conversion to a string, [JSON.stringify] on the descriptor, and
    the template that [getEvmTemplate] loads. *)
Variable Number : Type.
Variable numberToString : Number -> jsstring.
Variable stringify : PaymentRequired -> jsstring.
Variable getEvmTemplate : option jsstring.

(** [EvmPaywallOptions] *)
Record EvmPaywallOptions : Type := {
  opt_amount : Number;
  opt_paymentRequired : PaymentRequired;
  opt_currentUrl : jsstring;
  opt_testnet : bool;
  opt_appName : option jsstring;
  opt_appLogo : option jsstring
}.

Definition fallbackPage : jsstring :=
  js "<!DOCTYPE html><html><body><h1>EVM Paywall (run pnpm build:paywall to generate full template)</h1></body></html>".

Definition booleanToString (b : bool) : jsstring :=
  if b then js "true" else js "false".

(** The template literal [configScript], line by line. *)
Definition configScript (options : EvmPaywallOptions) : jsstring :=
  let logOnTestnet :=
    if opt_testnet options
    then js "console.log('EVM Payment required initialized:', window.x402);"
    else [] in
  joinLines
    [ [];
      js "  <script>";
      js "    window.x402 = {";
      js "      amount: " ++ numberToString (opt_amount options) ++ js ",";
      js "      paymentRequired: " ++ stringify (opt_paymentRequired options)
        ++ js ",";
      js "      testnet: " ++ booleanToString (opt_testnet options) ++ js ",";
      js "      currentUrl: " ++ quoted (escapeString (opt_currentUrl options))
        ++ js ",";
      js "      config: {";
      js "        chainConfig: {},";
      js "      },";
      js "      appName: "
        ++ quoted (escapeString (or_else (opt_appName options) [])) ++ js ",";
      js "      appLogo: "
        ++ quoted (escapeString (or_else (opt_appLogo options) [])) ++ js ",";
      js "    };";
      js "    " ++ logOnTestnet;
      js "  </script>" ].

(** The options with another URL, and the parts of the script around the
    URL. *)
Definition withCurrentUrl (options : EvmPaywallOptions) (url : jsstring)
  : EvmPaywallOptions :=
  {| opt_amount := opt_amount options;
     opt_paymentRequired := opt_paymentRequired options;
     opt_currentUrl := url;
     opt_testnet := opt_testnet options;
     opt_appName := opt_appName options;
     opt_appLogo := opt_appLogo options |}.

Definition scriptBeforeUrl (options : EvmPaywallOptions) : jsstring :=
  joinLines
    [ [];
      js "  <script>";
      js "    window.x402 = {";
      js "      amount: " ++ numberToString (opt_amount options) ++ js ",";
      js "      paymentRequired: " ++ stringify (opt_paymentRequired options)
        ++ js ",";
      js "      testnet: " ++ booleanToString (opt_testnet options) ++ js ",";
      js "      currentUrl: " ++ [QUOTE] ].

Definition scriptAfterUrl (options : EvmPaywallOptions) : jsstring :=
  let logOnTestnet :=
    if opt_testnet options
    then js "console.log('EVM Payment required initialized:', window.x402);"
    else [] in
  QUOTE :: js "," ++ LF ::
  joinLines
    [ js "      config: {";
      js "        chainConfig: {},";
      js "      },";
      js "      appName: "
        ++ quoted (escapeString (or_else (opt_appName options) [])) ++ js ",";
      js "      appLogo: "
        ++ quoted (escapeString (or_else (opt_appLogo options) [])) ++ js ",";
      js "    };";
      js "    " ++ logOnTestnet;
      js "  </script>" ].

(** [getEvmPaywallHtml] *)
Definition getEvmPaywallHtml (options : EvmPaywallOptions) : jsstring :=
  match getEvmTemplate with
  | Some template =>
      if truthy template then
        replaceFirst template (js "</head>")
                     (configScript options ++ LF :: js "</head>")
      else fallbackPage
  | None => fallbackPage
  end.

End Handlers.

(** What [escapeString] writes for one code unit. *)
Definition escapeUnit (c : N) : jsstring :=
  if N.eqb c BACKSLASH then [BACKSLASH; BACKSLASH]
  else if N.eqb c QUOTE then [BACKSLASH; QUOTE]
  else if N.eqb c APOSTROPHE then [BACKSLASH; APOSTROPHE]
  else if N.eqb c LF then [BACKSLASH; 110%N]
  else if N.eqb c CR then [BACKSLASH; 114%N]
  else if N.eqb c TAB then [BACKSLASH; 116%N]
  else [c].

(** The value of the body of a string literal between double quotes, for
    the escapes that [escapeString] writes; [None] when the text closes the
    literal, breaks the line, or holds another escape. *)
Fixpoint readLiteral (s : jsstring) : option jsstring :=
  match s with
  | [] => Some []
  | c :: rest =>
      if N.eqb c BACKSLASH then
        match rest with
        | d :: rest' =>
            let value :=
              if N.eqb d BACKSLASH then Some BACKSLASH
              else if N.eqb d QUOTE then Some QUOTE
              else if N.eqb d APOSTROPHE then Some APOSTROPHE
              else if N.eqb d 110%N then Some LF
              else if N.eqb d 114%N then Some CR
              else if N.eqb d 116%N then Some TAB
              else None in
            match value with
            | Some v => option_map (cons v) (readLiteral rest')
            | None => None
            end
        | [] => None
        end
      else if N.eqb c QUOTE || N.eqb c LF || N.eqb c CR then None
      else option_map (cons c) (readLiteral rest)
  end.

End Paywall.

(** A text without a dollar sign. *)
Definition noDollar (s : jsstring) : bool :=
  forallb (fun c => negb (N.eqb c DOLLAR)) s.

(** What [replace] writes for the patterns [$$] and [$&] of a replacement
    text, when the text replaced is [</head>]. *)
Definition shown (k : N) : jsstring :=
  if N.eqb k DOLLAR then [DOLLAR] else js "</head>".

(** * Properties *)

(** ** Facts about the string functions *)

Section PathFacts.







Lemma backslashToSlash_Forall (P : N -> Prop) (s : jsstring) :
  P SLASH -> Forall P s -> Forall P (backslashToSlash s).
Proof.
  intros HP. induction 1 as [|c s Hc _ IH]; simpl; [constructor|].
  constructor; [destruct (N.eqb c BACKSLASH)|]; assumption.
Qed.

Lemma backslashToSlash_clean (s : jsstring) :
  Forall (fun c => c <> BACKSLASH) (backslashToSlash s).
Proof.
  induction s as [|c s IH]; simpl; constructor; [|assumption].
  destruct (N.eqb_spec c BACKSLASH); [discriminate|assumption].
Qed.


Lemma collapseSlashes_Forall (P : N -> Prop) (s : jsstring) :
  Forall P s -> Forall P (collapseSlashes s).
Proof.
  induction 1 as [|c s Hc Hs IH]; simpl; [constructor|].
  destruct (N.eqb c SLASH); [|constructor; assumption].
  destruct s as [|c' s']; [constructor; [assumption|constructor]|].
  destruct (N.eqb c' SLASH); [assumption|constructor; assumption].
Qed.

Lemma collapseSlashes_cons (c : N) (rest : jsstring) :
  collapseSlashes (c :: rest) =
  if N.eqb c SLASH then
    match rest with
    | c' :: _ => if N.eqb c' SLASH then collapseSlashes rest
                 else c :: collapseSlashes rest
    | [] => [c]
    end
  else c :: collapseSlashes rest.
Proof. reflexivity. Qed.

Lemma collapseSlashes_head (c : N) (rest : jsstring) :
  exists rest', collapseSlashes (c :: rest) = c :: rest'.
Proof.
  revert c. induction rest as [|c' rest IH]; intros c;
    rewrite collapseSlashes_cons.
  - destruct (N.eqb c SLASH); eauto.
  - destruct (N.eqb_spec c SLASH) as [->|_]; [|eauto].
    destruct (N.eqb_spec c' SLASH) as [->|_]; [|eauto].
    apply IH.
Qed.

Lemma collapseSlashes_idem (s : jsstring) :
  collapseSlashes (collapseSlashes s) = collapseSlashes s.
Proof.
  induction s as [|c s IH]; [reflexivity|].
  rewrite (collapseSlashes_cons c s).
  destruct (N.eqb_spec c SLASH) as [->|Hc].
  - destruct s as [|c' s']; [reflexivity|].
    destruct (N.eqb_spec c' SLASH) as [->|Hc']; [exact IH|].
    destruct (collapseSlashes_head c' s') as [r Hr].
    rewrite Hr in IH |- *.
    rewrite (collapseSlashes_cons SLASH (c' :: r)).
    change (N.eqb SLASH SLASH) with true. cbn iota.
    destruct (N.eqb_spec c' SLASH); [contradiction|]. now rewrite IH.
  - rewrite (collapseSlashes_cons c (collapseSlashes s)).
    destruct (N.eqb_spec c SLASH); [contradiction|]. now rewrite IH.
Qed.

Lemma collapseSlashes_length (s : jsstring) :
  (length (collapseSlashes s) <= length s)%nat.
Proof.
  induction s as [|c s IH]; simpl; [lia|].
  destruct (N.eqb c SLASH); simpl; [|lia].
  destruct s as [|c' s']; simpl in *; [lia|].
  destruct (N.eqb c' SLASH); simpl in *; lia.
Qed.




Lemma unmatched_head (s : jsstring) : unmatched s -> lazyGroupAt s = None.
Proof. destruct s; intros [E _]; exact E. Qed.

Lemma unmatched_strip (s : jsstring) :
  unmatched s -> stripTrailingSlashes s = s.
Proof.
  induction s as [|c s IH]; [reflexivity|].
  intros [E U]. cbn [stripTrailingSlashes]. rewrite E. now rewrite (IH U).
Qed.

Lemma lazyGroupAt_nonempty (s : jsstring) : lazyGroupAt s <> Some [].
Proof.
  destruct s as [|c s]; simpl; [discriminate|].
  destruct (isLineTerminator c); [discriminate|].
  destruct (slashesToEnd s); [discriminate|].
  destruct (lazyGroupAt s); discriminate.
Qed.

(** A group made of slashes only is a whole run of slashes to the end. *)
Lemma lazyGroupAt_slashes (s g : jsstring) :
  lazyGroupAt s = Some g -> slashesToEnd g = true -> slashesToEnd s = true.
Proof.
  revert g. induction s as [|c s IH]; intros g; [discriminate|].
  cbn [lazyGroupAt slashesToEnd].
  destruct (isLineTerminator c); [discriminate|].
  destruct (slashesToEnd s) eqn:SE.
  - intros [= <-]. cbn [slashesToEnd]. intros ->%andb_prop%proj1.
    destruct s; [discriminate|reflexivity].
  - destruct (lazyGroupAt s) as [g'|] eqn:E; simpl; [|discriminate].
    intros [= <-]. cbn [slashesToEnd]. intros [_ Hg]%andb_prop.
    destruct g' as [|x g'']; [now destruct (lazyGroupAt_nonempty _ E)|].
    specialize (IH _ eq_refl Hg). discriminate.
Qed.

Lemma lazyGroupAt_unmatched (s g : jsstring) :
  lazyGroupAt s = Some g -> unmatched g.
Proof.
  revert g. induction s as [|c s IH]; intros g; [discriminate|].
  cbn [lazyGroupAt].
  destruct (isLineTerminator c) eqn:LT; [discriminate|].
  destruct (slashesToEnd s) eqn:SE.
  - intros [= <-]. simpl. rewrite LT. simpl. repeat split.
  - destruct (lazyGroupAt s) as [g'|] eqn:E; simpl; [|discriminate].
    intros [= <-]. specialize (IH g' eq_refl).
    split; [|exact IH]. cbn [lazyGroupAt]. rewrite LT.
    destruct (slashesToEnd g') eqn:SE'.
    + now rewrite (lazyGroupAt_slashes _ E SE') in SE.
    + now rewrite (unmatched_head _ IH).
Qed.

Lemma stripTrailingSlashes_nil (s : jsstring) :
  stripTrailingSlashes s = [] -> s = [].
Proof.
  destruct s as [|c s]; [reflexivity|]. cbn [stripTrailingSlashes].
  destruct (lazyGroupAt (c :: s)) as [g|] eqn:E; [|discriminate].
  intros ->. simpl in E. destruct (isLineTerminator c); [discriminate|].
  destruct (slashesToEnd s); [discriminate|].
  destruct (lazyGroupAt s); discriminate.
Qed.

Lemma slashesToEnd_strip (s : jsstring) :
  lazyGroupAt s = None ->
  slashesToEnd (stripTrailingSlashes s) = slashesToEnd s.
Proof.
  induction s as [|c s IH]; [reflexivity|].
  intros E. cbn [stripTrailingSlashes]. rewrite E.
  cbn [slashesToEnd]. destruct (N.eqb_spec c SLASH) as [->|]; [|reflexivity].
  simpl in E. change (isLineTerminator SLASH) with false in E. cbn iota in E.
  destruct (slashesToEnd s) eqn:SE; [discriminate|].
  destruct (lazyGroupAt s) eqn:L; [discriminate|].
  simpl. destruct s as [|c' s']; [reflexivity|].
  rewrite (IH eq_refl).
  destruct (stripTrailingSlashes (c' :: s')) eqn:S; [|reflexivity].
  apply stripTrailingSlashes_nil in S. discriminate.
Qed.

Lemma stripTrailingSlashes_unmatched (s : jsstring) :
  unmatched (stripTrailingSlashes s).
Proof.
  induction s as [|c s IH]; [now split|].
  cbn [stripTrailingSlashes].
  destruct (lazyGroupAt (c :: s)) as [g|] eqn:E.
  - exact (lazyGroupAt_unmatched _ E).
  - split; [|exact IH]. simpl in E |- *.
    destruct (isLineTerminator c); [reflexivity|].
    destruct (slashesToEnd s) eqn:SE; [discriminate|].
    destruct (lazyGroupAt s) eqn:L; [discriminate|].
    rewrite (slashesToEnd_strip _ L), SE.
    now rewrite (unmatched_head _ IH).
Qed.

Lemma stripTrailingSlashes_idem (s : jsstring) :
  stripTrailingSlashes (stripTrailingSlashes s) = stripTrailingSlashes s.
Proof. apply unmatched_strip, stripTrailingSlashes_unmatched. Qed.


End PathFacts.

(** ** Path normalization (claim C8) *)




(** ** Route lookup (claims C1, C9) and payment options (claim C10) *)

Lemma str_eqb_eq (a b : jsstring) : str_eqb a b = true <-> a = b.
Proof.
  revert b. induction a as [|x a IH]; intros [|y b]; simpl; split;
    try discriminate; try reflexivity.
  - intros [Hx Ha]%andb_prop. apply N.eqb_eq in Hx. apply IH in Ha. congruence.
  - intros [= -> ->]. rewrite N.eqb_refl. now apply IH.
Qed.

Section RouteFacts.
Context `{Externals}.

Lemma parseRoutePattern_declared (pattern : jsstring) :
  parseRoutePattern pattern
  = option_map (fun regex => (toUpperCase (declaredVerb pattern), regex))
               (RegExp.compile (regexSource (declaredPath pattern))).
Proof.
  unfold parseRoutePattern, declaredVerb, declaredPath.
  destruct (includes pattern (js " ")); [destruct (splitVerbPath pattern)|];
    simpl; now destruct (RegExp.compile _).
Qed.

(** The compiled routes are the declared ones, one for one and in order. *)
Lemma compileRoutes_Forall2 (entries : list (jsstring * RouteConfig))
    (compiled : list CompiledRoute) :
  compileRoutes entries = Some compiled ->
  Forall2 (fun e r => parseRoutePattern (fst e) = Some (verb r, regex r)
                      /\ config r = snd e) entries compiled.
Proof.
  revert compiled. induction entries as [|[pattern cfg] rest IH];
    intros compiled; simpl.
  - intros [= <-]. constructor.
  - destruct (parseRoutePattern pattern) as [[v rx]|] eqn:E; [|discriminate].
    destruct (compileRoutes rest) as [cs|]; [|discriminate].
    intros [= <-]. constructor; [now split|]. now apply IH.
Qed.

Lemma routeAccepts_accepted (e : jsstring * RouteConfig) (r : CompiledRoute)
    (path method : jsstring) :
  parseRoutePattern (fst e) = Some (verb r, regex r) ->
  routeAccepts (normalizePath path) (toUpperCase method) r = true
  <-> accepted (fst e) path method.
Proof.
  rewrite parseRoutePattern_declared.
  destruct (RegExp.compile _) as [rx|] eqn:C; [|discriminate].
  intros [= Hv Hr]. unfold routeAccepts, accepted.
  rewrite C, <- Hv, <- Hr. split.
  - intros [Ht Ho]%andb_prop. exists rx. repeat split; [exact Ht|].
    apply orb_prop in Ho as [Ho|Ho]; apply str_eqb_eq in Ho; auto.
  - intros (rx' & [= <-] & Ht & Ho). rewrite Ht. simpl. apply orb_true_intro.
    destruct Ho as [Ho|Ho]; [left|right]; now apply str_eqb_eq.
Qed.

(** [find] over the compiled routes picks the first declared pattern that
    accepts the request. *)
Lemma find_first_accepted (entries : list (jsstring * RouteConfig))
    (compiled : list CompiledRoute) (path method : jsstring) :
  Forall2 (fun e r => parseRoutePattern (fst e) = Some (verb r, regex r)
                      /\ config r = snd e) entries compiled ->
  match List.find (routeAccepts (normalizePath path) (toUpperCase method))
                  compiled with
  | Some r =>
      exists before pattern after,
        entries = before ++ (pattern, config r) :: after /\
        accepted pattern path method /\
        Forall (fun e => ~ accepted (fst e) path method) before
  | None => Forall (fun e => ~ accepted (fst e) path method) entries
  end.
Proof.
  induction 1 as [|e r entries compiled [E C] _ IH]; simpl; [constructor|].
  pose proof (routeAccepts_accepted e r path method E) as A.
  destruct (routeAccepts _ _ r) eqn:R.
  - exists [], (fst e), entries. rewrite C. destruct e; simpl.
    repeat split; [now apply A|constructor].
  - assert (N : ~ accepted (fst e) path method)
      by (intros X; apply A in X; discriminate).
    destruct (List.find _ compiled) as [r'|].
    + destruct IH as (before & pattern & after & -> & Hp & Hb).
      exists (e :: before), pattern, after.
      repeat split; [exact Hp|now constructor].
    + now constructor.
Qed.

(** C1: the config used for a request is that of the first declared
    route, in the order of the table, whose pattern accepts the normalized
    path and whose verb is the star or the method in upper case; with two
    patterns that accept, the earlier one wins; when no route accepts,
    [processHTTPRequest] returns [no-payment-required] and calls no
    collaborator. *)
Theorem first_match_wins (rs : x402ResourceServer) (routes : RoutesConfig)
    (srv : x402HTTPResourceServer) (context : HTTPRequestContext)
    (paywallConfig : option PaywallConfig) :
  new_x402HTTPResourceServer rs routes = Some srv ->
  (exists before pattern cfg after,
      normalizedRoutes routes = before ++ (pattern, cfg) :: after /\
      accepted pattern (path context) (method context) /\
      Forall (fun e => ~ accepted (fst e) (path context) (method context))
             before /\
      getRouteConfig srv (path context) (method context) = Some cfg /\
      processHTTPRequest srv context paywallConfig
      = processGated srv cfg context paywallConfig)
  \/
  (Forall (fun e => ~ accepted (fst e) (path context) (method context))
          (normalizedRoutes routes) /\
   getRouteConfig srv (path context) (method context) = None /\
   forall st, processHTTPRequest srv context paywallConfig st
              = (Returned NoPaymentRequired, st)).
Proof.
  unfold new_x402HTTPResourceServer.
  destruct (compileRoutes (normalizedRoutes routes)) as [compiled|] eqn:E;
    [|discriminate].
  intros [= <-]. apply compileRoutes_Forall2 in E.
  pose proof (find_first_accepted (path context) (method context) E) as F.
  unfold processHTTPRequest, getRouteConfig. simpl.
  destruct (List.find _ compiled) as [r|]; simpl.
  - left. destruct F as (before & pattern & after & -> & Hp & Hb).
    exists before, pattern, (config r), after. repeat split; assumption.
  - right. repeat split. exact F.
Qed.

(** C9: the pattern [GET /api/*] accepts a GET of [/api/anything/nested]
    and refuses a POST of [/api/anything]; the pattern [/items/[id]]
    accepts [/items/42] and refuses [/items/42/sub], whatever the
    method. *)
Theorem pattern_semantics (rs : x402ResourceServer) (cfg : RouteConfig) :
  (exists srv,
      new_x402HTTPResourceServer rs (RouteTable [(js "GET /api/*", cfg)])
      = Some srv /\
      getRouteConfig srv (js "/api/anything/nested") (js "GET") = Some cfg /\
      getRouteConfig srv (js "/api/anything") (js "POST") = None)
  /\
  (exists srv,
      new_x402HTTPResourceServer rs (RouteTable [(js "/items/[id]", cfg)])
      = Some srv /\
      (forall method, getRouteConfig srv (js "/items/42") method = Some cfg) /\
      (forall method, getRouteConfig srv (js "/items/42/sub") method = None)).
Proof.
  split; eexists; (split; [vm_compute; reflexivity|]); split;
    intros; vm_compute; reflexivity.
Qed.

(** C10, amended: [normalizePaymentOptions] returns the array of
    [accepts] as it is, in its order, and the one-element list of a single
    option; the result is empty exactly when [accepts] is the empty
    array.  Nothing rejects such a route: startup validation reports no
    error for it. *)
Theorem normalizePaymentOptions_shape (routeConfig : RouteConfig) :
  (forall options, accepts routeConfig = Many options ->
                   normalizePaymentOptions routeConfig = options) /\
  (forall option, accepts routeConfig = One option ->
                  normalizePaymentOptions routeConfig = [option]) /\
  (normalizePaymentOptions routeConfig = [] <-> accepts routeConfig = Many []) /\
  (forall rs srv w pattern,
      accepts routeConfig = Many [] ->
      new_x402HTTPResourceServer rs (RouteTable [(pattern, routeConfig)])
      = Some srv ->
      validateRouteConfiguration srv w = []).
Proof.
  unfold normalizePaymentOptions. repeat split.
  - now intros options ->.
  - now intros option ->.
  - destruct (accepts routeConfig); [discriminate|now intros ->].
  - now intros ->.
  - intros rs srv w pattern E. unfold new_x402HTTPResourceServer.
    destruct (compileRoutes _); [|discriminate]. intros [= <-].
    unfold validateRouteConfiguration, normalizePaymentOptions. simpl.
    now rewrite E.
Qed.

End RouteFacts.

(** ** Startup validation (claim C7) *)

Section ValidationFacts.
Context `{Externals}.

(** C7, amended: when the underlying resource server has initialized, a
    call of [initialize] validates every option of every route, against
    the world that initialization left, without stopping at a failure.  The
    registration of the scheme is checked for every option, and the support
    of the facilitator for every option whose scheme is registered: the
    list of errors holds a [missing_scheme] error for every option whose
    scheme is not registered and a [missing_facilitator] error for every
    option whose scheme is registered and that the facilitator does not
    support, of every route, and nothing else.  A list that is not empty is
    raised as one [RouteConfigurationError] that carries all of it; an
    empty one raises nothing. *)
Theorem initialize_reports_all (srv : x402HTTPResourceServer)
    (st : Store World) (w : World) :
  rs_initialize (ResourceServer srv) (world st) = (Returned tt, w) ->
  let rs := ResourceServer srv in
  let errors := validateRouteConfiguration srv w in
  let st' := {| world := w; trace := trace st ++ [CallInitialize] |} in
  (forall pattern cfg option,
      In (pattern, cfg) (normalizedRoutes (routesConfig srv)) ->
      In option (normalizePaymentOptions cfg) ->
      (hasRegisteredScheme rs w (network option) (scheme option) = false ->
       In (missingSchemeError pattern option) errors) /\
      (hasRegisteredScheme rs w (network option) (scheme option) = true ->
       getSupportedKind rs w x402Version (network option) (scheme option) = None ->
       In (missingFacilitatorError pattern option) errors)) /\
  (forall e, In e errors ->
      exists pattern cfg option,
        In (pattern, cfg) (normalizedRoutes (routesConfig srv)) /\
        In option (normalizePaymentOptions cfg) /\
        ((e = missingSchemeError pattern option /\
          hasRegisteredScheme rs w (network option) (scheme option) = false)
         \/
         (e = missingFacilitatorError pattern option /\
          hasRegisteredScheme rs w (network option) (scheme option) = true /\
          getSupportedKind rs w x402Version (network option) (scheme option)
          = None))) /\
  initialize srv st =
    match errors with
    | [] => (Returned tt, st')
    | _ :: _ => (Thrown (newRouteConfigurationError errors), st')
    end.
Proof.
  intros Hinit rs errors st'. repeat split.
  - intros Hreg. apply in_flat_map. exists (pattern, cfg). split; [assumption|].
    apply in_flat_map. exists option. split; [assumption|].
    unfold validateOption. fold rs. rewrite Hreg. now left.
  - intros Hreg Hsup. apply in_flat_map. exists (pattern, cfg).
    split; [assumption|]. apply in_flat_map. exists option.
    split; [assumption|]. unfold validateOption. fold rs.
    rewrite Hreg, Hsup. now left.
  - intros e He. apply in_flat_map in He as ([pattern cfg] & Hr & He).
    apply in_flat_map in He as (option & Ho & He).
    exists pattern, cfg, option. repeat split; try assumption.
    unfold validateOption in He. fold rs in He. simpl in He.
    destruct (hasRegisteredScheme rs w _ _) eqn:Hreg; simpl in He.
    + destruct (getSupportedKind rs w _ _ _) eqn:Hsup;
        [destruct He|]. destruct He as [<-|[]]. right. now repeat split.
    + destruct He as [<-|[]]. left. now split.
  - unfold initialize, bind, call. rewrite Hinit.
    fold st'. change (validateRouteConfiguration srv (world st')) with errors.
    destruct errors; reflexivity.
Qed.

End ValidationFacts.

(** ** The steps before the response *)

Section StepFacts.
Context `{Externals}.

(** When the authority builds the requirements, enriches the extensions
    and creates the descriptor, [prepareRequirements] returns that list
    and that descriptor. *)
Lemma prepareRequirements_runs (srv : x402HTTPResourceServer)
    (routeConfig : RouteConfig) (context : HTTPRequestContext)
    (payload : option PaymentPayload) (st : Store World)
    (reqs : list PaymentRequirements) (enriched : option Extensions)
    (pr : PaymentRequired) (w1 w2 w3 : World) :
  let rs := ResourceServer srv in
  let why := match payload with
             | None => Some (js "Payment required")
             | Some _ => None
             end in
  buildPaymentRequirementsFromOptions
    rs (normalizePaymentOptions routeConfig) context (world st)
  = (Returned reqs, w1) ->
  enrichment rs routeConfig context w1 enriched w2 ->
  createPaymentRequiredResponse rs reqs (resourceInfoOf routeConfig context)
                                why enriched w2
  = (Returned pr, w3) ->
  prepareRequirements srv routeConfig context payload st
  = (Returned (reqs, pr),
     {| world := w3; trace := trace st ++ preparing routeConfig why |}).
Proof.
  intros rs why B E D. unfold prepareRequirements, preparing, bind, call, ret.
  fold rs. rewrite B. cbn [world trace]. unfold enrichment in E.
  destruct (extensions routeConfig) as [declared|], enriched as [answer|];
    try contradiction.
  - cbn [world trace]. rewrite E. cbn [world trace]. fold why. rewrite D.
    cbn [world trace app]. now rewrite <- !app_assoc.
  - subst w2. cbn [world trace]. fold why. rewrite D. cbn [world trace app].
    now rewrite <- !app_assoc.
Qed.

(** When the generator of the route answers, [resolveUnpaidBody] returns
    its answer. *)
Lemma resolveUnpaidBody_runs (routeConfig : RouteConfig)
    (context : HTTPRequestContext) (st : Store World)
    (unpaid : option UnpaidResponseResult) (w : World) :
  generated routeConfig context (world st) unpaid w ->
  resolveUnpaidBody routeConfig context st
  = (Returned unpaid,
     {| world := w; trace := trace st ++ generating routeConfig |}).
Proof.
  unfold generated, generating, resolveUnpaidBody, bind, call, ret.
  destruct (unpaidResponseBody routeConfig) as [generator|],
           unpaid as [answer|]; try contradiction.
  - now intros ->.
  - intros ->. rewrite app_nil_r. now destruct st.
Qed.



End StepFacts.

(** ** Response composition (claim C6) and settlement (claim C5) *)

Lemma startsWith_spec (s p : jsstring) :
  startsWith s p = true <-> exists b, s = p ++ b.
Proof.
  revert s. induction p as [|x p IH]; intros [|y s]; simpl.
  - split; [now exists []|reflexivity].
  - split; [now exists (y :: s)|reflexivity].
  - split; [discriminate|intros [b [=]]].
  - rewrite andb_true_iff, N.eqb_eq, IH. split.
    + intros [-> [b ->]]. now exists b.
    + intros [b [= -> ->]]. split; [reflexivity|now exists b].
Qed.

Lemma includes_spec (s p : jsstring) :
  includes s p = true <-> exists a b, s = a ++ p ++ b.
Proof.
  induction s as [|c s IH].
  - cbn [includes]. rewrite orb_false_r, startsWith_spec. split.
    + intros [b E]. now exists [], b.
    + intros (a & b & E). destruct a; [now exists b|discriminate].
  - cbn [includes]. rewrite orb_true_iff, startsWith_spec, IH. split.
    + intros [[b E]|(a & b & E)].
      * now exists [], b.
      * exists (c :: a), b. now rewrite E.
    + intros ([|x a] & b & E).
      * left. now exists b.
      * right. injection E as -> ->. now exists a, b.
Qed.

Section ResponseFacts.
Context `{Externals}.

Lemma generatePaywallHTML_custom (srv : x402HTTPResourceServer)
    (pr : PaymentRequired) (pc : option PaywallConfig) (html : jsstring)
    (st : Store World) :
  truthy html = true ->
  generatePaywallHTML srv pr pc (Some html) st = (Returned html, st).
Proof. intros T. unfold generatePaywallHTML. now rewrite T. Qed.

Lemma generatePaywallHTML_fallback (srv : x402HTTPResourceServer)
    (pr : PaymentRequired) (pc : option PaywallConfig)
    (customHtml : option jsstring) (st : Store World) :
  paywallProvider srv = None ->
  exists html, generatePaywallHTML srv pr pc customHtml st = (Returned html, st).
Proof.
  intros P. unfold generatePaywallHTML. rewrite P.
  destruct customHtml as [h|]; [destruct (truthy h); [now exists h|]|];
    destruct optionalPaywall as [f|]; try destruct (f pr pc);
    eexists; reflexivity.
Qed.

(** The response for a client that is not a browser; it changes no state. *)
Lemma createHTTPResponse_api (srv : x402HTTPResourceServer)
    (pr : PaymentRequired) (pc : option PaywallConfig)
    (customHtml : option jsstring) (unpaid : option UnpaidResponseResult)
    (st : Store World) :
  exists resp,
    createHTTPResponse srv pr false pc customHtml unpaid st = (Returned resp, st) /\
    status resp = 402%N /\
    headers resp !! js "PAYMENT-REQUIRED" = Some (encodePaymentRequiredHeader pr) /\
    headers resp !! js "Content-Type"
    = Some (match unpaid with
            | Some u => contentType u
            | None => js "application/json"
            end) /\
    body resp = Some (match unpaid with
                      | Some u => UnpaidBody (unpaid_body u)
                      | None => EmptyObject
                      end) /\
    isHtml resp = None.
Proof.
  eexists. split; [reflexivity|]. cbn [status headers body isHtml].
  unfold createHTTPPaymentRequiredResponse. repeat split.
Qed.

(** C6: a request is taken for a browser exactly when its accept header
    contains [text/html] and its user agent contains [Mozilla].  For a
    browser the response has status 402, content type [text/html] and the
    paywall page as its body: the custom page of the route when there is
    one, and always some page when no provider is registered.  For any
    other client the response has status 402, the header
    [PAYMENT-REQUIRED] with the encoded descriptor, and the content type
    and body of the unpaid-response result when there is one, else
    [application/json] and the empty object.

    And that is the response of a request without a proof on a gated
    route: the descriptor is the one that the authority creates, with the
    reason [Payment required], from the requirements it built for the
    options of the route; the unpaid-response result is the answer of the
    generator of the route, called with the request context, when the
    route has one; the page is made for that descriptor, with the custom
    page of the route. *)
Theorem unpaid_response_shape (srv : x402HTTPResourceServer)
    (client : HTTPAdapter) (pr : PaymentRequired)
    (pc : option PaywallConfig) (customHtml : option jsstring)
    (unpaid : option UnpaidResponseResult) (st : Store World) :
  (isWebBrowser client = true <->
     (exists a b, getAcceptHeader client = a ++ js "text/html" ++ b) /\
     (exists a b, getUserAgent client = a ++ js "Mozilla" ++ b)) /\
  (isWebBrowser client = true ->
     (forall html st',
         generatePaywallHTML srv pr pc customHtml st = (Returned html, st') ->
         createHTTPResponse srv pr (isWebBrowser client) pc customHtml unpaid st
         = (Returned {| status := 402;
                        headers := {[ js "Content-Type" := js "text/html" ]};
                        body := Some (HtmlBody html);
                        isHtml := Some true |}, st')) /\
     (forall html, customHtml = Some html -> truthy html = true ->
         generatePaywallHTML srv pr pc customHtml st = (Returned html, st)) /\
     (paywallProvider srv = None ->
         exists html,
           generatePaywallHTML srv pr pc customHtml st = (Returned html, st))) /\
  (isWebBrowser client = false ->
     exists resp,
       createHTTPResponse srv pr (isWebBrowser client) pc customHtml unpaid st
       = (Returned resp, st) /\
       status resp = 402%N /\
       headers resp !! js "PAYMENT-REQUIRED"
       = Some (encodePaymentRequiredHeader pr) /\
       headers resp !! js "Content-Type"
       = Some (match unpaid with
               | Some u => contentType u
               | None => js "application/json"
               end) /\
       body resp = Some (match unpaid with
                         | Some u => UnpaidBody (unpaid_body u)
                         | None => EmptyObject
                         end) /\
       isHtml resp = None) /\
  (forall routeConfig context reqs enriched w1 w2 descriptor w3 w4,
      getRouteConfig srv (path context) (method context) = Some routeConfig ->
      extractPayment (adapter context) = None ->
      let rs := ResourceServer srv in
      let why := Some (js "Payment required") in
      buildPaymentRequirementsFromOptions
        rs (normalizePaymentOptions routeConfig) context (world st)
      = (Returned reqs, w1) ->
      enrichment rs routeConfig context w1 enriched w2 ->
      createPaymentRequiredResponse rs reqs (resourceInfoOf routeConfig context)
                                    why enriched w2
      = (Returned descriptor, w3) ->
      generated routeConfig context w3 unpaid w4 ->
      let st2 :=
        {| world := w4;
           trace := trace st ++ preparing routeConfig why
                             ++ generating routeConfig |} in
      (isWebBrowser (adapter context) = false ->
         exists resp,
           processHTTPRequest srv context pc st
           = (Returned (PaymentError resp), st2) /\
           status resp = 402%N /\
           headers resp !! js "PAYMENT-REQUIRED"
           = Some (encodePaymentRequiredHeader descriptor) /\
           headers resp !! js "Content-Type"
           = Some (match unpaid with
                   | Some u => contentType u
                   | None => js "application/json"
                   end) /\
           body resp = Some (match unpaid with
                             | Some u => UnpaidBody (unpaid_body u)
                             | None => EmptyObject
                             end) /\
           isHtml resp = None) /\
      (isWebBrowser (adapter context) = true ->
         forall html st3,
           generatePaywallHTML srv descriptor pc (customPaywallHtml routeConfig)
                               st2
           = (Returned html, st3) ->
           processHTTPRequest srv context pc st
           = (Returned
                (PaymentError
                   {| status := 402;
                      headers := {[ js "Content-Type" := js "text/html" ]};
                      body := Some (HtmlBody html);
                      isHtml := Some true |}), st3))).
Proof.
  split; [|split; [|split]].
  - unfold isWebBrowser. now rewrite andb_true_iff, !includes_spec.
  - intros ->. repeat split.
    + intros html st' G. unfold createHTTPResponse, bind. now rewrite G.
    + intros html -> T. now apply generatePaywallHTML_custom.
    + now apply generatePaywallHTML_fallback.
  - intros ->. apply createHTTPResponse_api.
  - intros routeConfig context reqs enriched w1 w2 descriptor w3 w4 R E rs why
           B En D G st2.
    assert (P : processHTTPRequest srv context pc st
                = (let! response :=
                     createHTTPResponse srv descriptor
                       (isWebBrowser (adapter context)) pc
                       (customPaywallHtml routeConfig) unpaid in
                   ret (PaymentError response)) st2).
    { unfold processHTTPRequest, processGated. rewrite R, E.
      unfold bind at 1.
      rewrite (@prepareRequirements_runs _ srv routeConfig context None st
                 reqs enriched descriptor w1 w2 w3 B En D).
      cbn [fst snd]. unfold bind at 1. fold why.
      rewrite (@resolveUnpaidBody_runs _ routeConfig context
                 {| world := w3;
                    trace := trace st ++ preparing routeConfig why |}
                 unpaid w4 G).
      cbn [trace]. unfold st2. now rewrite <- app_assoc. }
    rewrite P. split.
    + intros ->. unfold bind, ret.
      destruct (createHTTPResponse_api srv descriptor pc
                  (customPaywallHtml routeConfig) unpaid st2)
        as (resp & C & S).
      rewrite C. now exists resp.
    + intros -> html st3 Gp. unfold createHTTPResponse, bind, ret.
      now rewrite Gp.
Qed.

(** C5: [processSettlement] always returns.  When the authority reports
    success, the result is a success with the requirement it was given and
    with the header [PAYMENT-RESPONSE], the encoding of the settle
    response together with that requirement.  When the authority reports
    a failure, the result is a failure with the authority's reason, or
    [Settlement failed] when it gave none.  When the authority throws a
    [SettleError], the failure keeps its reason (its message when it has
    none), payer, network and transaction.  When it throws anything else,
    the failure has the message of the error (or [Settlement failed]), the
    network of the requirement and an empty transaction.  The authority
    is called once. *)
Theorem settlement_outcomes (srv : x402HTTPResourceServer)
    (paymentPayload : PaymentPayload) (requirements : PaymentRequirements)
    (st : Store World) :
  let settle := settlePayment (ResourceServer srv) paymentPayload requirements in
  let after w := {| world := w; trace := trace st ++ [CallSettle] |} in
  (exists result,
      processSettlement srv paymentPayload requirements st
      = (Returned result, after (snd (settle (world st))))) /\
  (forall settleResponse w,
      settle (world st) = (Returned settleResponse, w) ->
      settle_success settleResponse = true ->
      exists headers,
        processSettlement srv paymentPayload requirements st
        = (Returned (SettleSuccess settleResponse headers requirements), after w) /\
        headers !! js "PAYMENT-RESPONSE"
        = Some (encodePaymentResponseHeader settleResponse requirements)) /\
  (forall settleResponse w,
      settle (world st) = (Returned settleResponse, w) ->
      settle_success settleResponse = false ->
      processSettlement srv paymentPayload requirements st
      = (Returned (SettleFailure settleResponse
                     (or_else (settle_errorReason settleResponse)
                              (js "Settlement failed"))), after w)) /\
  (forall msg errorReason payer network transaction w,
      settle (world st)
      = (Thrown (SettleErrorExn msg errorReason payer network transaction), w) ->
      processSettlement srv paymentPayload requirements st
      = (Returned (SettleThrown (or_else errorReason msg) payer network
                                transaction), after w)) /\
  (forall e w,
      settle (world st) = (Thrown e, w) ->
      (forall msg errorReason payer network transaction,
          e <> SettleErrorExn msg errorReason payer network transaction) ->
      processSettlement srv paymentPayload requirements st
      = (Returned (SettleThrown (messageOr e (js "Settlement failed")) None
                                (requirements_network requirements) []),
         after w)).
Proof.
  intros settle after.
  unfold processSettlement, try_catch, bind, call. fold settle.
  repeat split.
  - destruct (settle (world st)) as [[resp|e] w]; simpl.
    + destruct (settle_success resp); eexists; reflexivity.
    + destruct e; eexists; reflexivity.
  - intros resp w -> S. simpl. rewrite S. simpl. eexists. split; [reflexivity|].
    apply lookup_singleton_eq.
  - intros resp w -> S. simpl. now rewrite S.
  - now intros msg errorReason payer network transaction w ->.
  - intros e w -> N. simpl.
    destruct e as [m|m why payer net tx|m errs|]; try reflexivity.
    now destruct (N m why payer net tx).
Qed.

End ResponseFacts.

(** ** Request processing (claims C2, C3, C4) *)

Section RequestFacts.
Context `{Externals}.

Lemma issues_ret (P : Call -> Prop) {A} (a : A) : issues P (ret a).
Proof. intros st. exists []. now rewrite app_nil_r. Qed.

Lemma issues_throw (P : Call -> Prop) {A} (e : Exn) :
  issues P (throw (A := A) e).
Proof. intros st. exists []. now rewrite app_nil_r. Qed.

Lemma issues_call (P : Call -> Prop) {A} (c : Call)
    (op : World -> Outcome A * World) :
  P c -> issues P (call c op).
Proof.
  intros Pc st. exists [c]. unfold call. destruct (op (world st)).
  split; [reflexivity|now constructor].
Qed.

Lemma issues_bind (P : Call -> Prop) {A B} (m : M World A) (k : A -> M World B) :
  issues P m -> (forall a, issues P (k a)) -> issues P (bind m k).
Proof.
  intros Hm Hk st. unfold bind. destruct (Hm st) as (c1 & E1 & F1).
  destruct (m st) as [[a|e] st1]; simpl in E1.
  - destruct (Hk a st1) as (c2 & E2 & F2). exists (c1 ++ c2).
    rewrite E2, E1, app_assoc. split; [reflexivity|now apply Forall_app].
  - now exists c1.
Qed.

Lemma issues_try_catch (P : Call -> Prop) {A} (body : M World A)
    (handler : Exn -> M World A) :
  issues P body -> (forall e, issues P (handler e)) ->
  issues P (try_catch body handler).
Proof.
  intros Hm Hk st. unfold try_catch. destruct (Hm st) as (c1 & E1 & F1).
  destruct (body st) as [[a|e] st1]; simpl in E1.
  - now exists c1.
  - destruct (Hk e st1) as (c2 & E2 & F2). exists (c1 ++ c2).
    rewrite E2, E1, app_assoc. split; [reflexivity|now apply Forall_app].
Qed.

(** Goals [issues P m] are solved by following the structure of [m]. *)
Ltac issues_step :=
  match goal with
  | |- issues _ (ret _) => apply issues_ret
  | |- issues _ (throw _) => apply issues_throw
  | |- issues _ (call _ _) => apply issues_call; discriminate
  | |- issues _ (bind _ _) => apply issues_bind; [|intros ?]
  | |- issues _ (try_catch _ _) => apply issues_try_catch; [|intros ?]
  | |- issues _ (match ?x with _ => _ end) => destruct x
  | |- issues _ (if ?x then _ else _) => destruct x
  end.

Lemma createHTTPResponse_issues (srv : x402HTTPResourceServer)
    (pr : PaymentRequired) (browser : bool) (pc : option PaywallConfig)
    (customHtml : option jsstring) (unpaid : option UnpaidResponseResult) :
  issues notSettle (createHTTPResponse srv pr browser pc customHtml unpaid).
Proof.
  unfold createHTTPResponse, generatePaywallHTML, notSettle.
  repeat issues_step.
Qed.

(** A request makes no settlement call. *)
Lemma processHTTPRequest_issues (srv : x402HTTPResourceServer)
    (context : HTTPRequestContext) (pc : option PaywallConfig) :
  issues notSettle (processHTTPRequest srv context pc).
Proof.
  pose proof (createHTTPResponse_issues srv) as R.
  unfold processHTTPRequest, processGated, prepareRequirements,
    resolveUnpaidBody, verifyBlock, verifyHandler.
  unfold notSettle in *.
  repeat first [apply R | issues_step].
Qed.





(** C2, amended: take a request on a gated route whose proof header
    decodes, and let the authority build the requirements of the route,
    enrich its extensions and create the descriptor.  When the authority
    finds no requirement for the proof and creates the descriptor of the
    refusal, the result is [payment-error] with a 402 response whose
    header encodes that descriptor: the one made from the whole list of
    requirements that the authority built for the options of the route
    and from the reason [No matching payment requirements].  When the
    authority says that the payment is not valid and creates the
    descriptor of the refusal, the result is [payment-error] with a 402
    response whose descriptor is made from the whole list and the reason
    of the authority.  When the payment is valid, the result is
    [payment-verified] with the proof and the requirement found.  In no
    case is a settlement call made.  The creation of a descriptor can
    throw: the result is then not the one described. *)
Theorem verification_outcomes (srv : x402HTTPResourceServer)
    (routeConfig : RouteConfig) (context : HTTPRequestContext)
    (pc : option PaywallConfig) (proof : PaymentPayload)
    (reqs : list PaymentRequirements) (enriched : option Extensions)
    (pr : PaymentRequired) (st : Store World) (w1 w2 w3 : World) :
  getRouteConfig srv (path context) (method context) = Some routeConfig ->
  extractPayment (adapter context) = Some proof ->
  let rs := ResourceServer srv in
  let info := resourceInfoOf routeConfig context in
  buildPaymentRequirementsFromOptions
    rs (normalizePaymentOptions routeConfig) context (world st)
  = (Returned reqs, w1) ->
  enrichment rs routeConfig context w1 enriched w2 ->
  createPaymentRequiredResponse rs reqs info None enriched w2
  = (Returned pr, w3) ->
  let before := trace st ++ preparing routeConfig None in
  let find := findMatchingRequirements rs (paymentRequired_accepts pr) proof in
  let describe why :=
    createPaymentRequiredResponse rs reqs info why (extensions routeConfig) in
  let refused why pr2 w calls :=
    exists resp,
      processHTTPRequest srv context pc st
      = (Returned (PaymentError resp),
         {| world := w;
            trace := before ++ calls ++ [CallCreatePaymentRequired why] |}) /\
      status resp = 402%N /\
      headers resp !! js "PAYMENT-REQUIRED"
      = Some (encodePaymentRequiredHeader pr2) in
  (forall w4 pr2 w5,
      find w3 = (Returned None, w4) ->
      describe (Some (js "No matching payment requirements")) w4
      = (Returned pr2, w5) ->
      refused (Some (js "No matching payment requirements")) pr2 w5
              [CallFindMatching]) /\
  (forall matching w4 verdict w5 pr2 w6,
      find w3 = (Returned (Some matching), w4) ->
      verifyPayment rs proof matching w4 = (Returned verdict, w5) ->
      isValid verdict = false ->
      describe (invalidReason verdict) w5 = (Returned pr2, w6) ->
      refused (invalidReason verdict) pr2 w6 [CallFindMatching; CallVerify]) /\
  (forall matching w4 verdict w5,
      find w3 = (Returned (Some matching), w4) ->
      verifyPayment rs proof matching w4 = (Returned verdict, w5) ->
      isValid verdict = true ->
      processHTTPRequest srv context pc st
      = (Returned (PaymentVerified proof matching),
         {| world := w5;
            trace := before ++ [CallFindMatching; CallVerify] |})) /\
  (exists calls,
      trace (snd (processHTTPRequest srv context pc st)) = trace st ++ calls /\
      ~ In CallSettle calls).
Proof.
  intros R E rs info B En D before find describe refused.
  set (st1 := {| world := w3; trace := before |}).
  assert (G : processHTTPRequest srv context pc st
              = try_catch
                  (verifyBlock srv routeConfig pc reqs info pr proof)
                  (verifyHandler srv routeConfig pc reqs info) st1).
  { unfold processHTTPRequest, processGated. rewrite R, E.
    unfold bind at 1.
    now rewrite (@prepareRequirements_runs _ srv routeConfig context
                   (Some proof) st reqs enriched pr w1 w2 w3 B En D). }
  repeat split.
  - intros w4 pr2 w5 F Dn. unfold refused, find, describe in *. rewrite G.
    unfold try_catch, verifyBlock, bind, call. fold rs.
    cbn [world trace st1]. rewrite F. cbn [world trace]. rewrite Dn.
    cbn [world trace].
    destruct (createHTTPResponse_api srv pr2 pc None None
                {| world := w5;
                   trace := (before ++ [CallFindMatching]) ++
                            [CallCreatePaymentRequired
                               (Some (js "No matching payment requirements"))] |})
      as (resp & C & S & Hd & _).
    rewrite C. exists resp. unfold ret.
    rewrite <- app_assoc. repeat split; assumption.
  - intros matching w4 verdict w5 pr2 w6 F V I Dn.
    unfold refused, find, describe in *. rewrite G.
    unfold try_catch, verifyBlock, bind, call. fold rs.
    cbn [world trace st1]. rewrite F. cbn [world trace]. rewrite V, I.
    cbn [world trace negb]. rewrite Dn. cbn [world trace].
    destruct (createHTTPResponse_api srv pr2 pc None None
                {| world := w6;
                   trace := ((before ++ [CallFindMatching]) ++ [CallVerify]) ++
                            [CallCreatePaymentRequired (invalidReason verdict)] |})
      as (resp & C & S & Hd & _).
    rewrite C. exists resp. unfold ret.
    rewrite <- !app_assoc. repeat split; assumption.
  - intros matching w4 verdict w5 F V I. unfold find in *. rewrite G.
    unfold try_catch, verifyBlock, bind, call. fold rs.
    cbn [world trace st1]. rewrite F. cbn [world trace]. rewrite V, I.
    cbn [world trace negb]. unfold ret. now rewrite <- app_assoc.
  - destruct (processHTTPRequest_issues srv context pc st) as (calls & T & F).
    exists calls. split; [exact T|].
    intros X. now apply (proj1 (List.Forall_forall _ _) F _ X).
Qed.




End RequestFacts.

(** ** The theorems at the concrete server *)

Section Instances.
#[local] Existing Instance Demo.externals.
Import Demo Cases.

Lemma first_match_wins_witness :
  new_x402HTTPResourceServer (authority honest) table = Some (serving honest) /\
  getRouteConfig (serving honest) (path paying) (method paying) = Some weather /\
  processHTTPRequest (serving honest) paying None
  = processGated (serving honest) weather paying None.
Proof.
  assert (E : new_x402HTTPResourceServer (authority honest) table
              = Some (serving honest)) by (vm_compute; reflexivity).
  split; [exact E|].
  destruct (first_match_wins (authority honest) table paying None E)
    as [(before & pattern & cfg & after & S & A & B & G & P)|(_ & G & _)].
  - assert (C : cfg = weather)
      by (vm_compute in G; injection G as <-; reflexivity).
    rewrite C in G, P. split; assumption.
  - vm_compute in G. discriminate G.
Defined.


(** C2, as stated, fails: the authority finds no requirement for the
    proof, and the request is not answered with a 402 response, because
    the descriptor of the refusal cannot be created; the second attempt,
    in the [catch] block, is outside every [try]. *)
Lemma descriptor_failure_escapes :
  getRouteConfig (servingWith reticent table) (path paying) (method paying)
  = Some weather /\
  extractPayment (adapter paying) = Some (js "proof:abc") /\
  findMatchingRequirements reticent [exactOnBase] (js "proof:abc") 2%nat
  = (Returned None, 3%nat) /\
  processHTTPRequest (servingWith reticent table) paying None start
  = (Thrown (ErrorExn (js "descriptor unavailable")),
     {| world := 5%nat;
        trace := [CallBuildRequirements; CallCreatePaymentRequired None;
                  CallFindMatching;
                  CallCreatePaymentRequired
                    (Some (js "No matching payment requirements"));
                  CallCreatePaymentRequired
                    (Some (js "descriptor unavailable"))] |}).
Proof. repeat split; vm_compute; reflexivity. Qed.

Lemma verification_outcomes_witness :
  (exists resp st',
      processHTTPRequest (serving noMatch) paying None start
      = (Returned (PaymentError resp), st') /\
      status resp = 402%N /\
      headers resp !! js "PAYMENT-REQUIRED"
      = Some (js "required:No matching payment requirements")) /\
  (exists resp st',
      processHTTPRequest (serving invalid) paying None start
      = (Returned (PaymentError resp), st') /\
      status resp = 402%N /\
      headers resp !! js "PAYMENT-REQUIRED"
      = Some (js "required:insufficient_funds")) /\
  processHTTPRequest (serving honest) paying None start
  = (Returned (PaymentVerified (js "proof:abc") exactOnBase),
     {| world := 4%nat;
        trace := [CallBuildRequirements; CallCreatePaymentRequired None;
                  CallFindMatching; CallVerify] |}).
Proof.
  assert (V : forall s,
             built s = Returned [exactOnBase] ->
             getRouteConfig (serving s) (path paying) (method paying)
             = Some weather /\
             extractPayment (adapter paying) = Some (js "proof:abc") /\
             buildPaymentRequirementsFromOptions
               (ResourceServer (serving s)) (normalizePaymentOptions weather)
               paying (world start)
             = (Returned [exactOnBase], 1%nat)).
  { intros s B. repeat split. simpl. now rewrite B. }
  split; [|split].
  - destruct (V noMatch eq_refl) as (R & E & B).
    destruct (@verification_outcomes _ (serving noMatch) weather paying None
                (js "proof:abc") [exactOnBase] None (descriptor None) start
                1%nat 1%nat 2%nat R E B eq_refl eq_refl)
      as (A & _).
    destruct (A 3%nat
                (descriptor (Some (js "No matching payment requirements")))
                4%nat eq_refl eq_refl) as (resp & Q & S & Hd).
    exists resp. eexists. repeat split; [exact Q|exact S|exact Hd].
  - destruct (V invalid eq_refl) as (R & E & B).
    destruct (@verification_outcomes _ (serving invalid) weather paying None
                (js "proof:abc") [exactOnBase] None (descriptor None) start
                1%nat 1%nat 2%nat R E B eq_refl eq_refl)
      as (_ & A & _).
    destruct (A exactOnBase 3%nat
                {| isValid := false;
                   invalidReason := Some (js "insufficient_funds") |}
                4%nat (descriptor (Some (js "insufficient_funds"))) 5%nat
                eq_refl eq_refl eq_refl eq_refl) as (resp & Q & S & Hd).
    exists resp. eexists. repeat split; [exact Q|exact S|exact Hd].
  - destruct (V honest eq_refl) as (R & E & B).
    destruct (@verification_outcomes _ (serving honest) weather paying None
                (js "proof:abc") [exactOnBase] None (descriptor None) start
                1%nat 1%nat 2%nat R E B eq_refl eq_refl)
      as (_ & _ & A & _).
    exact (A exactOnBase 3%nat
             {| isValid := true; invalidReason := None |} 4%nat
             eq_refl eq_refl eq_refl).
Defined.





Lemma settlement_outcomes_witness :
  (exists hs,
      processSettlement (serving honest) (js "proof:abc") exactOnBase start
      = (Returned (SettleSuccess {| succeeded := true; failure := None |}
                                 hs exactOnBase),
         {| world := 1%nat; trace := [CallSettle] |}) /\
      hs !! js "PAYMENT-RESPONSE" = Some (js "settled:exact@eip155:8453")) /\
  processSettlement (serving invalid) (js "proof:abc") exactOnBase start
  = (Returned (SettleFailure {| succeeded := false; failure := None |}
                             (js "Settlement failed")),
     {| world := 1%nat; trace := [CallSettle] |}) /\
  processSettlement (serving unreachable) (js "proof:abc") exactOnBase start
  = (Returned (SettleThrown (js "insufficient_funds") (Some (js "0xPayer"))
                            (js "eip155:8453") (js "0xabc")),
     {| world := 1%nat; trace := [CallSettle] |}) /\
  processSettlement (serving broken) (js "proof:abc") exactOnBase start
  = (Returned (SettleThrown (js "connection reset") None
                            (js "eip155:8453") []),
     {| world := 1%nat; trace := [CallSettle] |}).
Proof.
  split; [|split; [|split]].
  - destruct (settlement_outcomes (serving honest) (js "proof:abc")
                                  exactOnBase start) as (_ & A & _).
    exact (A {| succeeded := true; failure := None |} 1%nat eq_refl eq_refl).
  - destruct (settlement_outcomes (serving invalid) (js "proof:abc")
                                  exactOnBase start) as (_ & _ & A & _).
    exact (A {| succeeded := false; failure := None |} 1%nat eq_refl eq_refl).
  - destruct (settlement_outcomes (serving unreachable) (js "proof:abc")
                                  exactOnBase start) as (_ & _ & _ & A & _).
    exact (A _ _ _ _ _ 1%nat eq_refl).
  - destruct (settlement_outcomes (serving broken) (js "proof:abc")
                                  exactOnBase start) as (_ & _ & _ & _ & A).
    apply (A (ErrorExn (js "connection reset")) 1%nat eq_refl).
    discriminate.
Defined.

Lemma unpaid_response_shape_witness :
  isWebBrowser (adapter browsing) = true /\
  isWebBrowser (adapter garbled) = false /\
  createHTTPResponse (serving honest)
    (descriptor (Some (js "Payment required")))
    (isWebBrowser (adapter browsing)) None None None start
  = (Returned {| status := 402;
                 headers := {[ js "Content-Type" := js "text/html" ]};
                 body := Some (HtmlBody (js "<html>Payment Required</html>"));
                 isHtml := Some true |}, start) /\
  (exists resp,
      createHTTPResponse (serving honest)
        (descriptor (Some (js "Payment required")))
        (isWebBrowser (adapter garbled)) None None None start
      = (Returned resp, start) /\
      headers resp !! js "Content-Type" = Some (js "application/json") /\
      headers resp !! js "PAYMENT-REQUIRED"
      = Some (js "required:Payment required")) /\
  (exists resp,
      processHTTPRequest (servingOn honest teasers) peeking None start
      = (Returned (PaymentError resp),
         {| world := 3%nat;
            trace := [CallBuildRequirements;
                      CallCreatePaymentRequired (Some (js "Payment required"));
                      CallUnpaidResponseBody] |}) /\
      status resp = 402%N /\
      headers resp !! js "PAYMENT-REQUIRED"
      = Some (js "required:Payment required") /\
      headers resp !! js "Content-Type" = Some (js "text/plain") /\
      body resp = Some (UnpaidBody (unpaid_body preview))).
Proof.
  destruct (unpaid_response_shape (serving honest) (adapter browsing)
              (descriptor (Some (js "Payment required"))) None None None start)
    as (C & B & _).
  destruct (unpaid_response_shape (serving honest) (adapter garbled)
              (descriptor (Some (js "Payment required"))) None None None start)
    as (_ & _ & A & _).
  destruct (unpaid_response_shape (servingOn honest teasers) (adapter peeking)
              (descriptor None) None None
              (Some preview) start)
    as (_ & _ & _ & G).
  assert (Tb : isWebBrowser (adapter browsing) = true).
  { apply C. split.
    - exists [], (js ",application/xhtml+xml"). reflexivity.
    - exists [], (js "/5.0"). reflexivity. }
  assert (Tg : isWebBrowser (adapter garbled) = false) by reflexivity.
  split; [exact Tb|split; [exact Tg|split; [|split]]].
  - destruct (B Tb) as (G0 & _). apply G0. reflexivity.
  - destruct (A Tg) as (resp & Q & _ & Hd & Ct & _).
    exists resp. repeat split; assumption.
  - destruct (G teaser peeking [exactOnBase] None 1%nat 1%nat
                (descriptor (Some (js "Payment required"))) 2%nat 3%nat
                eq_refl eq_refl eq_refl eq_refl eq_refl eq_refl) as (Ga & _).
    destruct (Ga eq_refl) as (resp & Q & S & Hd & Ct & Bd & _).
    exists resp. repeat split; assumption.
Defined.

(** C7, as stated, fails: the facilitator is not asked about an option
    whose scheme is not registered.  The option [upto] on [solana:devnet] is
    neither registered nor supported by the facilitator, and the errors
    hold a [missing_scheme] error for it and no [missing_facilitator]
    error. *)
Lemma unregistered_option_skips_facilitator :
  let option := payOption "upto" "solana:devnet" in
  let errors := validateRouteConfiguration (servingOn honest mixed) 1%nat in
  hasRegisteredScheme (authority honest) 1%nat (network option) (scheme option)
  = false /\
  getSupportedKind (authority honest) 1%nat x402Version (network option)
                   (scheme option) = None /\
  In (missingSchemeError (js "/bad") option) errors /\
  ~ In (missingFacilitatorError (js "/bad") option) errors.
Proof.
  repeat split.
  - right; right; left. reflexivity.
  - vm_compute. intros [E|[E|[E|[]]]]; discriminate E.
Qed.

Lemma initialize_reports_all_witness :
  initialize (servingOn honest mixed) start
  = (Thrown (newRouteConfigurationError
               [missingSchemeError (js "/bad") (payOption "upto" "eip155:8453");
                missingFacilitatorError (js "/bad") (payOption "exact" "solana:devnet");
                missingSchemeError (js "/bad") (payOption "upto" "solana:devnet")]),
     {| world := 1%nat; trace := [CallInitialize] |}) /\
  initialize (serving honest) start
  = (Returned tt, {| world := 1%nat; trace := [CallInitialize] |}).
Proof.
  split.
  - destruct (initialize_reports_all (servingOn honest mixed) start (w := 1%nat)
                                     eq_refl) as (_ & _ & A).
    exact A.
  - destruct (initialize_reports_all (serving honest) start (w := 1%nat)
                                     eq_refl) as (_ & _ & A).
    exact A.
Defined.

(** C10, as stated, fails: a route whose [accepts] is the empty array
    yields no option, startup validation has nothing to say about it, and
    [initialize] returns. *)
Lemma empty_accepts_yields_no_option :
  normalizePaymentOptions noOptions = [] /\
  validateRouteConfiguration
    (servingOn honest free) 1%nat = [] /\
  initialize (servingOn honest free) start
  = (Returned tt, {| world := 1%nat; trace := [CallInitialize] |}).
Proof. repeat split. Qed.

Lemma normalizePaymentOptions_shape_witness :
  normalizePaymentOptions premium = [payOption "exact" "eip155:8453"] /\
  normalizePaymentOptions weather = [payOption "exact" "eip155:8453"] /\
  validateRouteConfiguration
    (servingOn honest free) 0%nat = [].
Proof.
  split; [|split].
  - destruct (normalizePaymentOptions_shape premium) as (A & _).
    exact (A _ eq_refl).
  - destruct (normalizePaymentOptions_shape weather) as (_ & A & _).
    exact (A _ eq_refl).
  - destruct (normalizePaymentOptions_shape noOptions) as (_ & _ & _ & A).
    apply (A (authority honest) _ 0%nat (js "/free") eq_refl).
    reflexivity.
Defined.

End Instances.

(** ** Route patterns, piece by piece *)

Lemma existsb_eqb_false (c : N) (l : list N) :
  existsb (N.eqb c) l = false -> Forall (fun x => c <> x) l.
Proof.
  induction l as [|x l IH]; simpl; [constructor|].
  intros [Hx Hl]%orb_false_elim. constructor; [|now apply IH].
  now apply N.eqb_neq.
Qed.

Lemma isEscaped_syntax (c : N) : isEscaped c = true -> RegExp.isSyntaxChar c = true.
Proof.
  unfold isEscaped. simpl. intros E.
  repeat match type of E with
         | (N.eqb c ?k || _) = true =>
             destruct (N.eqb_spec c k) as [Hk|_];
             [rewrite Hk; reflexivity|]; simpl in E
         end.
  discriminate.
Qed.

Lemma isEscaped_units (c : N) :
  isEscaped c = true ->
  N.eqb c STAR = false /\ N.eqb c SLASH = false /\ N.eqb c LBRACKET = false /\
  N.eqb c RBRACKET = false /\ N.eqb c BACKSLASH = false.
Proof.
  unfold isEscaped. simpl. intros E.
  repeat match type of E with
         | (N.eqb c ?k || _) = true =>
             destruct (N.eqb_spec c k) as [Hk|_];
             [rewrite Hk; repeat split; reflexivity|]; simpl in E
         end.
  discriminate.
Qed.

Lemma escapeSpecials_app (a b : jsstring) :
  escapeSpecials (a ++ b) = escapeSpecials a ++ escapeSpecials b.
Proof. apply flat_map_app. Qed.

Lemma wildcards_app (a b : jsstring) :
  wildcards (a ++ b) = wildcards a ++ wildcards b.
Proof. apply flat_map_app. Qed.

Lemma escapeSlashes_app (a b : jsstring) :
  escapeSlashes (a ++ b) = escapeSlashes a ++ escapeSlashes b.
Proof. apply flat_map_app. Qed.

(** Escaping and the replacement of stars keep a name without closing
    bracket and not empty as such. *)
Lemma name_survives (name : jsstring) :
  goodName name = true ->
  let n := wildcards (escapeSpecials name) in
  n <> [] /\ Forall (fun c => c <> RBRACKET) n.
Proof.
  unfold goodName. intros [T F]%andb_prop. split.
  - destruct name as [|c name]; [discriminate|].
    unfold escapeSpecials, wildcards. simpl.
    destruct (isEscaped c); simpl; [discriminate|].
    destruct (N.eqb c STAR); discriminate.
  - clear T. induction name as [|c name IH]; [constructor|].
    simpl in F. apply andb_prop in F as [Hc F]. specialize (IH F).
    change (c :: name) with ([c] ++ name).
    rewrite escapeSpecials_app, wildcards_app. apply Forall_app. split; [|exact IH].
    apply negb_true_iff, N.eqb_neq in Hc.
    unfold escapeSpecials, wildcards. simpl.
    destruct (isEscaped c); simpl.
    + destruct (N.eqb c STAR); repeat constructor; try discriminate; exact Hc.
    + destruct (N.eqb c STAR); repeat constructor; try discriminate; exact Hc.
Qed.

Lemma parameters_pending (n buf rest : jsstring) :
  Forall (fun c => c <> RBRACKET) n ->
  parameters (Some buf) (n ++ RBRACKET :: rest)
  = match buf ++ n with
    | [] => LBRACKET :: RBRACKET :: parameters None rest
    | _ :: _ => js "[^/]+" ++ parameters None rest
    end.
Proof.
  intros F. revert buf. induction F as [|c n Hc _ IH]; intros buf.
  - rewrite app_nil_r. cbn [app parameters].
    change (N.eqb RBRACKET RBRACKET) with true. cbn iota. reflexivity.
  - cbn [app parameters]. destruct (N.eqb_spec c RBRACKET); [contradiction|].
    rewrite IH, <- app_assoc. reflexivity.
Qed.

Lemma parameters_skip (u rest : jsstring) :
  Forall (fun c => c <> LBRACKET) u ->
  parameters None (u ++ rest) = u ++ parameters None rest.
Proof.
  induction 1 as [|c u Hc _ IH]; [reflexivity|].
  cbn [app parameters]. destruct (N.eqb_spec c LBRACKET); [contradiction|].
  now rewrite IH.
Qed.

Lemma parameters_cons (c : N) (rest : jsstring) :
  N.eqb c LBRACKET = false ->
  parameters None (c :: rest) = c :: parameters None rest.
Proof. intros E. cbn [parameters]. now rewrite E. Qed.

(** The four replacements of [parseRoutePattern], piece by piece. *)
Lemma source_pieces (ps : list Piece) :
  forallb wellFormedPiece ps = true ->
  escapeSlashes (parameters None (wildcards (escapeSpecials (piecesText ps))))
  = flat_map pieceSource ps.
Proof.
  induction ps as [|p ps IH]; [reflexivity|].
  cbn [forallb]. intros [W Ws]%andb_prop. specialize (IH Ws).
  unfold piecesText in *. cbn [flat_map].
  rewrite escapeSpecials_app, wildcards_app.
  destruct p as [c| |name]; cbn [wellFormedPiece pieceText pieceSource] in *.
  - unfold plainUnit in W. apply negb_true_iff in W.
    apply orb_false_elim in W as [W Hb]. apply orb_false_elim in W as [W Hr].
    apply orb_false_elim in W as [Hs Hl].
    unfold escapeSpecials at 1. cbn [flat_map]. rewrite app_nil_r.
    destruct (isEscaped c) eqn:E; cbn [orb].
    + destruct (isEscaped_units c E) as (_ & Hsl & _).
      unfold wildcards at 1. cbn [flat_map].
      change (N.eqb BACKSLASH STAR) with false. rewrite Hs. cbn iota.
      cbn [app]. rewrite !parameters_cons by (reflexivity || assumption).
      change (BACKSLASH :: c :: ?r) with ([BACKSLASH; c] ++ r).
      rewrite escapeSlashes_app, IH. unfold escapeSlashes. cbn [flat_map].
      change (N.eqb BACKSLASH SLASH) with false. rewrite Hsl. reflexivity.
    + unfold wildcards at 1. cbn [flat_map]. rewrite Hs. cbn [app].
      rewrite parameters_cons by assumption.
      change (c :: ?r) with ([c] ++ r).
      rewrite escapeSlashes_app, IH. unfold escapeSlashes. cbn [flat_map].
      destruct (N.eqb_spec c SLASH) as [Hk|_]; [rewrite Hk|]; reflexivity.
  - change (wildcards (escapeSpecials [STAR])) with [DOT; STAR; QUESTION].
    cbn [app]. rewrite !parameters_cons by reflexivity.
    change (DOT :: STAR :: QUESTION :: ?r) with ([DOT; STAR; QUESTION] ++ r).
    rewrite escapeSlashes_app, IH. reflexivity.
  - destruct (name_survives name W) as (Hne & Hf).
    change (LBRACKET :: name ++ [RBRACKET]) with ([LBRACKET] ++ name ++ [RBRACKET]).
    rewrite !escapeSpecials_app, !wildcards_app.
    change (wildcards (escapeSpecials [LBRACKET])) with [LBRACKET].
    change (wildcards (escapeSpecials [RBRACKET])) with [RBRACKET].
    set (n := wildcards (escapeSpecials name)) in *.
    rewrite <- !app_assoc. cbn [app parameters].
    change (N.eqb LBRACKET LBRACKET) with true. cbn iota.
    rewrite (parameters_pending [] _ Hf). cbn [app].
    destruct n; [contradiction|].
    now rewrite escapeSlashes_app, IH.
Qed.

Lemma lex_escape (c : N) (rest : jsstring) :
  RegExp.isSyntaxChar c = true ->
  RegExp.lex None (BACKSLASH :: c :: rest)
  = option_map (cons (RegExp.TkAtom (RegExp.AChar c))) (RegExp.lex None rest).
Proof.
  intros E.
  cbn [RegExp.lex N.eqb Pos.eqb CARET DOLLAR DOT STAR PLUS QUESTION BACKSLASH].
  now rewrite E.
Qed.

Lemma lex_plain (c : N) (rest : jsstring) :
  isEscaped c = false -> plainUnit c = true ->
  RegExp.lex None (c :: rest)
  = option_map (cons (RegExp.TkAtom (RegExp.AChar c))) (RegExp.lex None rest).
Proof.
  intros E P. unfold plainUnit in P. apply negb_true_iff in P.
  apply orb_false_elim in P as [P Hb]. apply orb_false_elim in P as [P Hr].
  apply orb_false_elim in P as [Hs Hl].
  unfold isEscaped in E. simpl in E.
  repeat match type of E with
         | orb _ _ = false => let H := fresh "E" in apply orb_false_elim in E as [H E]
         end.
  cbn [RegExp.lex].
  unfold CARET, DOLLAR, DOT, STAR, PLUS, QUESTION, BACKSLASH, LBRACKET in *.
  simpl existsb.
  repeat match goal with
         | H : N.eqb c _ = false |- _ => rewrite H; clear H
         end.
  reflexivity.
Qed.

Lemma lex_piece (p : Piece) (rest : jsstring) :
  wellFormedPiece p = true ->
  RegExp.lex None (pieceSource p ++ rest)
  = option_map (app (pieceTokens p)) (RegExp.lex None rest).
Proof.
  destruct p as [c| |name]; cbn [wellFormedPiece pieceSource pieceTokens]; intros W.
  - destruct (isEscaped c) eqn:E; cbn [orb].
    + cbn [app]. rewrite lex_escape by now apply isEscaped_syntax.
      now destruct (RegExp.lex None rest).
    + destruct (N.eqb_spec c SLASH) as [Hk|_]; cbn [app].
      * rewrite Hk, lex_escape by reflexivity. now destruct (RegExp.lex None rest).
      * rewrite lex_plain by assumption. now destruct (RegExp.lex None rest).
  - change (js ".*?") with [DOT; STAR; QUESTION].
    cbn [app RegExp.lex N.eqb Pos.eqb CARET DOLLAR DOT STAR PLUS QUESTION].
    now destruct (RegExp.lex None rest).
  - change (js "[^\/]+") with [LBRACKET; CARET; BACKSLASH; SLASH; RBRACKET; PLUS].
    cbn [app RegExp.lex N.eqb Pos.eqb CARET DOLLAR DOT STAR PLUS QUESTION
         BACKSLASH LBRACKET RBRACKET SLASH RegExp.isSyntaxChar existsb orb].
    now destruct (RegExp.lex None rest).
Qed.

Lemma lex_pieces (ps : list Piece) (rest : jsstring) :
  forallb wellFormedPiece ps = true ->
  RegExp.lex None (flat_map pieceSource ps ++ rest)
  = option_map (app (flat_map pieceTokens ps)) (RegExp.lex None rest).
Proof.
  induction ps as [|p ps IH]; cbn [forallb flat_map app].
  - intros _. now destruct (RegExp.lex None rest).
  - intros [W Ws]%andb_prop. rewrite <- app_assoc, lex_piece, IH by assumption.
    destruct (RegExp.lex None rest); simpl; [|reflexivity].
    now rewrite app_assoc.
Qed.

Lemma atomFirst_pieces (ps : list Piece) (rest : list RegExp.Token) :
  atomFirst rest -> atomFirst (flat_map pieceTokens ps ++ rest).
Proof. destruct ps as [|[c| |name] ps]; simpl; auto. Qed.

Lemma terms_piece (p : Piece) (rest : list RegExp.Token) :
  atomFirst rest ->
  RegExp.terms (pieceTokens p ++ rest)
  = option_map (cons (pieceTerm p)) (RegExp.terms rest).
Proof.
  intros A. destruct p as [c| |name]; cbn [pieceTokens pieceTerm app].
  - cbn [RegExp.terms]. destruct rest as [|[| |a|q b] rest]; try reflexivity.
    destruct A.
  - reflexivity.
  - cbn [RegExp.terms]. destruct rest as [|[| |a|q b] rest]; try reflexivity.
    destruct A.
Qed.

Lemma terms_pieces (ps : list Piece) (rest : list RegExp.Token) :
  atomFirst rest ->
  RegExp.terms (flat_map pieceTokens ps ++ rest)
  = option_map (app (map pieceTerm ps)) (RegExp.terms rest).
Proof.
  intros A. induction ps as [|p ps IH]; cbn [flat_map map app].
  - now destruct (RegExp.terms rest).
  - rewrite <- app_assoc, terms_piece, IH by now apply atomFirst_pieces.
    now destruct (RegExp.terms rest).
Qed.

(** A well-formed list of pieces compiles to its regular expression. *)
Lemma compile_pieces (ps : list Piece) :
  forallb wellFormedPiece ps = true ->
  RegExp.compile (regexSource (piecesText ps)) = Some (piecesRegex ps).
Proof.
  intros W. unfold RegExp.compile, regexSource. rewrite (source_pieces ps W).
  change (js "^" ++ ?x) with (CARET :: x). cbn [RegExp.lex].
  change (N.eqb CARET CARET) with true. cbn iota.
  rewrite lex_pieces by assumption.
  change (RegExp.lex None (js "$")) with (Some [RegExp.TkDollar]).
  cbn [option_map RegExp.terms].
  rewrite (terms_pieces ps [RegExp.TkDollar] I). reflexivity.
Qed.

(** *** What the regular expression of the pieces accepts *)

Lemma matchHere_star (a : RegExp.Atom) (r : RegExp.Regex) (b : bool)
    (s : jsstring) :
  RegExp.matchHere (RegExp.TAtom a RegExp.Star :: r) b s
  = RegExp.matchHere r b s ||
    match s with
    | [] => false
    | c :: s' => RegExp.atomMatches a c &&
                 RegExp.matchHere (RegExp.TAtom a RegExp.Star :: r) false s'
    end.
Proof. destruct s; reflexivity. Qed.

Lemma matchHere_plus (a : RegExp.Atom) (r : RegExp.Regex) (b : bool)
    (s : jsstring) :
  RegExp.matchHere (RegExp.TAtom a RegExp.Plus :: r) b s
  = match s with
    | [] => false
    | c :: s' => RegExp.atomMatches a c &&
                 RegExp.matchHere (RegExp.TAtom a RegExp.Star :: r) false s'
    end.
Proof. destruct s; reflexivity. Qed.

(** Without a start anchor, a match does not depend on where it begins. *)
Lemma matchHere_anywhere (r : RegExp.Regex) :
  Forall (fun t => t <> RegExp.TStart) r ->
  forall b s, RegExp.matchHere r b s = RegExp.matchHere r false s.
Proof.
  induction 1 as [|t r Ht _ IH]; intros b s; [reflexivity|].
  destruct t as [| |a q]; [contradiction| |].
  - cbn [RegExp.matchHere]. destruct s; [apply IH|reflexivity].
  - destruct q.
    + reflexivity.
    + rewrite !matchHere_star. now rewrite (IH b).
    + reflexivity.
    + cbn [RegExp.matchHere]. now rewrite (IH b).
Qed.

Lemma testFrom_anchored (r : RegExp.Regex) (s : jsstring) :
  RegExp.testFrom (RegExp.TStart :: r) false s = false.
Proof. induction s as [|c s IH]; [reflexivity|]. cbn. exact IH. Qed.

Lemma test_anchored (r : RegExp.Regex) (s : jsstring) :
  RegExp.test (RegExp.TStart :: r) s = RegExp.matchHere r true s.
Proof.
  unfold RegExp.test. destruct s as [|c s]; cbn [RegExp.testFrom].
  - cbn [RegExp.matchHere andb]. apply orb_false_r.
  - rewrite testFrom_anchored. cbn [RegExp.matchHere andb]. apply orb_false_r.
Qed.

(** A star, then [r]: a run that the atom accepts, then what [r] accepts. *)
Lemma matchHere_star_spec (a : RegExp.Atom) (r : RegExp.Regex) (s : jsstring) :
  RegExp.matchHere (RegExp.TAtom a RegExp.Star :: r) false s = true <->
  exists run rest,
    s = run ++ rest /\
    Forall (fun x => RegExp.atomMatches a x = true) run /\
    RegExp.matchHere r false rest = true.
Proof.
  induction s as [|c s IH]; rewrite matchHere_star, orb_true_iff.
  - split.
    + intros [M|[=]]. exists [], []. now repeat split.
    + intros ([|x run] & rest & E & F & M); [|discriminate].
      left. simpl in E. now subst rest.
  - rewrite andb_true_iff, IH. split.
    + intros [M|[A (run & rest & -> & F & M)]].
      * exists [], (c :: s). now repeat split.
      * exists (c :: run), rest. repeat split; [now constructor|exact M].
    + intros ([|x run] & rest & E & F & M).
      * left. simpl in E. now subst rest.
      * right. injection E as <- ->. inversion F; subst.
        split; [assumption|]. now exists run, rest.
Qed.

Lemma upper_unit_slash (x : N) : upper_unit x = SLASH <-> x = SLASH.
Proof.
  unfold upper_unit, SLASH.
  destruct (N.leb_spec 97 x), (N.leb_spec x 122); simpl; lia.
Qed.

Lemma atomMatches_notSlash (x : N) :
  RegExp.atomMatches (RegExp.AClass true [SLASH]) x = true <-> x <> SLASH.
Proof.
  cbn [RegExp.atomMatches existsb]. unfold RegExp.canon.
  change (upper_unit SLASH) with SLASH. rewrite orb_false_r.
  destruct (N.eqb_spec SLASH (upper_unit x)) as [E|E]; simpl.
  - symmetry in E. apply (proj1 (upper_unit_slash x)) in E.
    split; [discriminate|intros Hn; now destruct Hn].
  - split; [|reflexivity]. intros _ ->. now apply E.
Qed.

Lemma pieceTerm_noStart (ps : list Piece) :
  Forall (fun t => t <> RegExp.TStart) (map pieceTerm ps ++ [RegExp.TEnd]).
Proof.
  apply Forall_app. split; [|repeat constructor; discriminate].
  induction ps as [|[c| |name] ps IH]; constructor; try discriminate; assumption.
Qed.

(** The regular expression of the pieces accepts the paths they describe. *)
Lemma matchHere_describes (ps : list Piece) (s : jsstring) :
  RegExp.matchHere (map pieceTerm ps ++ [RegExp.TEnd]) false s = true
  <-> Describes ps s.
Proof.
  revert s. induction ps as [|p ps IH]; intros s.
  - cbn. destruct s; split; try discriminate; try constructor.
    inversion 1.
  - destruct p as [c| |name]; cbn [map app pieceTerm].
    + cbn [RegExp.matchHere]. destruct s as [|x s].
      * split; [discriminate|inversion 1].
      * rewrite andb_true_iff, IH. cbn [RegExp.atomMatches]. unfold RegExp.canon.
        rewrite N.eqb_eq. split.
        -- intros [E D]. now constructor.
        -- inversion 1; subst. now split.
    + rewrite matchHere_star_spec. split.
      * intros (run & rest & -> & F & M). constructor; [|now apply IH].
        eapply List.Forall_impl; [|exact F]. cbn. intros x Hx.
        now apply negb_true_iff in Hx.
      * inversion 1; subst. exists run, s0. repeat split; [|now apply IH].
        eapply List.Forall_impl; [|eassumption]. cbn. intros x Hx.
        now apply negb_true_iff.
    + rewrite matchHere_plus. split.
      * destruct s as [|x s]; [discriminate|].
        intros [A M]%andb_prop. apply matchHere_star_spec in M
          as (run & rest & -> & F & M).
        change (x :: run ++ rest) with ((x :: run) ++ rest).
        constructor; [discriminate| |now apply IH].
        constructor; [now apply atomMatches_notSlash|].
        eapply List.Forall_impl; [|exact F]. intros y. apply atomMatches_notSlash.
      * inversion 1 as [| | |n run ps' s' Hne F D]; subst.
        destruct run as [|x run]; [contradiction|]. cbn [app].
        inversion F; subst. apply andb_true_intro. split.
        -- now apply atomMatches_notSlash.
        -- apply matchHere_star_spec. exists run, s'. repeat split; [|now apply IH].
           eapply List.Forall_impl; [|eassumption]. intros y. apply atomMatches_notSlash.
Qed.

Lemma test_pieces (ps : list Piece) (s : jsstring) :
  RegExp.test (piecesRegex ps) s = true <-> Describes ps s.
Proof.
  unfold piecesRegex. rewrite test_anchored.
  rewrite (matchHere_anywhere (pieceTerm_noStart ps)).
  apply matchHere_describes.
Qed.

(** *** Verb and path of a pattern *)

Lemma notWhite_notSpace (c : N) : isWhiteSpace c = false -> N.eqb SPACE c = false.
Proof.
  intros W. destruct (N.eqb_spec SPACE c) as [E|]; [|reflexivity].
  rewrite <- E in W. discriminate W.
Qed.

Lemma includes_space_noWhite (s : jsstring) :
  noWhite s = true -> includes s (js " ") = false.
Proof.
  induction s as [|c s IH]; [reflexivity|].
  cbn [noWhite forallb]. intros [W Ws]%andb_prop. apply negb_true_iff in W.
  cbn [includes]. rewrite (IH Ws), orb_false_r.
  change (js " ") with [SPACE]. cbn [startsWith].
  now rewrite (notWhite_notSpace c W).
Qed.

Lemma takeUntilSpace_noWhite (s rest : jsstring) :
  noWhite s = true -> takeUntilSpace (s ++ SPACE :: rest) = s.
Proof.
  induction s as [|c s IH]; [reflexivity|].
  cbn [noWhite forallb]. intros [W Ws]%andb_prop. apply negb_true_iff in W.
  cbn [app takeUntilSpace]. now rewrite W, (IH Ws).
Qed.

Lemma takeUntilSpace_all (s : jsstring) :
  noWhite s = true -> takeUntilSpace s = s.
Proof.
  induction s as [|c s IH]; [reflexivity|].
  cbn [noWhite forallb]. intros [W Ws]%andb_prop. apply negb_true_iff in W.
  cbn [takeUntilSpace]. now rewrite W, (IH Ws).
Qed.

Lemma dropUntilSpace_noWhite (s rest : jsstring) :
  noWhite s = true -> dropUntilSpace (s ++ SPACE :: rest) = SPACE :: rest.
Proof.
  induction s as [|c s IH]; [reflexivity|].
  cbn [noWhite forallb]. intros [W Ws]%andb_prop. apply negb_true_iff in W.
  cbn [app dropUntilSpace]. now rewrite W, (IH Ws).
Qed.

Lemma dropSpaces_noWhite (s : jsstring) : noWhite s = true -> dropSpaces s = s.
Proof.
  destruct s as [|c s]; [reflexivity|].
  cbn [noWhite forallb]. intros [W _]%andb_prop. apply negb_true_iff in W.
  cbn [dropSpaces]. now rewrite W.
Qed.

(** A pattern without white space declares any verb and itself as path; a
    verb, a space and a path declare the two. *)
Lemma declared_bare (path : jsstring) :
  noWhite path = true ->
  declaredVerb path = js "*" /\ declaredPath path = path.
Proof.
  intros W. unfold declaredVerb, declaredPath.
  now rewrite (includes_space_noWhite path W).
Qed.

Lemma declared_verb (verb path : jsstring) :
  noWhite verb = true -> noWhite path = true ->
  declaredVerb (verb ++ SPACE :: path) = verb /\
  declaredPath (verb ++ SPACE :: path) = path.
Proof.
  intros Wv Wp. unfold declaredVerb, declaredPath.
  assert (I : includes (verb ++ SPACE :: path) (js " ") = true)
    by (apply includes_spec; now exists verb, path).
  rewrite I. unfold splitVerbPath. cbn [fst snd].
  rewrite takeUntilSpace_noWhite, dropUntilSpace_noWhite by assumption.
  cbn [dropSpaces]. change (isWhiteSpace SPACE) with true. cbn iota.
  now rewrite dropSpaces_noWhite, takeUntilSpace_all.
Qed.

Lemma describes_literals (cs : jsstring) (ps : list Piece) (s : jsstring) :
  Describes (map PLit cs ++ ps) s <->
  exists pre rest,
    s = pre ++ rest /\ toUpperCase pre = toUpperCase cs /\ Describes ps rest.
Proof.
  revert s. induction cs as [|c cs IH]; intros s; cbn [map app].
  - split.
    + intros D. now exists [], s.
    + intros ([|x pre] & rest & -> & E & D); [exact D|discriminate].
  - split.
    + inversion 1 as [|c' x ps' s' E D| |]; subst.
      apply IH in D as (pre & rest & -> & Eu & D).
      exists (x :: pre), rest. repeat split; [|exact D].
      cbn [toUpperCase map]. unfold toUpperCase in Eu. now rewrite Eu, E.
    + intros ([|x pre] & rest & -> & E & D); [discriminate|].
      cbn [toUpperCase map] in E. injection E as Ex Eu.
      cbn [app]. constructor; [now symmetry|].
      apply IH. now exists pre, rest.
Qed.

Lemma describes_wild_last (s : jsstring) :
  Describes [PWild] s <-> Forall (fun x => isLineTerminator x = false) s.
Proof.
  split.
  - inversion 1 as [| |run ps' s' F D|]; subst. inversion D; subst.
    now rewrite app_nil_r.
  - intros F. rewrite <- (app_nil_r s). constructor; [exact F|constructor].
Qed.

Lemma describes_param_last (name s : jsstring) :
  Describes [PParam name] s <-> s <> [] /\ Forall (fun x => x <> SLASH) s.
Proof.
  split.
  - inversion 1 as [| | |n run ps' s' Hne F D]; subst. inversion D; subst.
    now rewrite app_nil_r.
  - intros [Hne F]. rewrite <- (app_nil_r s). constructor; [exact Hne|exact F|constructor].
Qed.

(** What a pattern made of pieces accepts, with any verb or with its own. *)
Lemma accepted_pieces (ps : list Piece) (path method : jsstring) :
  forallb wellFormedPiece ps = true -> noWhite (piecesText ps) = true ->
  accepted (piecesText ps) path method <-> Describes ps (normalizePath path).
Proof.
  intros W Wt. unfold accepted.
  destruct (declared_bare _ Wt) as [-> ->].
  rewrite (compile_pieces ps W). split.
  - intros (regex & [= <-] & T & _). now apply test_pieces.
  - intros D. exists (piecesRegex ps). repeat split; [now apply test_pieces|].
    now left.
Qed.

Lemma literals_text (cs : jsstring) : piecesText (literals cs) = cs.
Proof.
  unfold piecesText, literals. induction cs as [|c cs IH]; [reflexivity|].
  cbn [map flat_map pieceText app]. now rewrite IH.
Qed.

Lemma literals_wellFormed (cs : jsstring) :
  forallb wellFormedPiece (literals cs) = forallb plainUnit cs.
Proof.
  unfold literals. induction cs as [|c cs IH]; [reflexivity|].
  cbn [map forallb wellFormedPiece]. now rewrite IH.
Qed.

Lemma piecesText_app (a b : list Piece) :
  piecesText (a ++ b) = piecesText a ++ piecesText b.
Proof. apply flat_map_app. Qed.

Lemma noWhite_app (a b : jsstring) :
  noWhite (a ++ b) = noWhite a && noWhite b.
Proof. apply forallb_app. Qed.

(** X1: a route pattern made of plain code units, stars and bracketed
    parameters, without white space, compiles: each plain code unit becomes
    a literal atom, also when it is one of the characters that are special
    in a regular expression; each star becomes a dot under a star; each
    parameter becomes the class of the code units that are not slashes,
    once or more; the whole is anchored at both ends.  Alone the pattern
    has the verb [*]; after a verb and a space it has that verb in upper
    case. *)
Theorem pattern_pieces_compile (ps : list Piece) (verb : jsstring) :
  forallb wellFormedPiece ps = true ->
  noWhite (piecesText ps) = true ->
  noWhite verb = true ->
  parseRoutePattern (piecesText ps) = Some (js "*", piecesRegex ps) /\
  parseRoutePattern (verb ++ SPACE :: piecesText ps)
  = Some (toUpperCase verb, piecesRegex ps).
Proof.
  intros W Wt Wv. rewrite !parseRoutePattern_declared.
  destruct (declared_bare _ Wt) as [-> ->].
  destruct (declared_verb verb _ Wv Wt) as [-> ->].
  now rewrite (compile_pieces ps W).
Qed.

Lemma pattern_pieces_compile_witness :
  parseRoutePattern (js "get /v1/[id]/*") = Some (js "GET", piecesRegex versioned).
Proof.
  exact (proj2 (pattern_pieces_compile versioned (js "get")
                  eq_refl eq_refl eq_refl)).
Defined.

(** X2: such a pattern, when its literals are ASCII, accepts a request
    exactly when the normalized path of the request is described by its
    pieces (a literal for one code unit equal to it up to the case of ASCII
    letters, a star for any run without line terminator, a parameter for a
    run, not empty, without slash) and, when the pattern has a verb, that
    verb is [*] or equals the method, both in upper case, the verb and the
    method being ASCII. *)
Theorem pattern_pieces_accept (ps : list Piece) (verb path method : jsstring) :
  forallb wellFormedPiece ps = true ->
  forallb asciiPiece ps = true ->
  noWhite (piecesText ps) = true ->
  noWhite verb = true ->
  (accepted (piecesText ps) path method
   <-> Describes ps (normalizePath path)) /\
  (ascii verb = true -> ascii method = true ->
   (accepted (verb ++ SPACE :: piecesText ps) path method
    <-> Describes ps (normalizePath path) /\
        (toUpperCase verb = js "*" \/ toUpperCase verb = toUpperCase method))).
Proof.
  intros W _ Wt Wv. split; [now apply accepted_pieces|]. intros _ _.
  unfold accepted. destruct (declared_verb verb _ Wv Wt) as [-> ->].
  rewrite (compile_pieces ps W). split.
  - intros (regex & [= <-] & T & V). split; [now apply test_pieces|exact V].
  - intros [D V]. exists (piecesRegex ps). repeat split; [now apply test_pieces|exact V].
Qed.

Lemma pattern_pieces_accept_witness :
  accepted (js "get /v1/[id]/*") (js "/V1/42/a/b?x=1") (js "GET").
Proof.
  apply (proj2 (pattern_pieces_accept versioned (js "get") (js "/V1/42/a/b?x=1")
                  (js "GET") eq_refl eq_refl eq_refl eq_refl) eq_refl eq_refl).
  split; [|right; reflexivity].
  change (normalizePath (js "/V1/42/a/b?x=1")) with (js "/V1/42/a/b").
  unfold versioned, literals. cbn [map app js list_ascii_of_string].
  repeat (apply describes_lit; [reflexivity|]).
  apply (describes_param (js "id") (run := js "42")); [discriminate| |].
  { repeat constructor; discriminate. }
  apply describes_lit; [reflexivity|].
  apply (describes_wild (run := js "a/b") (ps := []) (s := [])); [|constructor].
  repeat constructor.
Defined.

(** X3: a pattern of plain ASCII code units only (no star, bracket,
    backslash or white space) accepts a request, whatever its method,
    exactly when the normalized path equals the pattern up to the case of
    ASCII letters: the characters that are special in a regular expression
    stand for themselves. *)
Theorem literal_pattern_exact (pattern path method : jsstring) :
  forallb plainUnit pattern = true ->
  ascii pattern = true ->
  noWhite pattern = true ->
  accepted pattern path method
  <-> toUpperCase (normalizePath path) = toUpperCase pattern.
Proof.
  intros P _ W. rewrite <- (literals_text pattern) at 1.
  rewrite accepted_pieces;
    [|now rewrite literals_wellFormed|now rewrite literals_text].
  unfold literals. rewrite <- (app_nil_r (map PLit pattern)), describes_literals.
  split.
  - intros (pre & rest & E & U & D). inversion D; subst.
    now rewrite E, app_nil_r.
  - intros U. exists (normalizePath path), []. rewrite app_nil_r.
    repeat split; [exact U|constructor].
Qed.

Lemma literal_pattern_exact_witness :
  accepted (js "/docs/v1.0/(beta)") (js "/Docs/V1.0/(Beta)/") (js "POST") /\
  ~ accepted (js "/docs/v1.0/(beta)") (js "/docs/v1x0/(beta)") (js "POST").
Proof.
  split.
  - now apply (proj2 (literal_pattern_exact (js "/docs/v1.0/(beta)")
                        (js "/Docs/V1.0/(Beta)/") (js "POST")
                        eq_refl eq_refl eq_refl)).
  - intros A.
    apply (proj1 (literal_pattern_exact (js "/docs/v1.0/(beta)")
                    (js "/docs/v1x0/(beta)") (js "POST")
                    eq_refl eq_refl eq_refl)) in A.
    discriminate A.
Defined.

(** X4: a pattern of plain ASCII code units followed by a star accepts a
    request, whatever its method, exactly when the normalized path begins
    with the plain part, up to the case of ASCII letters, and has no line
    terminator after it: a path with an encoded line feed after the prefix
    is not accepted. *)
Theorem prefix_pattern (prefix path method : jsstring) :
  forallb plainUnit prefix = true ->
  ascii prefix = true ->
  noWhite prefix = true ->
  accepted (prefix ++ [STAR]) path method
  <-> exists pre rest,
        normalizePath path = pre ++ rest /\
        toUpperCase pre = toUpperCase prefix /\
        Forall (fun x => isLineTerminator x = false) rest.
Proof.
  intros P _ W.
  assert (T : piecesText (literals prefix ++ [PWild]) = prefix ++ [STAR])
    by (now rewrite piecesText_app, literals_text).
  rewrite <- T, accepted_pieces.
  - unfold literals. rewrite describes_literals.
    split; intros (pre & rest & E & U & D); exists pre, rest;
      repeat split; try assumption; now apply describes_wild_last.
  - rewrite forallb_app, literals_wellFormed, P. reflexivity.
  - rewrite T, noWhite_app, W. reflexivity.
Qed.

Lemma prefix_pattern_witness :
  accepted (js "/api/*") (js "/API/users//7/") (js "PUT") /\
  ~ accepted (js "/api/*") (js "/api/a%0Ab") (js "PUT").
Proof.
  pose proof (prefix_pattern (js "/api/") (js "/API/users//7/") (js "PUT")
                eq_refl eq_refl eq_refl) as A.
  pose proof (prefix_pattern (js "/api/") (js "/api/a%0Ab") (js "PUT")
                eq_refl eq_refl eq_refl) as B.
  split.
  - apply A. exists (js "/API/"), (js "users/7").
    repeat split. repeat constructor.
  - intros X. apply B in X as (pre & rest & E & U & F).
    change (normalizePath (js "/api/a%0Ab")) with (js "/api/a" ++ 10%N :: js "b") in E.
    assert (L : length pre = 5%nat).
    { apply (f_equal (@length N)) in U. unfold toUpperCase in U.
      now rewrite !length_map in U. }
    do 5 (destruct pre as [|? pre]; [discriminate L|]).
    destruct pre; [|discriminate L]. injection E as _ _ _ _ _ <-.
    inversion F as [|? ? _ F']; subst. inversion F' as [|? ? H _]. discriminate H.
Defined.

(** X5: a pattern of plain ASCII code units followed by a bracketed
    parameter accepts a request, whatever its method, exactly when the
    normalized path is the plain part, up to the case of ASCII letters,
    followed by one segment: a run, not empty, without slash. *)
Theorem parameter_pattern (prefix name path method : jsstring) :
  forallb plainUnit prefix = true ->
  ascii prefix = true ->
  noWhite prefix = true ->
  goodName name = true ->
  noWhite name = true ->
  accepted (prefix ++ LBRACKET :: name ++ [RBRACKET]) path method
  <-> exists pre segment,
        normalizePath path = pre ++ segment /\
        toUpperCase pre = toUpperCase prefix /\
        segment <> [] /\
        Forall (fun x => x <> SLASH) segment.
Proof.
  intros P _ W G Wn.
  assert (T : piecesText (literals prefix ++ [PParam name])
              = prefix ++ LBRACKET :: name ++ [RBRACKET]).
  { rewrite piecesText_app, literals_text. unfold piecesText.
    cbn [flat_map pieceText]. now rewrite app_nil_r. }
  rewrite <- T, accepted_pieces.
  - unfold literals. rewrite describes_literals. split.
    + intros (pre & rest & E & U & D). apply describes_param_last in D as [Hne F].
      now exists pre, rest.
    + intros (pre & rest & E & U & Hne & F). exists pre, rest.
      repeat split; try assumption. now apply describes_param_last.
  - rewrite forallb_app, literals_wellFormed, P. cbn. now rewrite G.
  - rewrite T, noWhite_app, W. cbn [noWhite forallb andb].
    change (negb (isWhiteSpace LBRACKET)) with true. cbn [andb].
    fold (noWhite (name ++ [RBRACKET])). rewrite noWhite_app, Wn. reflexivity.
Qed.

Lemma parameter_pattern_witness :
  accepted (js "/items/[id]") (js "/items/42") (js "GET") /\
  ~ accepted (js "/items/[id]") (js "/items/") (js "GET").
Proof.
  pose proof (parameter_pattern (js "/items/") (js "id") (js "/items/42") (js "GET")
                eq_refl eq_refl eq_refl eq_refl eq_refl) as A.
  pose proof (parameter_pattern (js "/items/") (js "id") (js "/items/") (js "GET")
                eq_refl eq_refl eq_refl eq_refl eq_refl) as B.
  split.
  - apply A. exists (js "/items/"), (js "42").
    repeat split; [discriminate|repeat constructor; discriminate].
  - intros X. apply B in X as (pre & seg & E & U & Hne & F).
    change (normalizePath (js "/items/")) with (js "/items") in E.
    assert (L : length pre = 7%nat).
    { apply (f_equal (@length N)) in U. unfold toUpperCase in U.
      now rewrite !length_map in U. }
    apply (f_equal (@length N)) in E. rewrite length_app, L in E.
    simpl in E. lia.
Defined.
Lemma option_map_app_nil (A : Type) (o : option (list A)) :
  option_map (app []) o = o.
Proof. now destruct o. Qed.

Lemma percentUnescape_app (a b : jsstring) (ia : list Item) :
  percentUnescape a = Some ia ->
  percentUnescape (a ++ b) = option_map (app ia) (percentUnescape b).
Proof.
  remember (length a) as n eqn:Hn.
  assert (Hle : length a <= n) by lia. clear Hn.
  revert a ia Hle. induction n as [|n IH]; intros a ia Hle.
  - destruct a; [|simpl in Hle; lia].
    intros [= <-]. now rewrite option_map_app_nil.
  - destruct a as [|c a].
    { intros [= <-]. now rewrite option_map_app_nil. }
    cbn [app percentUnescape]. simpl in Hle.
    destruct (N.eqb c PERCENT).
    + destruct a as [|h1 [|h2 a']]; try discriminate.
      cbn [app]. destruct (hexVal h1); [|discriminate].
      destruct (hexVal h2); [|discriminate].
      destruct (percentUnescape a') as [ia'|] eqn:E; [|discriminate].
      intros [= <-]. rewrite (IH a' ia') by (simpl in Hle; lia || assumption).
      now destruct (percentUnescape b).
    + destruct (percentUnescape a) as [ia'|] eqn:E; [|discriminate].
      intros [= <-]. rewrite (IH a ia') by (lia || assumption).
      now destruct (percentUnescape b).
Qed.

Lemma utf8Decode_app (a b : list Item) (da : jsstring) :
  utf8Decode a = Some da ->
  utf8Decode (a ++ b) = option_map (app da) (utf8Decode b).
Proof.
  remember (length a) as n eqn:Hn.
  assert (Hle : length a <= n) by lia. clear Hn.
  revert a da Hle. induction n as [|n IH]; intros a da Hle.
  - destruct a; [|simpl in Hle; lia].
    intros [= <-]. now rewrite option_map_app_nil.
  - assert (step : forall (pre : jsstring) (l : list Item) (d : jsstring),
               length l <= n ->
               option_map (app pre) (utf8Decode l) = Some d ->
               option_map (app pre) (utf8Decode (l ++ b))
               = option_map (app d) (utf8Decode b)).
    { intros pre l d Hl. destruct (utf8Decode l) as [dl|] eqn:E; [|discriminate].
      intros [= <-]. rewrite (IH l dl Hl E).
      destruct (utf8Decode b); [|reflexivity]. cbn [option_map].
      now rewrite app_assoc. }
    destruct a as [|[c|o] a].
    { intros [= <-]. now rewrite option_map_app_nil. }
    + cbn [app utf8Decode]. simpl in Hle.
      apply (step [c] a da). lia.
    + cbn [app utf8Decode]. simpl in Hle.
      destruct (o <? 128)%N; [apply (step [o] a da); lia|].
      destruct (o <? 192)%N; [discriminate|].
      destruct (o <? 224)%N.
      { destruct a as [|[?|b2] l2]; try discriminate. cbn [app].
        destruct (_ && _); [|discriminate]. apply step. simpl in Hle. lia. }
      destruct (o <? 240)%N.
      { destruct a as [|[?|b2] [|[?|b3] l3]]; try discriminate. cbn [app].
        destruct (_ && _); [|discriminate]. apply step. simpl in Hle. lia. }
      destruct (o <? 248)%N; [|discriminate].
      destruct a as [|[?|b2] [|[?|b3] [|[?|b4] l4]]]; try discriminate.
      cbn [app]. destruct (_ && _); [|discriminate]. apply step.
      simpl in Hle. lia.
Qed.

(** Decoding goes from left to right: what decodes stays decoded when more
    text follows. *)
Lemma decodeURIComponent_app (a b da : jsstring) :
  decodeURIComponent a = Some da ->
  decodeURIComponent (a ++ b) = option_map (app da) (decodeURIComponent b).
Proof.
  unfold decodeURIComponent.
  destruct (percentUnescape a) as [ia|] eqn:E; [|discriminate]. intros D.
  rewrite (percentUnescape_app a b E).
  destruct (percentUnescape b) as [ib|]; [|reflexivity]. cbn [option_map].
  now apply utf8Decode_app.
Qed.
Lemma beforeQuery_snoc (p : jsstring) (c : N) :
  c <> QUESTION -> c <> HASH ->
  beforeQuery (p ++ [c]) = beforeQuery p \/
  beforeQuery (p ++ [c]) = beforeQuery p ++ [c].
Proof.
  intros Hq Hh. induction p as [|x p IH]; cbn [app beforeQuery].
  - right. destruct (N.eqb_spec c QUESTION); [contradiction|].
    destruct (N.eqb_spec c HASH); [contradiction|]. reflexivity.
  - destruct (_ || _); [now left|].
    destruct IH as [-> | ->]; [now left|now right].
Qed.

Lemma backslashToSlash_app (a b : jsstring) :
  backslashToSlash (a ++ b) = backslashToSlash a ++ backslashToSlash b.
Proof. apply map_app. Qed.

Lemma backslashToSlash_nil (s : jsstring) : backslashToSlash s = [] -> s = [].
Proof. now destruct s. Qed.

Lemma collapseSlashes_nil (s : jsstring) : collapseSlashes s = [] -> s = [].
Proof.
  induction s as [|c s IH]; [reflexivity|]. rewrite collapseSlashes_cons.
  destruct (N.eqb c SLASH); [|discriminate].
  destruct s as [|c' s']; [discriminate|].
  destruct (N.eqb c' SLASH); [|discriminate].
  intros E. now discriminate (IH E).
Qed.

(** A slash added at the end is dropped when a slash stands there already,
    and kept otherwise. *)
Lemma collapseSlashes_snoc (s : jsstring) :
  collapseSlashes (s ++ [SLASH]) = collapseSlashes s \/
  collapseSlashes (s ++ [SLASH]) = collapseSlashes s ++ [SLASH].
Proof.
  induction s as [|c s IH]; [now right|].
  cbn [app]. rewrite !collapseSlashes_cons.
  destruct (N.eqb_spec c SLASH) as [->|Hc].
  - destruct s as [|c' s'].
    + now left.
    + cbn [app] in *. destruct (N.eqb c' SLASH).
      * exact IH.
      * destruct IH as [-> | ->]; [now left|now right].
  - destruct IH as [-> | ->]; [now left|now right].
Qed.

Lemma stripTrailingSlashes_cons (c : N) (w : jsstring) :
  isLineTerminator c = false ->
  stripTrailingSlashes (c :: w)
  = if slashesToEnd w then [c] else c :: stripTrailingSlashes w.
Proof.
  intros LT.
  change (stripTrailingSlashes (c :: w))
    with (match lazyGroupAt (c :: w) with
          | Some g => g
          | None => c :: stripTrailingSlashes w
          end).
  change (lazyGroupAt (c :: w))
    with (if isLineTerminator c then None
          else if slashesToEnd w then Some [c]
          else option_map (cons c) (lazyGroupAt w)).
  rewrite LT. destruct (slashesToEnd w); [reflexivity|].
  destruct w as [|x w']; [reflexivity|].
  change (stripTrailingSlashes (x :: w'))
    with (match lazyGroupAt (x :: w') with
          | Some g => g
          | None => x :: stripTrailingSlashes w'
          end).
  destruct (lazyGroupAt (x :: w')); reflexivity.
Qed.

Lemma slashesToEnd_snoc (s : jsstring) :
  s <> [] -> slashesToEnd (s ++ [SLASH]) = slashesToEnd s.
Proof.
  induction s as [|c s IH]; [contradiction|]. intros _.
  cbn [app slashesToEnd]. destruct s as [|c' s'].
  - cbn [app slashesToEnd]. change (N.eqb SLASH SLASH) with true. reflexivity.
  - cbn [app] in *. rewrite IH by discriminate. reflexivity.
Qed.

(** After a string without line terminators, a slash at the end is
    stripped. *)
Lemma stripTrailingSlashes_snoc (s : jsstring) :
  s <> [] -> Forall (fun x => isLineTerminator x = false) s ->
  stripTrailingSlashes (s ++ [SLASH]) = stripTrailingSlashes s.
Proof.
  intros Hs F. induction F as [|c s Hc F IH]; [contradiction|].
  cbn [app]. rewrite !stripTrailingSlashes_cons by assumption.
  destruct s as [|c' s'].
  - reflexivity.
  - rewrite slashesToEnd_snoc by discriminate.
    destruct (slashesToEnd (c' :: s')); [reflexivity|].
    now rewrite IH.
Qed.

Section SlashFacts.
Context `{Externals}.

(** X8: a slash added at the end of a path changes neither the normalized
    path nor the route found, provided that the part before the first [?]
    or [#] decodes to a text that is not empty and holds no line
    terminator. *)
Theorem trailing_slash_is_ignored (p d : jsstring) :
  decodeURIComponent (beforeQuery p) = Some d ->
  d <> [] ->
  Forall (fun x => isLineTerminator x = false) d ->
  normalizePath (p ++ [SLASH]) = normalizePath p /\
  forall srv method,
    getRouteConfig srv (p ++ [SLASH]) method = getRouteConfig srv p method.
Proof.
  intros D Hd F.
  assert (E : normalizePath (p ++ [SLASH]) = normalizePath p).
  { unfold normalizePath.
    destruct (@beforeQuery_snoc p SLASH) as [-> | ->]; try discriminate.
    { now rewrite D. }
    rewrite (decodeURIComponent_app _ [SLASH] D), D.
    change (decodeURIComponent [SLASH]) with (Some [SLASH]).
    cbn [option_map]. rewrite backslashToSlash_app.
    change (backslashToSlash [SLASH]) with [SLASH].
    destruct (collapseSlashes_snoc (backslashToSlash d)) as [-> | ->];
      [reflexivity|].
    apply stripTrailingSlashes_snoc.
    - intros N0. apply collapseSlashes_nil, backslashToSlash_nil in N0.
      contradiction.
    - apply collapseSlashes_Forall, backslashToSlash_Forall; [reflexivity|].
      exact F. }
  split; [exact E|]. intros srv method. unfold getRouteConfig. now rewrite E.
Qed.

End SlashFacts.

Lemma trailing_slash_is_ignored_witness :
  normalizePath (js "/caf%C3%A9\menu//") = normalizePath (js "/caf%C3%A9\menu/") /\
  normalizePath (js "/") <> normalizePath [] /\
  normalizePath (js "/a%0A/") <> normalizePath (js "/a%0A").
Proof.
  split; [|split; [discriminate|discriminate]].
  change (js "/caf%C3%A9\menu//") with (js "/caf%C3%A9\menu/" ++ [SLASH]).
  refine (proj1 (@trailing_slash_is_ignored Demo.externals (js "/caf%C3%A9\menu/")
            [47; 99; 97; 102; 233; 92; 109; 101; 110; 117; 47]%N
            eq_refl _ _)).
  - discriminate.
  - repeat constructor.
Defined.

(** ** More on route lookup and on path normalization *)

Section LookupFacts.
Context `{Externals}.

(** X6: a server made from a single route config gates every request whose
    normalized path holds no line terminator, whatever the method, and no
    other: the pattern [*] becomes a dot under a star, and the dot does not
    accept a line terminator. *)
Theorem single_config_applies (rs : x402ResourceServer) (cfg : RouteConfig) :
  exists srv,
    new_x402HTTPResourceServer rs (SingleRoute cfg) = Some srv /\
    forall path method,
      getRouteConfig srv path method
      = if forallb (fun x => negb (isLineTerminator x)) (normalizePath path)
        then Some cfg else None.
Proof.
  eexists. split; [reflexivity|]. intros path method.
  unfold getRouteConfig. cbn [compiledRoutes List.find].
  unfold routeAccepts. cbn [regex verb].
  change (str_eqb (js "*") (js "*")) with true. cbn [orb]. rewrite andb_true_r.
  match goal with
  | |- context [RegExp.test ?r _] => change r with (piecesRegex [PWild])
  end.
  pose proof (test_pieces [PWild] (normalizePath path)) as T.
  rewrite describes_wild_last in T.
  destruct (RegExp.test _ _) eqn:E.
  - assert (F : Forall (fun x => isLineTerminator x = false) (normalizePath path))
      by now apply T.
    assert (B : forallb (fun x => negb (isLineTerminator x)) (normalizePath path)
                = true).
    { apply forallb_forall. intros x Hx.
      apply (proj1 (List.Forall_forall _ _) F) in Hx. now rewrite Hx. }
    now rewrite B.
  - destruct (forallb _ _) eqn:B; [|reflexivity].
    assert (F : Forall (fun x => isLineTerminator x = false) (normalizePath path)).
    { apply List.Forall_forall. intros x Hx.
      apply (proj1 (forallb_forall _ _) B) in Hx. now apply negb_true_iff. }
    apply T in F. discriminate F.
Qed.

End LookupFacts.

Lemma beforeQuery_cut (p q : jsstring) (c : N) :
  c = QUESTION \/ c = HASH -> beforeQuery (p ++ c :: q) = beforeQuery p.
Proof.
  intros C. induction p as [|x p IH]; cbn [app beforeQuery].
  - destruct C as [-> | ->]; reflexivity.
  - now rewrite IH.
Qed.

Section QueryFacts.
Context `{Externals}.

(** X7: when the part of the path before the first [?] or [#] decodes, a
    query or a fragment added to the path changes neither the normalized
    path nor the route found.  When that part does not decode, the
    normalized path is the raw path, with what was added. *)
Theorem query_is_ignored (p q : jsstring) (c : N) :
  c = QUESTION \/ c = HASH ->
  (decodeURIComponent (beforeQuery p) <> None ->
   normalizePath (p ++ c :: q) = normalizePath p /\
   forall srv method,
     getRouteConfig srv (p ++ c :: q) method = getRouteConfig srv p method) /\
  (decodeURIComponent (beforeQuery p) = None ->
   normalizePath (p ++ c :: q) = p ++ c :: q).
Proof.
  intros C. unfold getRouteConfig, normalizePath.
  rewrite (beforeQuery_cut p q C). split.
  - destruct (decodeURIComponent (beforeQuery p)); [|contradiction].
    intros _. split; reflexivity.
  - now intros ->.
Qed.

End QueryFacts.

Lemma query_is_ignored_witness :
  normalizePath (js "/a%20b/?page=2") = js "/a b" /\
  normalizePath (js "/a%2/?page=2") = js "/a%2/?page=2".
Proof.
  split.
  - change (js "/a%20b/?page=2") with (js "/a%20b/" ++ QUESTION :: js "page=2").
    rewrite (proj1 (proj1 (query_is_ignored (H := Demo.externals)
                             (js "/a%20b/") (js "page=2") (or_introl eq_refl))
                          ltac:(discriminate))).
    reflexivity.
  - change (js "/a%2/?page=2") with (js "/a%2/" ++ QUESTION :: js "page=2").
    exact (proj2 (query_is_ignored (H := Demo.externals)
                    (js "/a%2/") (js "page=2") (or_introl eq_refl)) eq_refl).
Defined.

(** ** Separators *)

Section SeparatorFacts.

Lemma collapseSlashes_double (a b : jsstring) :
  length (collapseSlashes (a ++ SLASH :: SLASH :: b))
  < length (a ++ SLASH :: SLASH :: b).
Proof.
  induction a as [|c a IH].
  - cbn [app]. rewrite collapseSlashes_cons.
    change (N.eqb SLASH SLASH) with true. cbn iota.
    pose proof (collapseSlashes_length (SLASH :: b)). cbn [length] in *. lia.
  - cbn [app]. rewrite collapseSlashes_cons.
    destruct (N.eqb c SLASH).
    + destruct a as [|c' a']; cbn [app] in *.
      * change (N.eqb SLASH SLASH) with true. cbn iota. cbn [length] in *. lia.
      * destruct (N.eqb c' SLASH); cbn [length] in *; lia.
    + cbn [length] in *. lia.
Qed.

Lemma lazyGroupAt_rest (s g : jsstring) :
  lazyGroupAt s = Some g -> exists t, s = g ++ t /\ slashesToEnd t = true.
Proof.
  revert g. induction s as [|c s IH]; intros g; simpl; [discriminate|].
  destruct (isLineTerminator c); [discriminate|].
  destruct (slashesToEnd s) eqn:S.
  - intros [= <-]. now exists s.
  - destruct (lazyGroupAt s) as [g'|]; simpl; [|discriminate].
    intros [= <-]. destruct (IH g' eq_refl) as (t & -> & T). now exists t.
Qed.

Lemma stripTrailingSlashes_rest (s : jsstring) :
  exists t, s = stripTrailingSlashes s ++ t /\ (t = [] \/ slashesToEnd t = true).
Proof.
  induction s as [|c s (t & E & T)].
  - exists []. split; [reflexivity|now left].
  - cbn [stripTrailingSlashes].
    destruct (lazyGroupAt (c :: s)) as [g|] eqn:G.
    + destruct (lazyGroupAt_rest _ G) as (t' & E' & T'). exists t'.
      split; [exact E'|now right].
    + exists t. split; [|exact T]. cbn [app]. now rewrite <- E.
Qed.

Lemma slashesToEnd_shape (t : jsstring) :
  slashesToEnd t = true -> t = [SLASH] \/ exists t', t = SLASH :: SLASH :: t'.
Proof.
  destruct t as [|c [|c' t']]; cbn [slashesToEnd]; [discriminate| |].
  - intros [E _]%andb_prop. apply N.eqb_eq in E as ->. now left.
  - intros [E [E' _]%andb_prop]%andb_prop.
    apply N.eqb_eq in E as ->. apply N.eqb_eq in E' as ->. right. now exists t'.
Qed.

(** X20: the separators of a normalized path.  When the part of the path
    before the first [?] or [#] decodes, the normalized path holds no
    backslash and no two slashes in a row, and it is the decoded text, with
    each backslash turned into a slash and each run of slashes into one,
    less at most one slash at its end. *)
Theorem normalizePath_separators (p d : jsstring) :
  decodeURIComponent (beforeQuery p) = Some d ->
  let r := normalizePath p in
  Forall (fun c => c <> BACKSLASH) r /\
  (forall a b, r <> a ++ SLASH :: SLASH :: b) /\
  (collapseSlashes (backslashToSlash d) = r \/
   collapseSlashes (backslashToSlash d) = r ++ [SLASH]).
Proof.
  intros D r. subst r. unfold normalizePath. rewrite D.
  set (c := collapseSlashes (backslashToSlash d)).
  assert (I : collapseSlashes c = c) by apply collapseSlashes_idem.
  assert (B : Forall (fun x => x <> BACKSLASH) c)
    by apply collapseSlashes_Forall, backslashToSlash_clean.
  assert (ND : forall a b, c <> a ++ SLASH :: SLASH :: b).
  { intros a b E. pose proof (collapseSlashes_double a b) as L.
    rewrite <- E, I in L. lia. }
  destruct (stripTrailingSlashes_rest c) as (t & E & T).
  split; [|split].
  - rewrite E in B. now apply Forall_app in B as [? _].
  - intros a b R. apply (ND a (b ++ t)). rewrite E, R, <- app_assoc. reflexivity.
  - destruct T as [->|T]; [left; now rewrite app_nil_r in E|].
    destruct (slashesToEnd_shape _ T) as [->|(t' & ->)]; [now right|].
    exfalso. exact (ND _ _ E).
Qed.

Lemma normalizePath_separators_witness :
  normalizePath (js "\\api%5C%5Cv1///users/%2F/") = js "/api/v1/users".
Proof.
  destruct (@normalizePath_separators (js "\\api%5C%5Cv1///users/%2F/")
              (js "\\api\\v1///users///") eq_refl) as (_ & _ & [E|E]).
  - vm_compute in E. discriminate E.
  - change (collapseSlashes (backslashToSlash (js "\\api\\v1///users///")))
      with (js "/api/v1/users" ++ [SLASH]) in E.
    apply app_inj_tail in E as [E _]. now rewrite <- E.
Defined.

End SeparatorFacts.

(** ** What a request does and does not do *)

Section CallFacts.
Context `{Externals}.

Ltac follow_calls :=
  match goal with
  | |- issues _ (ret _) => apply issues_ret
  | |- issues _ (throw _) => apply issues_throw
  | |- issues _ (call _ _) => apply issues_call; cbn; auto
  | |- issues _ (bind _ _) => apply issues_bind; [|intros ?]
  | |- issues _ (try_catch _ _) => apply issues_try_catch; [|intros ?]
  | |- issues _ (match ?x with _ => _ end) => destruct x
  | |- issues _ (if ?x then _ else _) => destruct x
  end.

(** The tail of every refusal of a proof: a descriptor is created and put
    in the response of an API client. *)
Lemma refusal_tail (srv : x402HTTPResourceServer) (pc : option PaywallConfig)
    (c : Call) (op : World -> Outcome PaymentRequired * World)
    (st st' : Store World) (result : HTTPProcessResult) :
  (let! errorResponse := call c op in
   let! response := createHTTPResponse srv errorResponse false pc None None in
   ret (PaymentError response)) st = (Returned result, st') ->
  exists resp, result = PaymentError resp /\ jsonRefusal resp.
Proof.
  unfold bind, call, ret. destruct (op (world st)) as [[pr|e] w]; [|discriminate].
  destruct (createHTTPResponse_api srv pr pc None None
              {| world := w; trace := trace st ++ [c] |})
    as (resp & E & S & P & C & B & I).
  rewrite E. intros [= <- _]. exists resp. split; [reflexivity|].
  repeat split; try assumption. now exists pr.
Qed.

Lemma verifyBlock_result (srv : x402HTTPResourceServer) (rc : RouteConfig)
    (pc : option PaywallConfig) (reqs : list PaymentRequirements)
    (info : ResourceInfo) (pr : PaymentRequired) (proof : PaymentPayload)
    (st st' : Store World) (result : HTTPProcessResult) :
  verifyBlock srv rc pc reqs info pr proof st = (Returned result, st') ->
  (exists matching, result = PaymentVerified proof matching) \/
  (exists resp, result = PaymentError resp /\ jsonRefusal resp).
Proof.
  unfold verifyBlock. unfold bind at 1. unfold call at 1.
  destruct (findMatchingRequirements _ _ _ _) as [[[matching|]|e] w];
    [| |discriminate].
  - unfold bind at 1. unfold call at 1.
    destruct (verifyPayment _ _ _ _) as [[verdict|e] w2]; [|discriminate].
    destruct (isValid verdict); cbn [negb].
    + intros [= <- _]. left. now exists matching.
    + intros E. right. exact (refusal_tail _ _ _ _ _ E).
  - intros E. right. exact (refusal_tail _ _ _ _ _ E).
Qed.

Lemma processGated_paid_result (srv : x402HTTPResourceServer) (rc : RouteConfig)
    (context : HTTPRequestContext) (pc : option PaywallConfig)
    (proof : PaymentPayload) (st st' : Store World)
    (result : HTTPProcessResult) :
  extractPayment (adapter context) = Some proof ->
  processGated srv rc context pc st = (Returned result, st') ->
  (exists matching, result = PaymentVerified proof matching) \/
  (exists resp, result = PaymentError resp /\ jsonRefusal resp).
Proof.
  intros P. unfold processGated. rewrite P. unfold bind at 1.
  destruct (prepareRequirements _ _ _ _ _) as [[[reqs pr]|e] st1];
    [|discriminate].
  cbn [fst snd]. unfold try_catch.
  destruct (verifyBlock _ _ _ _ _ _ _ _) as [[r|e] st2] eqn:V.
  - intros [= <- _]. exact (verifyBlock_result _ _ _ _ _ _ _ _ V).
  - intros E. right. exact (refusal_tail _ _ _ _ _ E).
Qed.

Lemma processGated_unpaid_result (srv : x402HTTPResourceServer)
    (rc : RouteConfig) (context : HTTPRequestContext)
    (pc : option PaywallConfig) (st st' : Store World)
    (result : HTTPProcessResult) :
  extractPayment (adapter context) = None ->
  processGated srv rc context pc st = (Returned result, st') ->
  exists resp, result = PaymentError resp /\ status resp = 402%N /\
    (isWebBrowser (adapter context) = true ->
     isHtml resp = Some true /\
     headers resp = {[ js "Content-Type" := js "text/html" ]} /\
     exists html, body resp = Some (HtmlBody html)) /\
    (isWebBrowser (adapter context) = false ->
     isHtml resp = None /\
     exists pr, headers resp !! js "PAYMENT-REQUIRED"
                = Some (encodePaymentRequiredHeader pr)).
Proof.
  intros P. unfold processGated. rewrite P. unfold bind at 1.
  destruct (prepareRequirements _ _ _ _ _) as [[[reqs pr]|e] st1];
    [|discriminate].
  cbn [fst snd]. unfold bind at 1.
  destruct (resolveUnpaidBody _ _ _) as [[unpaid|e] st2]; [|discriminate].
  unfold bind at 1.
  destruct (isWebBrowser (adapter context)) eqn:B.
  - unfold createHTTPResponse, bind, ret.
    destruct (generatePaywallHTML _ _ _ _ _) as [[html|e] st3]; [|discriminate].
    intros [= <- _]. eexists. split; [reflexivity|]. split; [reflexivity|].
    split; [|discriminate]. intros _. cbn. repeat split. now exists html.
  - destruct (createHTTPResponse_api srv pr pc (customPaywallHtml rc) unpaid st2)
      as (resp & E & S & Hp & _ & _ & I).
    rewrite E. unfold ret. intros [= <- _]. exists resp.
    split; [reflexivity|]. split; [exact S|]. split; [discriminate|].
    intros _. split; [exact I|]. now exists pr.
Qed.

(** X9: a request that carries a proof is answered without the paywall
    and without the custom body of the route, browser or not: it calls
    neither the paywall provider nor the unpaid-response callback, and it
    does not settle; when it is refused, the response is the JSON one, with
    the descriptor in the header and the empty object as body. *)
Theorem paid_request_never_renders (srv : x402HTTPResourceServer)
    (context : HTTPRequestContext) (pc : option PaywallConfig)
    (proof : PaymentPayload) :
  extractPayment (adapter context) = Some proof ->
  issues paidCall (processHTTPRequest srv context pc) /\
  forall st result st',
    processHTTPRequest srv context pc st = (Returned result, st') ->
    result = NoPaymentRequired \/
    (exists matching, result = PaymentVerified proof matching) \/
    (exists resp, result = PaymentError resp /\ jsonRefusal resp).
Proof.
  intros P. split.
  - unfold processHTTPRequest, processGated. rewrite P.
    unfold prepareRequirements, verifyBlock, verifyHandler, createHTTPResponse.
    repeat follow_calls.
  - intros st result st'. unfold processHTTPRequest.
    destruct (getRouteConfig _ _ _) as [rc|].
    + intros E. right. eapply processGated_paid_result; eassumption.
    + intros [= <- _]. now left.
Qed.

(** X10: a request without a proof is never matched or verified, and
    nothing is settled: its calls build the requirements and the
    descriptor, whose reason is [Payment required], and then may ask for
    the custom body and for the paywall page.  The paywall provider is
    called for browsers only, and not when the route has a page of its
    own.  A browser gets a page and no [PAYMENT-REQUIRED] header; an API
    client gets the header. *)
Theorem unpaid_request_never_verifies (srv : x402HTTPResourceServer)
    (context : HTTPRequestContext) (pc : option PaywallConfig) :
  extractPayment (adapter context) = None ->
  issues unpaidCall (processHTTPRequest srv context pc) /\
  (isWebBrowser (adapter context) = false \/
   (exists rc html,
       getRouteConfig srv (path context) (method context) = Some rc /\
       customPaywallHtml rc = Some html /\ truthy html = true) ->
   issues (fun c => c <> CallGenerateHtml) (processHTTPRequest srv context pc)) /\
  forall st result st',
    processHTTPRequest srv context pc st = (Returned result, st') ->
    result = NoPaymentRequired \/
    exists resp, result = PaymentError resp /\ status resp = 402%N /\
      (isWebBrowser (adapter context) = true ->
       isHtml resp = Some true /\
       headers resp !! js "PAYMENT-REQUIRED" = None) /\
      (isWebBrowser (adapter context) = false ->
       isHtml resp = None /\
       exists pr, headers resp !! js "PAYMENT-REQUIRED"
                  = Some (encodePaymentRequiredHeader pr)).
Proof.
  intros P. split; [|split].
  - unfold processHTTPRequest, processGated. rewrite P.
    unfold prepareRequirements, resolveUnpaidBody, createHTTPResponse,
      generatePaywallHTML.
    repeat follow_calls.
  - intros C. unfold processHTTPRequest, processGated. rewrite P.
    destruct (getRouteConfig _ _ _) as [rc|] eqn:G; [|apply issues_ret].
    assert (R : forall pr unpaid,
               issues (fun c => c <> CallGenerateHtml)
                 (createHTTPResponse srv pr (isWebBrowser (adapter context)) pc
                                     (customPaywallHtml rc) unpaid)).
    { intros pr unpaid. destruct C as [-> | (rc' & html & [= <-] & Hc & T)].
      - unfold createHTTPResponse. apply issues_ret.
      - unfold createHTTPResponse, generatePaywallHTML. rewrite Hc, T.
        repeat follow_calls. }
    unfold prepareRequirements, resolveUnpaidBody.
    repeat first [apply R | follow_calls]; discriminate.
  - intros st result st'. unfold processHTTPRequest.
    destruct (getRouteConfig _ _ _) as [rc|]; [|intros [= <- _]; now left].
    intros E. right.
    destruct (processGated_unpaid_result _ _ _ _ _ P E)
      as (resp & -> & S & Hb & Ha).
    exists resp. split; [reflexivity|]. split; [exact S|]. split; [|exact Ha].
    intros B. destruct (Hb B) as (I & Hh & _). split; [exact I|].
    rewrite Hh. reflexivity.
Qed.

(** X11: [requiresPayment] tells what [processHTTPRequest] will do: the
    request is let through, with no call made and the state untouched,
    exactly when [requiresPayment] is false. *)
Theorem requiresPayment_agrees (srv : x402HTTPResourceServer)
    (context : HTTPRequestContext) (pc : option PaywallConfig)
    (st : Store World) :
  (requiresPayment srv context = false <->
   fst (processHTTPRequest srv context pc st) = Returned NoPaymentRequired) /\
  (requiresPayment srv context = false ->
   processHTTPRequest srv context pc st = (Returned NoPaymentRequired, st)).
Proof.
  unfold requiresPayment, processHTTPRequest.
  destruct (getRouteConfig _ _ _) as [rc|].
  - split; [|discriminate]. split; [discriminate|]. intros E.
    destruct (processGated srv rc context pc st) as [r st'] eqn:G.
    cbn [fst] in E. subst r.
    destruct (extractPayment (adapter context)) as [proof|] eqn:P.
    + destruct (processGated_paid_result _ _ _ _ _ P G)
        as [(m & [=])|(resp & [=] & _)].
    + destruct (processGated_unpaid_result _ _ _ _ _ P G) as (resp & [=] & _).
  - split; [|reflexivity]. split; reflexivity.
Qed.

End CallFacts.

Section MoreInstances.
#[local] Existing Instance Demo.externals.
Import Demo Cases.

Lemma paid_request_never_renders_witness :
  isWebBrowser (adapter browserPaying) = true /\
  exists resp st',
    processHTTPRequest (serving invalid) browserPaying None start
    = (Returned (PaymentError resp), st') /\
    jsonRefusal resp.
Proof.
  split; [reflexivity|].
  destruct (paid_request_never_renders (serving invalid) browserPaying None
              (proof := js "proof:abc") eq_refl) as (_ & R).
  assert (E : exists resp st',
             processHTTPRequest (serving invalid) browserPaying None start
             = (Returned (PaymentError resp), st')).
  { eexists _, _. vm_compute. reflexivity. }
  destruct E as (resp & st' & E).
  destruct (R _ _ _ E) as [[=]|[(m & [=])|(resp' & [= <-] & J)]].
  exists resp, st'. split; [exact E|exact J].
Defined.

Lemma unpaid_request_never_verifies_witness :
  exists resp st',
    processHTTPRequest (serving honest) browsing None start
    = (Returned (PaymentError resp), st') /\
    isHtml resp = Some true /\
    headers resp !! js "PAYMENT-REQUIRED" = None /\
    trace st' = [CallBuildRequirements;
                 CallCreatePaymentRequired (Some (js "Payment required"))].
Proof.
  destruct (unpaid_request_never_verifies (serving honest) browsing None
              eq_refl) as (_ & _ & R).
  assert (E : exists resp st',
             processHTTPRequest (serving honest) browsing None start
             = (Returned (PaymentError resp), st') /\
             trace st' = [CallBuildRequirements;
                          CallCreatePaymentRequired (Some (js "Payment required"))]).
  { eexists _, _. split; vm_compute; reflexivity. }
  destruct E as (resp & st' & E & T).
  destruct (R _ _ _ E) as [[=]|(resp' & [= <-] & _ & B & _)].
  destruct (B eq_refl) as (I & Hh).
  exists resp, st'. repeat split; assumption.
Defined.

End MoreInstances.

(** ** The paywall provider, startup, and the fields of a pattern *)

Section ProviderFacts.
Context `{Externals}.

(** X12: once a paywall provider is registered, it makes the page of
    every route that has none of its own: the optional package and the
    inline page are not used, and an exception of the provider is not
    caught, so that no response is built.  Registering changes neither
    the routes nor what is matched, and the last registration wins. *)
Theorem registered_provider_is_used (srv : x402HTTPResourceServer)
    (provider : PaywallProvider) (pr : PaymentRequired)
    (pc : option PaywallConfig) (customHtml : option jsstring)
    (st : Store World) :
  customHtml = None \/ customHtml = Some [] ->
  let srv' := registerPaywallProvider srv provider in
  let made := generateHtml provider pr pc (world st) in
  generatePaywallHTML srv' pr pc customHtml st
  = (fst made, {| world := snd made; trace := trace st ++ [CallGenerateHtml] |}) /\
  (forall unpaid e,
      fst made = Thrown e ->
      fst (createHTTPResponse srv' pr true pc customHtml unpaid st) = Thrown e) /\
  (forall unpaid html,
      fst made = Returned html ->
      fst (createHTTPResponse srv' pr true pc customHtml unpaid st)
      = Returned {| status := 402;
                    headers := {[ js "Content-Type" := js "text/html" ]};
                    body := Some (HtmlBody html);
                    isHtml := Some true |}) /\
  (forall path method,
      getRouteConfig srv' path method = getRouteConfig srv path method) /\
  (forall other,
      registerPaywallProvider (registerPaywallProvider srv other) provider = srv').
Proof.
  intros C srv' made. subst made.
  destruct (generateHtml provider pr pc (world st)) as [o w] eqn:M.
  cbn [fst snd].
  assert (G : generatePaywallHTML srv' pr pc customHtml st
              = (o, {| world := w; trace := trace st ++ [CallGenerateHtml] |})).
  { unfold generatePaywallHTML, srv', registerPaywallProvider.
    cbn [paywallProvider].
    destruct C as [-> | ->]; cbn [truthy]; unfold call; now rewrite M. }
  split; [exact G|]. split; [|split; [|split]].
  - intros unpaid e ->. unfold createHTTPResponse, bind. now rewrite G.
  - intros unpaid html ->. unfold createHTTPResponse, bind. now rewrite G.
  - reflexivity.
  - reflexivity.
Qed.

Lemma validateOption_length (rs : x402ResourceServer) (w : World)
    (pattern : jsstring) (options : list PaymentOption) :
  length (flat_map (validateOption rs w pattern) options) <= length options.
Proof.
  induction options as [|o options IH]; [reflexivity|].
  cbn [flat_map]. rewrite length_app. cbn [length].
  assert (length (validateOption rs w pattern o) <= 1).
  { unfold validateOption. destruct (negb _); [reflexivity|].
    destruct (getSupportedKind _ _ _ _ _); cbn; lia. }
  lia.
Qed.

Lemma validateOption_nil (rs : x402ResourceServer) (w : World)
    (pattern : jsstring) (o : PaymentOption) :
  validateOption rs w pattern o = [] <-> optionValid rs w o.
Proof.
  unfold validateOption, optionValid.
  destruct (hasRegisteredScheme _ _ _ _); cbn [negb].
  - destruct (getSupportedKind _ _ _ _ _).
    + split; [intros _; split; [reflexivity|discriminate]|reflexivity].
    + split; [discriminate|intros [_ N0]; now destruct N0].
  - split; [discriminate|intros [[=] _]].
Qed.

Lemma flat_map_nil (A B : Type) (f : A -> list B) (l : list A) :
  flat_map f l = [] <-> Forall (fun a => f a = []) l.
Proof.
  induction l as [|a l IH]; [split; [constructor|reflexivity]|].
  cbn [flat_map]. split.
  - intros [Ha Hl]%app_eq_nil. constructor; [exact Ha|now apply IH].
  - intros F. inversion F as [|? ? Ha Hl]; subst.
    rewrite Ha. now apply IH.
Qed.

Lemma validateRouteConfiguration_length (srv : x402HTTPResourceServer)
    (w : World) :
  length (validateRouteConfiguration srv w) <= length (allOptions srv).
Proof.
  unfold validateRouteConfiguration, allOptions.
  induction (normalizedRoutes (routesConfig srv)) as [|e l IH]; [reflexivity|].
  cbn [flat_map]. rewrite !length_app.
  pose proof (validateOption_length (ResourceServer srv) w (fst e)
                (normalizePaymentOptions (snd e))).
  lia.
Qed.

Lemma validateRouteConfiguration_nil (srv : x402HTTPResourceServer) (w : World) :
  validateRouteConfiguration srv w = [] <->
  Forall (optionValid (ResourceServer srv) w) (allOptions srv).
Proof.
  unfold validateRouteConfiguration, allOptions.
  induction (normalizedRoutes (routesConfig srv)) as [|e l IH];
    [split; [constructor|reflexivity]|].
  cbn [flat_map]. split.
  - intros [He Hl]%app_eq_nil. apply Forall_app. split; [|now apply IH].
    apply flat_map_nil in He.
    eapply List.Forall_impl; [|exact He]. intros o. apply validateOption_nil.
  - intros [He Hl]%Forall_app. apply IH in Hl. rewrite Hl, app_nil_r.
    apply flat_map_nil.
    eapply List.Forall_impl; [|exact He]. intros o. apply validateOption_nil.
Qed.

(** X13: how [initialize] ends.  It calls the initialization of the
    resource server once and nothing else.  It returns exactly when that
    call returns and every option of every route is valid in the world
    it leaves.  It throws either what that call throws, without
    validating, or one [RouteConfigurationError] whose list of errors is
    not empty and has at most one error per option. *)
Theorem initialize_failure_modes (srv : x402HTTPResourceServer)
    (st : Store World) :
  let rs := ResourceServer srv in
  let started := rs_initialize rs (world st) in
  snd (initialize srv st)
  = {| world := snd started; trace := trace st ++ [CallInitialize] |} /\
  match fst (initialize srv st) with
  | Returned _ =>
      fst started = Returned tt /\
      Forall (optionValid rs (snd started)) (allOptions srv)
  | Thrown e =>
      fst started = Thrown e \/
      (fst started = Returned tt /\
       ~ Forall (optionValid rs (snd started)) (allOptions srv) /\
       exists errors,
         e = newRouteConfigurationError errors /\
         errors = validateRouteConfiguration srv (snd started) /\
         errors <> [] /\
         length errors <= length (allOptions srv))
  end.
Proof.
  intros rs started. unfold initialize, bind, call. fold rs. fold started.
  destruct started as [[[]|e] w]; cbn [fst snd world].
  - pose proof (validateRouteConfiguration_nil srv w) as N0.
    pose proof (validateRouteConfiguration_length srv w) as L.
    destruct (validateRouteConfiguration srv w) as [|x errors] eqn:V.
    + cbn. split; [reflexivity|]. split; [reflexivity|]. now apply N0.
    + cbn. split; [reflexivity|]. right. split; [reflexivity|]. split.
      * intros F. apply N0 in F. discriminate F.
      * exists (x :: errors). repeat split; [discriminate|exact L].
  - split; [reflexivity|]. now left.
Qed.

End ProviderFacts.

Lemma dropSpaces_head (c : N) (s : jsstring) :
  isWhiteSpace c = false -> dropSpaces (c :: s) = c :: s.
Proof. intros W. cbn [dropSpaces]. now rewrite W. Qed.

Lemma includes_middle (a b : jsstring) : includes (a ++ SPACE :: b) (js " ") = true.
Proof. apply includes_spec. now exists a, b. Qed.

Lemma toUpperCase_nil (s : jsstring) : toUpperCase s = [] -> s = [].
Proof. now destruct s. Qed.

(** X14: the fields of a pattern.  A pattern that holds a space is cut at
    its runs of white space and only the first two fields count: what
    follows the path is dropped.  A pattern that starts with a space has
    the empty verb, and so accepts no request whose method is not
    empty. *)
Theorem pattern_fields (verb p junk : jsstring) :
  noWhite verb = true -> noWhite p = true -> p <> [] ->
  parseRoutePattern (verb ++ SPACE :: p ++ SPACE :: junk)
  = parseRoutePattern (verb ++ SPACE :: p) /\
  (forall path method,
      accepted (verb ++ SPACE :: p ++ SPACE :: junk) path method
      <-> accepted (verb ++ SPACE :: p) path method) /\
  (forall path method,
      accepted (SPACE :: p ++ junk) path method -> method = []).
Proof.
  intros Wv Wp Np.
  assert (D : declaredVerb (verb ++ SPACE :: p ++ SPACE :: junk) = verb /\
              declaredPath (verb ++ SPACE :: p ++ SPACE :: junk) = p).
  { unfold declaredVerb, declaredPath, splitVerbPath.
    rewrite includes_middle. cbn [fst snd].
    rewrite takeUntilSpace_noWhite by exact Wv.
    rewrite dropUntilSpace_noWhite by exact Wv.
    destruct p as [|c p']; [contradiction|]. cbn [noWhite forallb] in Wp.
    apply andb_prop in Wp as [Wc Wp']. apply negb_true_iff in Wc.
    change (dropSpaces (SPACE :: (c :: p') ++ SPACE :: junk))
      with (dropSpaces ((c :: p') ++ SPACE :: junk)).
    cbn [app]. rewrite dropSpaces_head by exact Wc.
    change (c :: p' ++ SPACE :: junk) with ((c :: p') ++ SPACE :: junk).
    rewrite takeUntilSpace_noWhite; [now split|].
    cbn [noWhite forallb]. now rewrite Wc, Wp'. }
  destruct D as [Dv Dp]. destruct (@declared_verb verb p Wv Wp) as [Ev Ep].
  split; [|split].
  - now rewrite !parseRoutePattern_declared, Dv, Dp, Ev, Ep.
  - intros path method. unfold accepted. now rewrite Dv, Dp, Ev, Ep.
  - intros path method (regex & _ & _ & V).
    assert (E : declaredVerb (SPACE :: p ++ junk) = []).
    { unfold declaredVerb.
      change (SPACE :: p ++ junk) with ([] ++ SPACE :: p ++ junk).
      rewrite includes_middle. reflexivity. }
    rewrite E in V. destruct V as [V|V]; [discriminate V|].
    symmetry in V. now apply toUpperCase_nil in V.
Qed.

Lemma pattern_fields_witness :
  parseRoutePattern (js "GET /api/* # weather")
  = parseRoutePattern (js "GET /api/*") /\
  forall path method, accepted (js " /api/*") path method -> method = [].
Proof.
  destruct (@pattern_fields (js "GET") (js "/api/*") (js "# weather")
              eq_refl eq_refl ltac:(discriminate)) as (A & _ & _).
  destruct (@pattern_fields [] (js "/api/*") [] eq_refl eq_refl
              ltac:(discriminate)) as (_ & _ & C).
  split; [exact A|exact C].
Defined.

Section ProviderInstances.
#[local] Existing Instance Demo.externals.
Import Demo Cases.

Lemma registered_provider_is_used_witness :
  fst (createHTTPResponse (registerPaywallProvider (serving honest) failingProvider)
         (descriptor None) true None (Some []) None start)
  = Thrown (ErrorExn (js "template missing")).
Proof.
  destruct (registered_provider_is_used (serving honest) failingProvider
              (descriptor None) None (customHtml := Some []) start
              (or_intror eq_refl)) as (_ & T & _).
  exact (T None _ eq_refl).
Defined.

End ProviderInstances.

(** ** The paywall handlers *)

Section HandlerFacts.
Context `{Externals}.
Import Paywall.

(** X15: the two handlers go by the namespace of the network, which is
    read with its case: the EVM handler takes the networks that start with
    [eip155:], the Solana handler those that start with [solana:], and no
    requirement is taken by both. *)
Theorem handlers_disjoint (requirement : PaymentRequirements) :
  (evmPaywall_supports requirement = true <->
   exists reference, requirements_network requirement = js "eip155:" ++ reference) /\
  (svmPaywall_supports requirement = true <->
   exists reference, requirements_network requirement = js "solana:" ++ reference) /\
  evmPaywall_supports requirement && svmPaywall_supports requirement = false.
Proof.
  unfold evmPaywall_supports, svmPaywall_supports.
  split; [apply startsWith_spec|]. split; [apply startsWith_spec|].
  destruct (startsWith _ (js "eip155:")) eqn:E; [|reflexivity].
  apply startsWith_spec in E as [b ->]. reflexivity.
Qed.

End HandlerFacts.

Section EscapeFacts.
Import Paywall.

Lemma replaceUnit_flat_map (c : N) (by_ : jsstring) (f : N -> jsstring)
    (s : jsstring) :
  replaceUnit c by_ (flat_map f s) = flat_map (fun x => replaceUnit c by_ (f x)) s.
Proof.
  unfold replaceUnit. induction s as [|x s IH]; [reflexivity|].
  cbn [flat_map]. now rewrite flat_map_app, IH.
Qed.

Lemma escapeString_unit (c : N) : escapeString [c] = escapeUnit c.
Proof.
  unfold escapeString, escapeUnit, replaceUnit.
  cbn [flat_map app].
  destruct (N.eqb_spec c BACKSLASH) as [->|N1]; [reflexivity|].
  cbn [flat_map app].
  destruct (N.eqb_spec c QUOTE) as [->|N2]; [reflexivity|].
  cbn [flat_map app].
  destruct (N.eqb_spec c APOSTROPHE) as [->|N3]; [reflexivity|].
  cbn [flat_map app].
  destruct (N.eqb_spec c LF) as [->|N4]; [reflexivity|].
  cbn [flat_map app].
  destruct (N.eqb_spec c CR) as [->|N5]; [reflexivity|].
  cbn [flat_map app].
  destruct (N.eqb_spec c TAB) as [->|N6]; reflexivity.
Qed.

Lemma escapeString_flat_map (s : jsstring) :
  escapeString s = flat_map escapeUnit s.
Proof.
  transitivity (flat_map (fun x => escapeString [x]) s).
  - unfold escapeString.
    assert (E : replaceUnit BACKSLASH [BACKSLASH; BACKSLASH] s
                = flat_map (fun x => replaceUnit BACKSLASH [BACKSLASH; BACKSLASH] [x]) s).
    { unfold replaceUnit. apply flat_map_ext. intros x. cbn [flat_map].
      now rewrite app_nil_r. }
    rewrite E. now rewrite !replaceUnit_flat_map.
  - apply flat_map_ext. intros x. apply escapeString_unit.
Qed.

Lemma escapeUnit_cases (c : N) :
  (escapeUnit c = [c] /\ c <> BACKSLASH /\ c <> QUOTE /\ c <> APOSTROPHE /\
   c <> LF /\ c <> CR /\ c <> TAB) \/
  (exists d, escapeUnit c = [BACKSLASH; d] /\
             (c = BACKSLASH /\ d = BACKSLASH \/ c = QUOTE /\ d = QUOTE \/
              c = APOSTROPHE /\ d = APOSTROPHE \/ c = LF /\ d = 110%N \/
              c = CR /\ d = 114%N \/ c = TAB /\ d = 116%N)).
Proof.
  unfold escapeUnit.
  destruct (N.eqb_spec c BACKSLASH) as [->|N1]; [right; eexists; split; [reflexivity|tauto]|].
  destruct (N.eqb_spec c QUOTE) as [->|N2]; [right; eexists; split; [reflexivity|tauto]|].
  destruct (N.eqb_spec c APOSTROPHE) as [->|N3]; [right; eexists; split; [reflexivity|tauto]|].
  destruct (N.eqb_spec c LF) as [->|N4]; [right; eexists; split; [reflexivity|tauto]|].
  destruct (N.eqb_spec c CR) as [->|N5]; [right; eexists; split; [reflexivity|tauto]|].
  destruct (N.eqb_spec c TAB) as [->|N6]; [right; eexists; split; [reflexivity|tauto]|].
  left. tauto.
Qed.

(** X16: the six replacements of [escapeString] amount to one pass that
    writes each code unit by itself: a backslash before a backslash or a
    quote, the two-letter escape for a line feed, a carriage return and a
    tab, and any other code unit as it is.  The backslashes that the later
    replacements write are not escaped again.  So escaping goes through
    concatenation, the result holds no raw line feed, carriage return or
    tab, and it is at most twice as long as the text. *)
Theorem escapeString_one_pass (s : jsstring) :
  escapeString s = flat_map escapeUnit s /\
  (forall t, escapeString (s ++ t) = escapeString s ++ escapeString t) /\
  Forall (fun c => c <> LF /\ c <> CR /\ c <> TAB) (escapeString s) /\
  length s <= length (escapeString s) <= 2 * length s.
Proof.
  split; [apply escapeString_flat_map|]. split; [|split].
  - intros t. rewrite !escapeString_flat_map. apply flat_map_app.
  - rewrite escapeString_flat_map. induction s as [|c s IH]; [constructor|].
    cbn [flat_map]. apply Forall_app. split; [|exact IH].
    destruct (escapeUnit_cases c) as [(-> & _ & _ & _ & N4 & N5 & N6)|(d & -> & D)].
    + repeat constructor; assumption.
    + constructor; [repeat split; discriminate|].
      constructor; [|constructor].
      destruct D as [[_ ->]|[[_ ->]|[[_ ->]|[[_ ->]|[[_ ->]|[_ ->]]]]]];
        repeat split; discriminate.
  - rewrite escapeString_flat_map. induction s as [|c s IH]; [cbn; lia|].
    cbn [flat_map]. rewrite length_app. cbn [length].
    destruct (escapeUnit_cases c) as [(-> & _)|(d & -> & _)]; cbn [length]; lia.
Qed.

Lemma readLiteral_escapeUnit (c : N) (rest : jsstring) :
  readLiteral (escapeUnit c ++ rest) = option_map (cons c) (readLiteral rest).
Proof.
  destruct (escapeUnit_cases c) as [(-> & N1 & N2 & _ & N4 & N5 & _)|(d & -> & D)].
  - cbn [app readLiteral].
    destruct (N.eqb_spec c BACKSLASH); [contradiction|].
    destruct (N.eqb_spec c QUOTE); [contradiction|].
    destruct (N.eqb_spec c LF); [contradiction|].
    destruct (N.eqb_spec c CR); [contradiction|]. reflexivity.
  - destruct D as [[-> ->]|[[-> ->]|[[-> ->]|[[-> ->]|[[-> ->]|[-> ->]]]]]];
      reflexivity.
Qed.

(** X17: what [escapeString] writes, read as the body of a string
    literal between double quotes, is the text that was escaped: the
    literal is not closed before its end, no line is broken, and no
    escape is left open.  So escaping loses nothing: two texts with the
    same escaped form are the same text. *)
Theorem escapeString_round_trip (s : jsstring) :
  readLiteral (escapeString s) = Some s /\
  (forall t, escapeString s = escapeString t -> s = t).
Proof.
  assert (R : forall u, readLiteral (escapeString u) = Some u).
  { intros u. rewrite escapeString_flat_map.
    induction u as [|c u IH]; [reflexivity|].
    cbn [flat_map]. now rewrite readLiteral_escapeUnit, IH. }
  split; [apply R|]. intros t E.
  pose proof (R s) as Rs. rewrite E, R in Rs. now injection Rs.
Qed.

End EscapeFacts.

Section PageFacts.
Context `{Externals}.
Import Paywall.

Variable Number : Type.
Variable numberToString : Number -> jsstring.
Variable stringify : PaymentRequired -> jsstring.

Lemma splitAtFirst_none (str pattern : jsstring) :
  includes str pattern = false -> splitAtFirst str pattern = None.
Proof.
  induction str as [|c str IH].
  - cbn [includes splitAtFirst]. intros E. apply orb_false_iff in E as [-> _].
    reflexivity.
  - intros E.
    change (includes (c :: str) pattern)
      with (startsWith (c :: str) pattern || includes str pattern) in E.
    apply orb_false_iff in E as [S I].
    change (splitAtFirst (c :: str) pattern)
      with (if startsWith (c :: str) pattern
            then Some ([], skipn (length pattern) (c :: str))
            else match splitAtFirst str pattern with
                 | Some (before, after) => Some (c :: before, after)
                 | None => None
                 end).
    now rewrite S, (IH I).
Qed.

Lemma startsWith_skipn (str pattern : jsstring) :
  startsWith str pattern = true ->
  str = pattern ++ skipn (length pattern) str.
Proof.
  revert str. induction pattern as [|x p IH]; intros str; [reflexivity|].
  destruct str as [|y s]; [discriminate|]. cbn [startsWith length skipn app].
  intros [E S]%andb_prop. apply N.eqb_eq in E as ->. now rewrite <- (IH s S).
Qed.

Lemma splitAtFirst_parts (str pattern before after : jsstring) :
  splitAtFirst str pattern = Some (before, after) ->
  str = before ++ pattern ++ after.
Proof.
  revert before. induction str as [|c str IH]; intros before.
  - cbn [splitAtFirst]. destruct (startsWith [] pattern) eqn:S; [|discriminate].
    intros [= <- <-]. exact (startsWith_skipn _ _ S).
  - change (splitAtFirst (c :: str) pattern)
      with (if startsWith (c :: str) pattern
            then Some ([], skipn (length pattern) (c :: str))
            else match splitAtFirst str pattern with
                 | Some (before, after) => Some (c :: before, after)
                 | None => None
                 end).
    destruct (startsWith (c :: str) pattern) eqn:S.
    + intros [= <- <-]. exact (startsWith_skipn _ _ S).
    + destruct (splitAtFirst str pattern) as [[b a]|]; [|discriminate].
      intros [= <- <-]. cbn [app]. now rewrite <- (IH b eq_refl).
Qed.

Lemma getSubstitution_plain (matched before after template : jsstring) :
  noDollar template = true ->
  getSubstitution matched before after template = template.
Proof.
  induction template as [|c t IH]; [reflexivity|].
  cbn [noDollar forallb]. intros [Hc Ht]%andb_prop.
  apply negb_true_iff in Hc. cbn [getSubstitution]. rewrite Hc.
  now rewrite (IH Ht).
Qed.

Lemma noDollar_app (a b : jsstring) :
  noDollar (a ++ b) = noDollar a && noDollar b.
Proof. apply forallb_app. Qed.

Lemma noDollar_escapeString (s : jsstring) :
  noDollar (escapeString s) = noDollar s.
Proof.
  rewrite escapeString_flat_map. induction s as [|c s IH]; [reflexivity|].
  cbn [flat_map]. rewrite noDollar_app, IH. cbn [noDollar forallb].
  f_equal. fold (noDollar (escapeUnit c)).
  destruct (escapeUnit_cases c) as [(-> & _)|(d & -> & D)].
  - cbn. now rewrite andb_true_r.
  - destruct D as [[-> ->]|[[-> ->]|[[-> ->]|[[-> ->]|[[-> ->]|[-> ->]]]]]];
      reflexivity.
Qed.

Lemma noDollar_quoted (s : jsstring) : noDollar (quoted s) = noDollar s.
Proof.
  unfold quoted. cbn [noDollar forallb]. fold (noDollar (s ++ [QUOTE])).
  rewrite noDollar_app. cbn. now rewrite andb_true_r.
Qed.

Lemma noDollar_or_else (o : option jsstring) :
  noDollar (or_else o []) = match o with Some s => noDollar s | None => true end.
Proof. destruct o as [[|c s]|]; reflexivity. Qed.

Lemma noDollar_joinLines (lines : list jsstring) :
  noDollar (joinLines lines) = forallb noDollar lines.
Proof.
  induction lines as [|l [|l' rest] IH]; [reflexivity| |].
  - cbn [joinLines forallb]. now rewrite andb_true_r.
  - change (joinLines (l :: l' :: rest)) with (l ++ 10%N :: joinLines (l' :: rest)).
    rewrite noDollar_app. cbn [noDollar forallb] in *.
    fold (noDollar (joinLines (l' :: rest))). rewrite IH. reflexivity.
Qed.

Lemma configScript_noDollar (options : EvmPaywallOptions Number) :
  noDollar (configScript numberToString stringify options)
  = noDollar (numberToString (opt_amount options))
    && noDollar (stringify (opt_paymentRequired options))
    && noDollar (opt_currentUrl options)
    && match opt_appName options with Some s => noDollar s | None => true end
    && match opt_appLogo options with Some s => noDollar s | None => true end.
Proof.
  unfold configScript. rewrite noDollar_joinLines. cbn [forallb].
  rewrite !noDollar_app, !noDollar_quoted, !noDollar_escapeString,
    !noDollar_or_else.
  set (b1 := noDollar (numberToString _)).
  set (b2 := noDollar (stringify _)).
  set (b3 := noDollar (opt_currentUrl _)).
  set (b4 := match opt_appName options with Some s => noDollar s | None => true end).
  set (b5 := match opt_appLogo options with Some s => noDollar s | None => true end).
  destruct (opt_testnet options), b1, b2, b3, b4, b5; reflexivity.
Qed.

(** X18: the page of the EVM handler.  Without a template, or with an
    empty one, the page is the fixed notice, whatever the options.  A
    template without [</head>] is returned as it is: the configuration is
    not put in the page.  Otherwise the configuration script goes before
    the first [</head>] and the rest of the template is kept; the script
    is copied as it is when none of the texts it is made of holds a
    dollar sign, which [replace] would read as a pattern. *)
Theorem getEvmPaywallHtml_page (getEvmTemplate : option jsstring)
    (options : EvmPaywallOptions Number) :
  let page := getEvmPaywallHtml numberToString stringify getEvmTemplate options in
  (getEvmTemplate = None \/ getEvmTemplate = Some [] -> page = fallbackPage) /\
  (forall template,
      getEvmTemplate = Some template -> template <> [] ->
      includes template (js "</head>") = false ->
      page = template) /\
  (forall template before after,
      getEvmTemplate = Some template -> template <> [] ->
      splitAtFirst template (js "</head>") = Some (before, after) ->
      noDollar (numberToString (opt_amount options)) = true ->
      noDollar (stringify (opt_paymentRequired options)) = true ->
      noDollar (opt_currentUrl options) = true ->
      noDollar (or_else (opt_appName options) []) = true ->
      noDollar (or_else (opt_appLogo options) []) = true ->
      template = before ++ js "</head>" ++ after /\
      page = before ++ configScript numberToString stringify options
                    ++ LF :: js "</head>" ++ after).
Proof.
  intros page. subst page. unfold getEvmPaywallHtml. split; [|split].
  - intros [-> | ->]; reflexivity.
  - intros template -> N0 I. destruct template as [|c t]; [contradiction|].
    cbn [truthy]. unfold replaceFirst. now rewrite (splitAtFirst_none _ _ I).
  - intros template before after -> N0 S D1 D2 D3 D4 D5.
    split; [exact (splitAtFirst_parts _ _ S)|].
    destruct template as [|c t]; [contradiction|]. cbn [truthy].
    unfold replaceFirst. rewrite S.
    rewrite getSubstitution_plain.
    + now rewrite <- app_assoc.
    + rewrite noDollar_app, configScript_noDollar, D1, D2, D3.
      rewrite noDollar_or_else in D4, D5. now rewrite D4, D5.
Qed.

End PageFacts.

Section PageInstances.
#[local] Existing Instance Demo.externals.
Import Demo Paywall.

Lemma getEvmPaywallHtml_page_witness :
  let options :=
    {| opt_amount := 1%N; opt_paymentRequired := descriptor None;
       opt_currentUrl := js "https://example.test/?q='a'"; opt_testnet := true;
       opt_appName := None; opt_appLogo := None |} in
  let page (template : string) :=
    getEvmPaywallHtml (H := externals) (fun n : N => js "0.01")
      (fun d : Descriptor => js "{}") (Some (js template)) options in
  page "<body>no head</body>"%string = js "<body>no head</body>" /\
  page "<head></head><body/>"%string
  = js "<head>"
    ++ configScript (H := externals) (fun n : N => js "0.01")
         (fun d : Descriptor => js "{}") options
    ++ LF :: js "</head><body/>".
Proof.
  intros options page. split.
  - refine (proj1 (proj2 (getEvmPaywallHtml_page (H := externals)
                            (fun n : N => js "0.01")
                            (fun d : Descriptor => js "{}")
                            (Some (js "<body>no head</body>")) options))
                  _ eq_refl _ eq_refl).
    discriminate.
  - refine (proj2 (proj2 (proj2 (getEvmPaywallHtml_page (H := externals)
                                   (fun n : N => js "0.01")
                                   (fun d : Descriptor => js "{}")
                                   (Some (js "<head></head><body/>")) options))
                         _ (js "<head>") (js "<body/>") eq_refl _ eq_refl
                         eq_refl eq_refl eq_refl eq_refl eq_refl)).
    discriminate.
Defined.

End PageInstances.

Section DollarFacts.
Context `{Externals}.
Import Paywall.

Variable Number : Type.
Variable numberToString : Number -> jsstring.
Variable stringify : PaymentRequired -> jsstring.

Lemma configScript_split (options : EvmPaywallOptions Number) :
  configScript numberToString stringify options
  = scriptBeforeUrl numberToString stringify options
    ++ escapeString (opt_currentUrl options)
    ++ scriptAfterUrl options.
Proof.
  unfold configScript, scriptBeforeUrl, scriptAfterUrl, quoted.
  cbn [joinLines].
  repeat first [rewrite <- app_assoc | progress cbn [app]]. reflexivity.
Qed.

Lemma escapeString_app (s t : jsstring) :
  escapeString (s ++ t) = escapeString s ++ escapeString t.
Proof. rewrite !escapeString_flat_map. apply flat_map_app. Qed.

Lemma getSubstitution_app_plain (matched before after x y : jsstring) :
  noDollar x = true ->
  getSubstitution matched before after (x ++ y)
  = x ++ getSubstitution matched before after y.
Proof.
  induction x as [|c x IH]; [reflexivity|].
  cbn [noDollar forallb]. intros [Hc Hx]%andb_prop.
  apply negb_true_iff in Hc. cbn [app getSubstitution]. rewrite Hc.
  now rewrite (IH Hx).
Qed.

Lemma noDollar_cons (c : N) (s : jsstring) :
  noDollar (c :: s) = negb (N.eqb c DOLLAR) && noDollar s.
Proof. reflexivity. Qed.

(** X21: the page does not always show the URL it was given.  The
    script is the replacement text of a [replace], so a [$$] in the URL is
    written as one [$], and a [$&] as [</head>]: the page is the one made
    for the URL so changed. *)
Theorem page_reads_dollar_patterns (getEvmTemplate : option jsstring)
    (options : EvmPaywallOptions Number)
    (template before after a b : jsstring) (k : N) :
  getEvmTemplate = Some template -> template <> [] ->
  splitAtFirst template (js "</head>") = Some (before, after) ->
  opt_currentUrl options = a ++ DOLLAR :: k :: b ->
  k = DOLLAR \/ k = AMPERSAND ->
  noDollar a = true -> noDollar b = true ->
  noDollar (numberToString (opt_amount options)) = true ->
  noDollar (stringify (opt_paymentRequired options)) = true ->
  noDollar (or_else (opt_appName options) []) = true ->
  noDollar (or_else (opt_appLogo options) []) = true ->
  getEvmPaywallHtml numberToString stringify getEvmTemplate options
  = before
    ++ configScript numberToString stringify
         (withCurrentUrl options (a ++ shown k ++ b))
    ++ LF :: js "</head>" ++ after.
Proof.
  intros -> N0 S U K Da Db D1 D2 D4 D5.
  unfold getEvmPaywallHtml. destruct template as [|c t]; [contradiction|].
  cbn [truthy]. unfold replaceFirst. rewrite S.
  enough (G : getSubstitution (js "</head>") before after
                (configScript numberToString stringify options
                 ++ LF :: js "</head>")
              = configScript numberToString stringify
                  (withCurrentUrl options (a ++ shown k ++ b))
                ++ LF :: js "</head>")
    by (rewrite G, <- app_assoc; reflexivity).
  rewrite !configScript_split. cbn [opt_currentUrl withCurrentUrl].
  change (scriptBeforeUrl numberToString stringify (withCurrentUrl options _))
    with (scriptBeforeUrl numberToString stringify options).
  change (scriptAfterUrl (withCurrentUrl options (a ++ shown k ++ b)))
    with (scriptAfterUrl options).
  rewrite U.
  assert (Es : escapeString (shown k) = shown k)
    by (destruct K as [-> | ->]; reflexivity).
  assert (Ek : escapeString [DOLLAR; k] = [DOLLAR; k])
    by (destruct K as [-> | ->]; reflexivity).
  change (a ++ DOLLAR :: k :: b) with (a ++ [DOLLAR; k] ++ b).
  rewrite !escapeString_app, Es, Ek.
  assert (Dp : noDollar (scriptBeforeUrl numberToString stringify options) = true).
  { unfold scriptBeforeUrl. rewrite noDollar_joinLines. cbn [forallb].
    rewrite !noDollar_app, D1, D2. now destruct (opt_testnet options). }
  assert (Dq : noDollar (scriptAfterUrl options ++ LF :: js "</head>") = true).
  { unfold scriptAfterUrl. rewrite noDollar_app.
    change (noDollar (LF :: js "</head>")) with true. rewrite andb_true_r.
    rewrite noDollar_cons, noDollar_app, noDollar_cons, noDollar_joinLines.
    cbn [forallb].
    rewrite !noDollar_app, !noDollar_quoted, !noDollar_escapeString, D4, D5.
    now destruct (opt_testnet options). }
  rewrite <- !app_assoc.
  rewrite getSubstitution_app_plain by exact Dp.
  rewrite getSubstitution_app_plain by now rewrite noDollar_escapeString.
  f_equal. f_equal.
  assert (Dr : noDollar (escapeString b ++ scriptAfterUrl options
                         ++ LF :: js "</head>") = true)
    by now rewrite noDollar_app, noDollar_escapeString, Db, Dq.
  destruct K as [-> | ->]; cbn [app getSubstitution shown];
    change (N.eqb DOLLAR DOLLAR) with true; cbn iota.
  - now rewrite getSubstitution_plain by exact Dr.
  - change (N.eqb AMPERSAND DOLLAR) with false.
    change (N.eqb AMPERSAND AMPERSAND) with true. cbn iota.
    rewrite getSubstitution_plain by exact Dr. reflexivity.
Qed.

End DollarFacts.

Section DollarInstances.
#[local] Existing Instance Demo.externals.
Import Demo Paywall.

Lemma page_reads_dollar_patterns_witness :
  let options url :=
    {| opt_amount := 1%N; opt_paymentRequired := descriptor None;
       opt_currentUrl := js url; opt_testnet := false;
       opt_appName := None; opt_appLogo := None |} in
  getEvmPaywallHtml (H := externals) (fun n : N => js "0.01")
    (fun d : Descriptor => js "{}") (Some (js "<head></head>"))
    (options "https://example.test/?cost=$$5"%string)
  = js "<head>"
    ++ configScript (H := externals) (fun n : N => js "0.01")
         (fun d : Descriptor => js "{}")
         (options "https://example.test/?cost=$5"%string)
    ++ LF :: js "</head>".
Proof.
  intros options.
  exact (@page_reads_dollar_patterns externals N (fun n : N => js "0.01")
           (fun d : Descriptor => js "{}") (Some (js "<head></head>"))
           (options "https://example.test/?cost=$$5"%string)
           (js "<head></head>") (js "<head>") []
           (js "https://example.test/?cost=") (js "5") DOLLAR
           eq_refl ltac:(discriminate) eq_refl eq_refl (or_introl eq_refl)
           eq_refl eq_refl eq_refl eq_refl eq_refl eq_refl).
Defined.

End DollarInstances.

(** ** Letter case *)

Section CaseFacts.

Lemma sameUnit_class (c d k : N) :
  sameUnit c d -> notLetter k = true -> N.eqb c k = N.eqb d k.
Proof.
  unfold sameUnit, upper_unit, notLetter. intros E K.
  apply negb_true_iff, orb_false_iff in K as [K1 K2].
  destruct (N.eqb_spec c k) as [->|Nc], (N.eqb_spec d k) as [->|Nd];
    try reflexivity; exfalso.
  - rewrite K2 in E.
    destruct ((97 <=? d)%N && (d <=? 122)%N) eqn:D; [|congruence].
    apply andb_prop in D as [D1 D2]. apply N.leb_le in D1, D2.
    apply andb_false_iff in K1 as [K|K]; apply N.leb_gt in K; lia.
  - rewrite K2 in E.
    destruct ((97 <=? c)%N && (c <=? 122)%N) eqn:C; [|congruence].
    apply andb_prop in C as [C1 C2]. apply N.leb_le in C1, C2.
    apply andb_false_iff in K1 as [K|K]; apply N.leb_gt in K; lia.
Qed.

Lemma sameUnit_cases (c d : N) :
  sameUnit c d ->
  c = d \/
  ((97 <= c <= 122)%N /\ d = (c - 32)%N) \/
  ((97 <= d <= 122)%N /\ c = (d - 32)%N).
Proof.
  unfold sameUnit, upper_unit. intros E.
  destruct ((97 <=? c)%N && (c <=? 122)%N) eqn:C,
           ((97 <=? d)%N && (d <=? 122)%N) eqn:D.
  - apply andb_prop in C as [C1 C2]. apply N.leb_le in C1, C2.
    apply andb_prop in D as [D1 D2]. apply N.leb_le in D1, D2. left. lia.
  - apply andb_prop in C as [C1 C2]. apply N.leb_le in C1, C2.
    right. left. split; [lia|congruence].
  - apply andb_prop in D as [D1 D2]. apply N.leb_le in D1, D2.
    right. right. split; [lia|congruence].
  - now left.
Qed.

Lemma sameUnit_hexVal (c d : N) : sameUnit c d -> hexVal c = hexVal d.
Proof.
  intros E. destruct (sameUnit_cases E) as [->|[[C ->]|[D ->]]]; [reflexivity| |].
  - unfold hexVal.
    repeat match goal with
           | |- context [(?a <=? ?b)%N] =>
               destruct (N.leb_spec a b); cbn [andb]
           end; try reflexivity; try lia; f_equal; lia.
  - unfold hexVal.
    repeat match goal with
           | |- context [(?a <=? ?b)%N] =>
               destruct (N.leb_spec a b); cbn [andb]
           end; try reflexivity; try lia; f_equal; lia.
Qed.

Lemma sameUnit_lineTerminator (c d : N) :
  sameUnit c d -> isLineTerminator c = isLineTerminator d.
Proof.
  intros E. unfold isLineTerminator.
  now rewrite (sameUnit_class 10 E eq_refl), (sameUnit_class 13 E eq_refl),
    (sameUnit_class 8232 E eq_refl), (sameUnit_class 8233 E eq_refl).
Qed.

Lemma sameUpToCase_upper (s t : jsstring) :
  sameUpToCase s t <-> toUpperCase s = toUpperCase t.
Proof.
  unfold sameUpToCase, toUpperCase. split.
  - induction 1 as [|c d s t E _ IH]; [reflexivity|]. cbn [map]. now rewrite E, IH.
  - revert t. induction s as [|c s IH]; intros [|d t]; try discriminate.
    + constructor.
    + cbn [map]. intros [= E Et]. constructor; [exact E|now apply IH].
Qed.

Lemma sameUpToCase_refl (s : jsstring) : sameUpToCase s s.
Proof. now apply sameUpToCase_upper. Qed.

Lemma beforeQuery_case (p q : jsstring) :
  sameUpToCase p q -> sameUpToCase (beforeQuery p) (beforeQuery q).
Proof.
  induction 1 as [|c d p q E _ IH]; [constructor|].
  cbn [beforeQuery].
  rewrite (sameUnit_class QUESTION E), (sameUnit_class HASH E)
    by reflexivity.
  destruct (_ || _); now constructor.
Qed.

Lemma percentUnescape_case (p q : jsstring) :
  sameUpToCase p q ->
  sameResult (Forall2 sameItem) (percentUnescape p) (percentUnescape q).
Proof.
  remember (length p) as n eqn:Hn.
  assert (Hle : length p <= n) by lia. clear Hn.
  revert p q Hle. induction n as [|n IH]; intros p q Hle S.
  - destruct S; [constructor|simpl in Hle; lia].
  - destruct S as [|c d p q E S]; [constructor|].
    cbn [percentUnescape]. cbn [length] in Hle.
    rewrite <- (sameUnit_class PERCENT E) by reflexivity.
    destruct (N.eqb c PERCENT).
    + destruct S as [|h1 k1 p q E1 S]; [exact I|].
      destruct S as [|h2 k2 p q E2 S]; [exact I|].
      rewrite <- (sameUnit_hexVal E1), <- (sameUnit_hexVal E2).
      destruct (hexVal h1); [|exact I]. destruct (hexVal h2); [|exact I].
      cbn [length] in Hle.
      assert (L : length p <= n) by lia.
      pose proof (IH p q L S) as R.
      destruct (percentUnescape p), (percentUnescape q); cbn in R |- *;
        try contradiction; [|exact I].
      constructor; [reflexivity|exact R].
    + assert (L : length p <= n) by lia.
      pose proof (IH p q L S) as R.
      destruct (percentUnescape p), (percentUnescape q); cbn in R |- *;
        try contradiction; [|exact I].
      constructor; [exact E|exact R].
Qed.

Lemma sameResult_app (pre : jsstring) (x y : option jsstring) :
  sameResult sameUpToCase x y ->
  sameResult sameUpToCase (option_map (app pre) x) (option_map (app pre) y).
Proof.
  destruct x, y; cbn; try contradiction; [|trivial].
  intros S. apply Forall2_app; [apply sameUpToCase_refl|exact S].
Qed.

Lemma sameResult_cons (c d : N) (x y : option jsstring) :
  sameUnit c d -> sameResult sameUpToCase x y ->
  sameResult sameUpToCase (option_map (cons c) x) (option_map (cons d) y).
Proof.
  intros E. destruct x, y; cbn; try contradiction; [|trivial].
  intros S. now constructor.
Qed.

Ltac peel S :=
  destruct S as [|[?|?] [?|?] ? ? ?E S]; [exact I| | | |];
  cbn [sameItem] in *; try contradiction; [try exact I|subst].

Lemma utf8Decode_case (ip iq : list Item) :
  Forall2 sameItem ip iq ->
  sameResult sameUpToCase (utf8Decode ip) (utf8Decode iq).
Proof.
  remember (length ip) as n eqn:Hn.
  assert (Hle : length ip <= n) by lia. clear Hn.
  revert ip iq Hle. induction n as [|n IH]; intros ip iq Hle S.
  - destruct S; [constructor|simpl in Hle; lia].
  - destruct S as [|[c|b] [d|b'] ip iq E S]; [constructor| | | |];
      cbn [sameItem] in E; try contradiction; cbn [length] in Hle.
    + cbn [utf8Decode]. apply sameResult_cons; [exact E|]. apply IH; [lia|exact S].
    + subst b'. cbn [utf8Decode].
      destruct (b <? 128)%N.
      { apply (sameResult_app [b]). apply IH; [lia|exact S]. }
      destruct (b <? 192)%N; [exact I|].
      destruct (b <? 224)%N.
      { peel S. destruct (_ && _); [|exact I].
        apply sameResult_app. apply IH; [cbn [length] in Hle; lia|exact S]. }
      destruct (b <? 240)%N.
      { peel S. peel S. destruct (_ && _); [|exact I].
        apply sameResult_app. apply IH; [cbn [length] in Hle; lia|exact S]. }
      destruct (b <? 248)%N; [|exact I].
      peel S. peel S. peel S. destruct (_ && _); [|exact I].
      apply sameResult_app. apply IH; [cbn [length] in Hle; lia|exact S].
Qed.

Lemma decodeURIComponent_case (p q : jsstring) :
  sameUpToCase p q ->
  sameResult sameUpToCase (decodeURIComponent p) (decodeURIComponent q).
Proof.
  intros S. unfold decodeURIComponent.
  pose proof (percentUnescape_case S) as R.
  destruct (percentUnescape p), (percentUnescape q); cbn in R; try contradiction.
  - now apply utf8Decode_case.
  - exact I.
Qed.

Lemma backslashToSlash_case (s t : jsstring) :
  sameUpToCase s t -> sameUpToCase (backslashToSlash s) (backslashToSlash t).
Proof.
  induction 1 as [|c d s t E _ IH]; [constructor|].
  cbn [backslashToSlash map].
  rewrite (sameUnit_class BACKSLASH E) by reflexivity.
  constructor; [|exact IH]. now destruct (N.eqb d BACKSLASH).
Qed.

Lemma collapseSlashes_case (s t : jsstring) :
  sameUpToCase s t -> sameUpToCase (collapseSlashes s) (collapseSlashes t).
Proof.
  induction 1 as [|c d s t E S IH]; [constructor|].
  rewrite !collapseSlashes_cons.
  rewrite (sameUnit_class SLASH E) by reflexivity.
  destruct (N.eqb d SLASH).
  - destruct S as [|c' d' s t E' S]; [now repeat constructor|].
    rewrite (sameUnit_class SLASH E') by reflexivity.
    destruct (N.eqb d' SLASH); [exact IH|now constructor].
  - now constructor.
Qed.

Lemma slashesToEnd_case (s t : jsstring) :
  sameUpToCase s t -> slashesToEnd s = slashesToEnd t.
Proof.
  induction 1 as [|c d s t E S IH]; [reflexivity|].
  cbn [slashesToEnd]. rewrite (sameUnit_class SLASH E) by reflexivity.
  destruct S; [reflexivity|]. now rewrite IH.
Qed.

Lemma lazyGroupAt_case (s t : jsstring) :
  sameUpToCase s t ->
  sameResult sameUpToCase (lazyGroupAt s) (lazyGroupAt t).
Proof.
  induction 1 as [|c d s t E S IH]; [exact I|].
  cbn [lazyGroupAt]. rewrite (sameUnit_lineTerminator E).
  destruct (isLineTerminator d); [exact I|].
  rewrite (slashesToEnd_case S).
  destruct (slashesToEnd t); [now repeat constructor|].
  now apply sameResult_cons.
Qed.

Lemma stripTrailingSlashes_case (s t : jsstring) :
  sameUpToCase s t ->
  sameUpToCase (stripTrailingSlashes s) (stripTrailingSlashes t).
Proof.
  induction 1 as [|c d s t E S IH]; [constructor|].
  assert (S' : sameUpToCase (c :: s) (d :: t)) by now constructor.
  pose proof (lazyGroupAt_case S') as G.
  change (stripTrailingSlashes (c :: s))
    with (match lazyGroupAt (c :: s) with
          | Some g => g
          | None => c :: stripTrailingSlashes s
          end).
  change (stripTrailingSlashes (d :: t))
    with (match lazyGroupAt (d :: t) with
          | Some g => g
          | None => d :: stripTrailingSlashes t
          end).
  destruct (lazyGroupAt (c :: s)), (lazyGroupAt (d :: t)); cbn in G;
    try contradiction; [exact G|now constructor].
Qed.

Lemma normalizePath_case (p q : jsstring) :
  sameUpToCase p q -> sameUpToCase (normalizePath p) (normalizePath q).
Proof.
  intros S. unfold normalizePath.
  pose proof (decodeURIComponent_case (beforeQuery_case S)) as D.
  destruct (decodeURIComponent (beforeQuery p)),
           (decodeURIComponent (beforeQuery q)); cbn in D; try contradiction.
  - now apply stripTrailingSlashes_case, collapseSlashes_case,
      backslashToSlash_case.
  - exact S.
Qed.

Lemma atomMatches_case (a : RegExp.Atom) (c d : N) :
  sameUnit c d -> RegExp.atomMatches a c = RegExp.atomMatches a d.
Proof.
  intros E. destruct a as [x| |neg ms]; cbn [RegExp.atomMatches].
  - unfold RegExp.canon. now rewrite E.
  - now rewrite (sameUnit_lineTerminator E).
  - unfold RegExp.canon. now rewrite E.
Qed.

Lemma matchHere_case (r : RegExp.Regex) :
  forall b s t, sameUpToCase s t ->
                RegExp.matchHere r b s = RegExp.matchHere r b t.
Proof.
  induction r as [|[| |a q] r IH]; intros b s t S; [reflexivity| | |].
  - cbn [RegExp.matchHere]. now rewrite (IH b s t S).
  - cbn [RegExp.matchHere]. destruct S; reflexivity.
  - assert (St : forall b s t, sameUpToCase s t ->
                   RegExp.matchHere (RegExp.TAtom a RegExp.Star :: r) b s
                   = RegExp.matchHere (RegExp.TAtom a RegExp.Star :: r) b t).
    { intros b' s' t' S'. revert b'.
      induction S' as [|c d s' t' E S' IHs]; intros b'; [reflexivity|].
      - rewrite (matchHere_star a r b' (c :: s')), (matchHere_star a r b' (d :: t')).
        rewrite (IH b' (c :: s') (d :: t')) by now constructor.
        now rewrite (atomMatches_case a E), (IHs false). }
    destruct q.
    + cbn [RegExp.matchHere]. destruct S as [|c d s t E S]; [reflexivity|].
      now rewrite (atomMatches_case a E), (IH false s t S).
    + now apply St.
    + rewrite !matchHere_plus. destruct S as [|c d s t E S]; [reflexivity|].
      now rewrite (atomMatches_case a E), (St false s t S).
    + cbn [RegExp.matchHere]. rewrite (IH b s t S).
      destruct S as [|c d s t E S]; [reflexivity|].
      now rewrite (atomMatches_case a E), (IH false s t S).
Qed.

Lemma test_case (r : RegExp.Regex) (s t : jsstring) :
  sameUpToCase s t -> RegExp.test r s = RegExp.test r t.
Proof.
  unfold RegExp.test. generalize true.
  intros b S. revert b. induction S as [|c d s t E S IH]; intros b.
  - reflexivity.
  - cbn [RegExp.testFrom].
    rewrite (matchHere_case r b (s := c :: s) (t := d :: t)) by now constructor.
    now rewrite (IH false).
Qed.

End CaseFacts.

Section CaseTheorem.
Context `{Externals}.

(** X19: the route of a request does not depend on the case of the ASCII
    letters of its path or of its method: two requests that differ only
    there are gated by the same route, or both let through.  This holds
    with percent escapes, whose hexadecimal digits are read in either
    case, and whether or not the path decodes. *)
Theorem route_ignores_case (srv : x402HTTPResourceServer)
    (path path' method method' : jsstring) :
  toUpperCase path = toUpperCase path' ->
  toUpperCase method = toUpperCase method' ->
  toUpperCase (normalizePath path) = toUpperCase (normalizePath path') /\
  getRouteConfig srv path method = getRouteConfig srv path' method'.
Proof.
  intros P M. apply sameUpToCase_upper in P.
  pose proof (normalizePath_case P) as N0.
  split; [now apply sameUpToCase_upper|].
  unfold getRouteConfig. rewrite M. f_equal.
  induction (compiledRoutes srv) as [|route routes IH]; [reflexivity|].
  cbn [List.find]. unfold routeAccepts at 1 3.
  rewrite (test_case (regex route) N0).
  destruct (_ && _); [reflexivity|exact IH].
Qed.

End CaseTheorem.

Section CaseInstances.
#[local] Existing Instance Demo.externals.
Import Demo.

Lemma route_ignores_case_witness :
  getRouteConfig (serving honest) (js "/API%2fSeven") (js "get") = Some weather.
Proof.
  destruct (route_ignores_case (serving honest) (js "/API%2fSeven")
              (js "/api%2Fseven") (js "get") (js "GET") eq_refl eq_refl)
    as (_ & ->).
  reflexivity.
Defined.

End CaseInstances.

(** ** More instances *)

Section FurtherInstances.
#[local] Existing Instance Demo.externals.
Import Demo Cases Paywall.

Lemma single_config_applies_witness :
  exists srv,
    new_x402HTTPResourceServer (authority honest) (SingleRoute weather) = Some srv /\
    getRouteConfig srv (js "/any/path?x=1") (js "DELETE") = Some weather /\
    getRouteConfig srv (js "/a%0Ab") (js "GET") = None.
Proof.
  destruct (single_config_applies (authority honest) weather) as (srv & E & G).
  exists srv. split; [exact E|]. split; rewrite G; reflexivity.
Defined.

Lemma requiresPayment_agrees_witness :
  requiresPayment (serving honest) strolling = false /\
  processHTTPRequest (serving honest) strolling None start
  = (Returned NoPaymentRequired, start).
Proof.
  split; [reflexivity|].
  exact (proj2 (requiresPayment_agrees (serving honest) strolling None start)
               eq_refl).
Defined.

Lemma initialize_failure_modes_witness :
  snd (initialize (servingOn honest mixed) start)
  = {| world := 1%nat; trace := [CallInitialize] |} /\
  exists errors,
    fst (initialize (servingOn honest mixed) start)
    = Thrown (newRouteConfigurationError errors) /\
    length errors = 3%nat.
Proof.
  destruct (initialize_failure_modes (servingOn honest mixed) start) as (S & M).
  split; [exact S|].
  destruct (fst (initialize (servingOn honest mixed) start)) as [u|e] eqn:F.
  - vm_compute in F. discriminate F.
  - destruct M as [M|(_ & _ & errors & -> & V & _)].
    + vm_compute in M. discriminate M.
    + exists errors. split; [reflexivity|]. rewrite V. reflexivity.
Defined.

Lemma handlers_disjoint_witness :
  evmPaywall_supports (H := externals) exactOnBase = true /\
  svmPaywall_supports (H := externals) exactOnBase = false /\
  evmPaywall_supports (H := externals) (js "exact", js "EIP155:8453") = false.
Proof.
  destruct (handlers_disjoint (H := externals) exactOnBase) as (E & _ & D).
  assert (T : evmPaywall_supports (H := externals) exactOnBase = true).
  { apply E. exists (js "8453"). reflexivity. }
  rewrite T in D. split; [exact T|]. split; [exact D|reflexivity].
Defined.

Lemma escapeString_one_pass_witness :
  escapeString (js "C:\dir 'x'") = js "C:\\dir \'x\'".
Proof.
  rewrite (proj1 (escapeString_one_pass (js "C:\dir 'x'"))). reflexivity.
Defined.

Lemma escapeString_round_trip_witness :
  readLiteral (escapeString (QUOTE :: js "; alert(1); //"))
  = Some (QUOTE :: js "; alert(1); //").
Proof. exact (proj1 (escapeString_round_trip (QUOTE :: js "; alert(1); //"))). Defined.

End FurtherInstances.
